(** * telegram_media_downloader: a shallow embedding of [media_downloader.py]

  The development follows the module top-down: the Python values the code
  manipulates (strings, optional attributes, exceptions), the two pure
  helpers [_can_download] and [_get_media_meta], then the effectful part
  ([download_media], [process_messages], [update_config], [begin_import])
  written in a small state-and-exception monad over an explicit world.
  The session helpers follow: [clean_configs] and the file name [main]
  opens, which are pure, and [move_files], written in a second monad over
  an abstract disk that records the [pathlib] calls. *)

From Stdlib Require Import ZArith List String Ascii Bool Lia Sorted.
From stdpp Require Import base option list gmap sets strings sorting.

Open Scope string_scope.
Open Scope list_scope.

(** ** Python exceptions and fallible values *)

(** The exception classes the module can meet.  [BadRequest] is
  [pyrogram.errors.exceptions.bad_request_400.BadRequest]; the others are
  Python built-ins.  [OtherException] stands for every other subclass of
  [Exception]. *)
Inductive exn : Type :=
  | BadRequest
  | TypeError
  | AttributeError
  | KeyError
  | IndexError
  | ValueError
  | OtherException.

Inductive result (A : Type) : Type :=
  | Ok (a : A)
  | Raise (e : exn).
Arguments Ok {A} a.
Arguments Raise {A} e.

Definition is_ok {A} (r : result A) : bool :=
  match r with Ok _ => true | Raise _ => false end.

Definition rbind {A B} (r : result A) (k : A -> result B) : result B :=
  match r with
  | Ok a => k a
  | Raise e => Raise e
  end.

(** ** Python string and list primitives used by the module *)

Module Py.

(** [s.split(sep)] for a one-character separator: never the empty list. *)
Fixpoint split (sep : ascii) (s : string) : list string :=
  match s with
  | EmptyString => [EmptyString]
  | String c rest =>
      if Ascii.eqb c sep then EmptyString :: split sep rest
      else match split sep rest with
           | [] => [String c EmptyString]
           | hd :: tl => String c hd :: tl
           end
  end.

(** [l[-1]]: the last element, [IndexError] on the empty list. *)
Fixpoint index_last {A} (l : list A) : result A :=
  match l with
  | [] => Raise IndexError
  | [x] => Ok x
  | _ :: tl => index_last tl
  end.

(** [l[0]]. *)
Definition index_first {A} (l : list A) : result A :=
  match l with
  | [] => Raise IndexError
  | x :: _ => Ok x
  end.

(** [x in l] where [x] may be [None] and [l] holds strings only. *)
Definition contains (x : option string) (l : list string) : bool :=
  match x with
  | Some s => bool_decide (s ∈ l)
  | None => false
  end.

(** [x in names] for a literal list of names. *)
Definition one_of (x : string) (names : list string) : bool :=
  bool_decide (x ∈ names).

(** [max(l)] on integers: [ValueError] on the empty list. *)
Definition max (l : list Z) : result Z :=
  match l with
  | [] => Raise ValueError
  | x :: xs => Ok (foldl Z.max x xs)
  end.

Definition startswith_sep (s : string) : bool :=
  match s with
  | String c _ => Ascii.eqb c "/"
  | EmptyString => false
  end.

Fixpoint endswith_sep (s : string) : bool :=
  match s with
  | EmptyString => false
  | String c EmptyString => Ascii.eqb c "/"
  | String _ rest => endswith_sep rest
  end.

(** One step of [posixpath.join]: an absolute component restarts the
    path, otherwise it is appended after exactly one separator. *)
Definition join2 (path b : string) : string :=
  if startswith_sep b then b
  else if String.eqb path "" || endswith_sep path then path +:+ b
  else path +:+ "/" +:+ b.

(** [os.path.join(a, *p)]. *)
Definition path_join (a : string) (p : list string) : string :=
  foldl join2 a p.

(** [s.endswith(suffix)]: some tail of [s] is [suffix]. *)
Fixpoint endswith (s suffix : string) : bool :=
  String.eqb s suffix
  || match s with
     | EmptyString => false
     | String _ rest => endswith rest suffix
     end.

(** [l.remove(x)]: the first occurrence of [x] goes; [ValueError] when
    there is none. *)
Fixpoint list_remove (x : string) (l : list string) : result (list string) :=
  match l with
  | [] => Raise ValueError
  | y :: rest =>
      if String.eqb y x then Ok rest
      else rbind (list_remove x rest) (fun rest' => Ok (y :: rest'))
  end.

End Py.

(** ** Media objects *)

(** A pyrogram media object, reduced to the attributes the module reads.
  An attribute the class does not have ([Photo] has neither [mime_type]
  nor [file_name]) reads as [None], as [getattr(_, _, None)] does.
  [date] is kept as its [isoformat()] rendering. *)
Record MediaObj : Type := {
  mime_type : option string;
  file_name : option string;
  date : option string
}.

Definition format_restricted : list string := ["audio"; "document"; "video"].
Definition timestamp_named : list string := ["voice"; "video_note"].

Section Pure.

(** [THIS_DIR]: the directory of the running script. *)
Variable THIS_DIR : string.

(** [media_obj.mime_type.split("/")[-1]]; [None.split] is an
    [AttributeError]. *)
Definition mime_subtype (media_obj : MediaObj) : result string :=
  match mime_type media_obj with
  | None => Raise AttributeError
  | Some m => Py.index_last (Py.split "/" m)
  end.

Definition _can_download (_type : string)
    (file_formats : gmap string (list string))
    (file_format : option string) : result bool :=
  if Py.one_of _type format_restricted then
    match file_formats !! _type with
    | None => Raise KeyError
    | Some allowed_formats =>
        if negb (Py.contains file_format allowed_formats) then
          rbind (Py.index_first allowed_formats) (fun first =>
            if negb (String.eqb first "all") then Ok false else Ok true)
        else Ok true
    end
  else Ok true.

Definition _get_media_meta (media_obj : MediaObj) (_type : string)
    : result (string * option string) :=
  rbind (if Py.one_of _type format_restricted
         then rbind (mime_subtype media_obj) (fun f => Ok (Some f))
         else Ok None) (fun file_format =>
  if Py.one_of _type timestamp_named then
    rbind (mime_subtype media_obj) (fun file_format =>
    match date media_obj with
    | None => Raise AttributeError
    | Some iso =>
        Ok (Py.path_join THIS_DIR
              [_type; _type +:+ "_" +:+ iso +:+ "." +:+ file_format],
            Some file_format)
    end)
  else
    Ok (Py.path_join THIS_DIR [_type; default "" (file_name media_obj)],
        file_format)).

End Pure.

(** ** Messages, configuration and the world *)

(** A [pyrogram.types.Message]: [media] is the message's media kind
    ([None] when it carries none) and [attachments] maps an attribute name
    ([audio], [photo], ...) to the media object stored under it, so that
    [getattr(message, _type, None)] is [attachments message !! _type]. *)
Record Message : Type := {
  id : Z;
  chat : Z;
  media : option string;
  attachments : gmap string MediaObj
}.

(** The keys of the configuration dictionary that the module reads or
    writes. *)
Record Config : Type := {
  chat_id : Z;
  last_read_message_id : Z;
  ids_to_retry : list Z;
  media_types : list string;
  file_formats : gmap string (list string)
}.

Definition set_ids_to_retry (config : Config) (ids : list Z) : Config :=
  {| chat_id := chat_id config;
     last_read_message_id := last_read_message_id config;
     ids_to_retry := ids;
     media_types := media_types config;
     file_formats := file_formats config |}.

Definition set_last_read_message_id (config : Config) (v : Z) : Config :=
  {| chat_id := chat_id config;
     last_read_message_id := v;
     ids_to_retry := ids_to_retry config;
     media_types := media_types config;
     file_formats := file_formats config |}.

(** What the module does, newest event first.  [EvAttempt] and
    [EvDispatch] are ghost events: the first marks the entry into the [try]
    block of one pass of the retry loop, the second a call of
    [process_messages] with the ids of its batch.  [EvDownload] records a
    call of [client.download_media] and its outcome; [renamed] tells the
    call site (the branch taken after [get_next_name], or the plain one).
    [EvDedup] is a call of [manage_duplicate_file], [EvRefetch] a call of
    [client.get_messages] from the handler of [BadRequest], [EvSleep] a
    call of [asyncio.sleep] and [EvWrite] a dump of the configuration to
    its file.  Calls of [logger] are left out. *)
Inductive Event : Type :=
  | EvAttempt (message_id : Z) (retry : nat)
  | EvDownload (renamed : bool) (message_id : Z) (target : string)
               (outcome : result (option string))
  | EvDedup (path : option string)
  | EvRefetch (message_id : Z)
  | EvSleep (seconds : Z)
  | EvDispatch (batch : list Z)
  | EvWrite (config : Config).

(** The collaborators of the module, over an abstract outside state [Σ]
    (the remote chat and the local file system).  [client_get_message] is
    [client.get_messages] asked for one id, as the handler of [BadRequest]
    calls it: like the download primitive it may raise.
    [client_get_messages] is the same asked for a list of ids, and
    [client_get_chat_history] the history read to its end; both are called
    by [begin_import] outside any handler and are modelled for a client
    that answers them, so what is proved of [begin_import] and [main] is
    proved of the runs in which these two calls return.
    [get_next_name] and [manage_duplicate_file] live in
    [utils.file_management]; they are taken as given. *)
Record Outside (Σ : Type) : Type := {
  this_dir : string;
  client_download_media : Message -> string -> Σ -> result (option string) * Σ;
  client_get_message : Z -> Z -> Σ -> result Message * Σ;
  client_get_messages : Z -> list Z -> Σ -> list Message * Σ;
  client_get_chat_history : Z -> Z -> Σ -> list Message * Σ;
  os_path_isdir : string -> Σ -> bool;
  os_path_exists : string -> Σ -> bool;
  get_next_name : string -> Σ -> string;
  manage_duplicate_file : option string -> Σ -> result (option string) * Σ
}.
Arguments this_dir {Σ} _.
Arguments client_download_media {Σ} _ _ _ _.
Arguments client_get_message {Σ} _ _ _ _.
Arguments client_get_messages {Σ} _ _ _ _.
Arguments client_get_chat_history {Σ} _ _ _ _.
Arguments os_path_isdir {Σ} _ _ _.
Arguments os_path_exists {Σ} _ _ _.
Arguments get_next_name {Σ} _ _ _.
Arguments manage_duplicate_file {Σ} _ _ _.

(** The module's globals [DOWNLOADED_IDS] and [FAILED_IDS], the outside
    state and the event trace. *)
Record World (Σ : Type) : Type := {
  ext : Σ;
  DOWNLOADED_IDS : list Z;
  FAILED_IDS : list Z;
  trace : list Event
}.
Arguments ext {Σ} _.
Arguments DOWNLOADED_IDS {Σ} _.
Arguments FAILED_IDS {Σ} _.
Arguments trace {Σ} _.
Arguments Build_World {Σ} _ _ _ _.

(** The state in which the module is imported: both lists empty. *)
Definition initial_world {Σ} (σ : Σ) : World Σ :=
  Build_World σ [] [] [].

(** ** The monad: world passing with exceptions *)

Definition M (Σ A : Type) : Type := World Σ -> result A * World Σ.

Definition ret {Σ A} (a : A) : M Σ A := fun w => (Ok a, w).

Definition bind {Σ A B} (c : M Σ A) (k : A -> M Σ B) : M Σ B :=
  fun w =>
    match c w with
    | (Ok a, w') => k a w'
    | (Raise e, w') => (Raise e, w')
    end.

(** [try: body except ...: handler] *)
Definition try_except {Σ A} (body : M Σ A) (handler : exn -> M Σ A) : M Σ A :=
  fun w =>
    match body w with
    | (Ok a, w') => (Ok a, w')
    | (Raise e, w') => handler e w'
    end.

Definition lift {Σ A} (r : result A) : M Σ A := fun w => (r, w).

Declare Scope m_scope.
Delimit Scope m_scope with M.
Notation "x <- c ;; k" := (bind c (fun x => k))
  (at level 100, c at next level, right associativity) : m_scope.
Notation "c ;; k" := (bind c (fun _ => k))
  (at level 100, right associativity) : m_scope.

Definition emit {Σ} (ev : Event) : M Σ unit :=
  fun w => (Ok tt, Build_World (ext w) (DOWNLOADED_IDS w) (FAILED_IDS w)
                     (ev :: trace w)).

(** [DOWNLOADED_IDS.append(i)] and [FAILED_IDS.append(i)] *)
Definition append_downloaded {Σ} (i : Z) : M Σ unit :=
  fun w => (Ok tt, Build_World (ext w) (DOWNLOADED_IDS w ++ [i]) (FAILED_IDS w)
                     (trace w)).

Definition append_failed {Σ} (i : Z) : M Σ unit :=
  fun w => (Ok tt, Build_World (ext w) (DOWNLOADED_IDS w) (FAILED_IDS w ++ [i])
                     (trace w)).

(** A call that reads the outside state. *)
Definition ask {Σ A} (f : Σ -> A) : M Σ A := fun w => (Ok (f (ext w)), w).

(** A call that may change the outside state. *)
Definition call {Σ A} (f : Σ -> A * Σ) : M Σ A :=
  fun w =>
    let '(a, σ) := f (ext w) in
    (Ok a, Build_World σ (DOWNLOADED_IDS w) (FAILED_IDS w) (trace w)).

(** ** The module's effectful functions *)

Section Module.

Context {Σ : Type} (out : Outside Σ).

Local Open Scope m_scope.

(** [not os.path.isdir(file_path) and os.path.exists(file_path)] *)
Definition _is_exist (file_path : string) : M Σ bool :=
  ask (fun σ => negb (os_path_isdir out file_path σ)
                && os_path_exists out file_path σ).

(** [await client.download_media(message, file_name=file_name)], with the
    call and its outcome put on the trace. *)
Definition download_call (renamed : bool) (message : Message)
    (file_name : string) : M Σ (option string) :=
  r <- call (client_download_media out message file_name) ;;
  emit (EvDownload renamed (id message) file_name r) ;;
  lift r.

Definition dedup_call (download_path : option string) : M Σ (option string) :=
  emit (EvDedup download_path) ;;
  r <- call (manage_duplicate_file out download_path) ;;
  lift r.

(** The body of [for _type in media_types] for one [_type] whose
    attribute [_media] is not [None] (lines 180-195). *)
Definition download_type (message : Message) (file_formats : gmap string (list string))
    (_type : string) (_media : MediaObj) : M Σ unit :=
  meta <- lift (_get_media_meta (this_dir out) _media _type) ;;
  let '(file_name, file_format) := meta in
  allowed <- lift (_can_download _type file_formats file_format) ;;
  if allowed : bool then
    exists_ <- _is_exist file_name ;;
    (if exists_ : bool then
       file_name <- ask (get_next_name out file_name) ;;
       download_path <- download_call true message file_name ;;
       dedup_call download_path
     else
       download_call false message file_name) ;;
    append_downloaded (id message)
  else ret tt.

(** [for _type in media_types: ...] (lines 176-195) *)
Fixpoint for_types (message : Message) (file_formats : gmap string (list string))
    (media_types : list string) : M Σ unit :=
  match media_types with
  | [] => ret tt
  | _type :: rest =>
      match attachments message !! _type with
      | None => for_types message file_formats rest
      | Some _media =>
          download_type message file_formats _type _media ;;
          for_types message file_formats rest
      end
  end.

(** How one pass of [for retry in range(3)] leaves the loop body. *)
Inductive Exit : Type :=
  | Return (v : Z)
  | Break
  | Continue (message : Message).

(** One pass of the retry loop: the [try] block and its three handlers
    (lines 173-235).  The handler of [BadRequest] rebinds [message]; when
    the re-fetch raises, the error arises inside the handler, where no
    [except] clause applies to it, and leaves [download_media]. *)
Definition attempt (message : Message) (media_types : list string)
    (file_formats : gmap string (list string)) (retry : nat) : M Σ Exit :=
  emit (EvAttempt (id message) retry) ;;
  try_except
    (match media message with
     | None => ret (Return (id message))
     | Some _ => for_types message file_formats media_types ;; ret Break
     end)
    (fun e =>
       match e with
       | BadRequest =>
           emit (EvRefetch (id message)) ;;
           refetched <- call (client_get_message out (chat message) (id message)) ;;
           message <- lift refetched ;;
           (if Nat.eqb retry 2 then append_failed (id message) else ret tt) ;;
           ret (Continue message)
       | TypeError =>
           emit (EvSleep 5) ;;
           (if Nat.eqb retry 2 then append_failed (id message) else ret tt) ;;
           ret (Continue message)
       | _ =>
           append_failed (id message) ;;
           ret Break
       end).

(** [for retry in retries: ...] followed by [return message.id]. *)
Fixpoint retry_loop (message : Message) (media_types : list string)
    (file_formats : gmap string (list string)) (retries : list nat) : M Σ Z :=
  match retries with
  | [] => ret (id message)
  | retry :: rest =>
      exit <- attempt message media_types file_formats retry ;;
      match exit with
      | Return v => ret v
      | Break => ret (id message)
      | Continue message => retry_loop message media_types file_formats rest
      end
  end.

Definition download_media (message : Message) (media_types : list string)
    (file_formats : gmap string (list string)) : M Σ Z :=
  retry_loop message media_types file_formats (seq 0 3).

(** [asyncio.gather] over [download_media(...)] for every message of the
    batch: the coroutines are run one after the other, in the order of the
    batch. *)
Fixpoint gather (messages : list Message) (media_types : list string)
    (file_formats : gmap string (list string)) : M Σ (list Z) :=
  match messages with
  | [] => ret []
  | message :: rest =>
      i <- download_media message media_types file_formats ;;
      ids <- gather rest media_types file_formats ;;
      ret (i :: ids)
  end.

Definition process_messages (messages : list Message) (media_types : list string)
    (file_formats : gmap string (list string)) : M Σ Z :=
  emit (EvDispatch (map id messages)) ;;
  message_ids <- gather messages media_types file_formats ;;
  lift (Py.max message_ids).

(** [list(set(config["ids_to_retry"]) - set(DOWNLOADED_IDS)) + FAILED_IDS];
    the order in which Python lists a set is left to [elements]. *)
Definition reconcile (ids_to_retry DOWNLOADED_IDS FAILED_IDS : list Z) : list Z :=
  elements ((list_to_set ids_to_retry : gset Z) ∖ list_to_set DOWNLOADED_IDS)
  ++ FAILED_IDS.

(** [update_config]: the dictionary is updated in place and dumped to the
    configuration file. *)
Definition update_config (config : Config) : M Σ Config :=
  fun w =>
    let config :=
      set_ids_to_retry config
        (reconcile (ids_to_retry config) (DOWNLOADED_IDS w) (FAILED_IDS w)) in
    (emit (EvWrite config) ;; ret config) w.

(** The local variables of [begin_import] that the pagination loop
    updates. *)
Record Page : Type := {
  config : Config;
  last_read : Z;
  messages_list : list Message;
  pagination_count : Z
}.

(** [for message in skipped_messages: pagination_count += 1;
    messages_list.append(message)] *)
Definition seed (page : Page) (skipped_messages : list Message) : Page :=
  foldl (fun page message =>
           {| config := config page;
              last_read := last_read page;
              messages_list := messages_list page ++ [message];
              pagination_count := (pagination_count page + 1)%Z |})
        page skipped_messages.

(** One turn of [async for message in messages_iter] (lines 324-338). *)
Definition paginate_step (pagination_limit : Z) (page : Page) (message : Message)
    : M Σ Page :=
  if negb (pagination_count page =? pagination_limit)%Z then
    ret {| config := config page;
           last_read := last_read page;
           messages_list := messages_list page ++ [message];
           pagination_count := (pagination_count page + 1)%Z |}
  else
    last_read_message_id <-
      process_messages (messages_list page) (media_types (config page))
        (file_formats (config page)) ;;
    config <- update_config
                (set_last_read_message_id (config page) last_read_message_id) ;;
    ret {| config := config;
           last_read := last_read_message_id;
           messages_list := [message];
           pagination_count := 0 |}.

Fixpoint paginate (pagination_limit : Z) (page : Page) (messages_iter : list Message)
    : M Σ Page :=
  match messages_iter with
  | [] => ret page
  | message :: rest =>
      page <- paginate_step pagination_limit page message ;;
      paginate pagination_limit page rest
  end.

(** [begin_import]; the history iterator is read when the loop starts,
    after the messages of the retry backlog have been fetched. *)
Definition begin_import (config0 : Config) (pagination_limit : Z) : M Σ Config :=
  let page := {| config := config0;
                 last_read := last_read_message_id config0;
                 messages_list := [];
                 pagination_count := 0 |} in
  page <- (match ids_to_retry config0 with
           | [] => ret page
           | _ :: _ =>
               skipped_messages <-
                 call (client_get_messages out (chat_id config0) (ids_to_retry config0)) ;;
               ret (seed page skipped_messages)
           end) ;;
  messages_iter <-
    call (client_get_chat_history out (chat_id config0) (last_read_message_id config0)) ;;
  page <- paginate pagination_limit page messages_iter ;;
  last_read_message_id <-
    (match messages_list page with
     | [] => ret (last_read page)
     | _ :: _ =>
         process_messages (messages_list page) (media_types (config page))
           (file_formats (config page))
     end) ;;
  ret (set_last_read_message_id (config page) last_read_message_id).

(** [main], from the loaded configuration on:
    [begin_import(config, pagination_limit=100)], then [update_config]. *)
Definition main (config0 : Config) : M Σ Config :=
  updated_config <- begin_import config0 100 ;;
  update_config updated_config.

End Module.

(** ** A scripted outside, for running the module on concrete inputs *)

Module Sim.

(** The outside state of a simulated run: the outcomes the download
    primitive will give, call after call (a finished script means the
    download succeeds under the requested name), the files on disk, and
    the messages the chat serves by id and as its history. *)
Record State : Type := {
  script : list (result (option string));
  files : list string;
  by_id : list Message;
  history : list Message
}.

Definition with_download (σ : State) (rest : list (result (option string)))
    (r : result (option string)) : State :=
  {| script := rest;
     files := match r with
              | Ok (Some path) => files σ ++ [path]
              | _ => files σ
              end;
     by_id := by_id σ;
     history := history σ |}.

Definition empty_message (chat_id i : Z) : Message :=
  {| id := i; chat := chat_id; media := None; attachments := ∅ |}.

Definition find_message (σ : State) (chat_id i : Z) : Message :=
  match List.find (fun m => (id m =? i)%Z) (by_id σ) with
  | Some m => m
  | None => empty_message chat_id i
  end.

Definition outside : Outside State :=
  {| this_dir := "/app";
     client_download_media := fun _ file_name σ =>
       match script σ with
       | [] => (Ok (Some file_name), with_download σ [] (Ok (Some file_name)))
       | r :: rest => (r, with_download σ rest r)
       end;
     client_get_message := fun chat_id i σ => (Ok (find_message σ chat_id i), σ);
     client_get_messages := fun chat_id ids σ =>
       (map (find_message σ chat_id) ids, σ);
     client_get_chat_history := fun _ _ σ => (history σ, σ);
     os_path_isdir := fun _ _ => false;
     os_path_exists := fun path σ => bool_decide (path ∈ files σ);
     get_next_name := fun path _ => path +:+ ".1";
     manage_duplicate_file := fun path σ => (Ok path, σ) |}.

Definition photo_message (i : Z) (name : string) : Message :=
  {| id := i; chat := 1; media := Some "photo";
     attachments := {[ "photo" := {| mime_type := None;
                                      file_name := Some name;
                                      date := None |} ]} |}.

Definition start (script : list (result (option string))) (files : list string)
    (by_id history : list Message) : World State :=
  initial_world {| script := script; files := files;
                   by_id := by_id; history := history |}.

Definition a_config (last_read : Z) (ids_to_retry : list Z) : Config :=
  {| chat_id := 1;
     last_read_message_id := last_read;
     ids_to_retry := ids_to_retry;
     media_types := ["photo"];
     file_formats := {[ "audio" := ["all"]; "document" := ["pdf"];
                        "video" := ["mp4"] ]} |}.

End Sim.

(** ** Reading a trace *)

Definition is_attempt (ev : Event) : bool :=
  match ev with EvAttempt _ _ => true | _ => false end.

Definition is_download (ev : Event) : bool :=
  match ev with EvDownload _ _ _ _ => true | _ => false end.

Definition is_dedup (ev : Event) : bool :=
  match ev with EvDedup _ => true | _ => false end.

(** A download that succeeded at the call site after [get_next_name]. *)
Definition is_renamed_success (ev : Event) : bool :=
  match ev with EvDownload true _ _ (Ok _) => true | _ => false end.

Definition is_success (ev : Event) : bool :=
  match ev with EvDownload _ _ _ (Ok _) => true | _ => false end.

(** Neither the expired-reference class nor the timeout class. *)
Definition unclassified (e : exn) : bool :=
  match e with BadRequest | TypeError => false | _ => true end.

Definition is_fatal (ev : Event) : bool :=
  match ev with
  | EvDownload _ _ _ (Raise e) => unclassified e
  | _ => false
  end.

Fixpoint count (p : Event -> bool) (tr : list Event) : nat :=
  match tr with
  | [] => 0
  | ev :: rest => (if p ev then 1 else 0) + count p rest
  end.

(** The batches handed to [process_messages], oldest first. *)
Definition dispatched (tr : list Event) : list (list Z) :=
  rev (omap (fun ev => match ev with EvDispatch batch => Some batch | _ => None end)
            tr).

(** The positions written to the configuration file, newest first. *)
Definition written (tr : list Event) : list Z :=
  omap (fun ev => match ev with
                  | EvWrite config => Some (last_read_message_id config)
                  | _ => None
                  end) tr.

(** The attributes of [message] that one pass over [media_types] reads
    and finds present. *)
Definition carried (message : Message) (media_types : list string) : list string :=
  List.filter (fun _type => bool_decide (is_Some (attachments message !! _type)))
              media_types.

(** ** Vocabulary of the specifications *)

(** The client answers every request for one message: the re-fetch
    returns. *)
Definition refetch_returns {Σ} (out : Outside Σ) : Prop :=
  forall chat_id i σ, is_ok (fst (client_get_message out chat_id i σ)) = true.

(** The client answers a request for one message with a message of the
    requested id. *)
Definition refetch_keeps_id {Σ} (out : Outside Σ) : Prop :=
  forall chat_id i σ,
    exists m, fst (client_get_message out chat_id i σ) = Ok m /\ id m = i.

(** The messages a call of [download_media] on [message] may work on:
    [message] itself and whatever the client serves on a re-fetch. *)
Definition served {Σ} (out : Outside Σ) (message m : Message) : Prop :=
  m = message \/ exists chat_id i σ, fst (client_get_message out chat_id i σ) = Ok m.

(** Predicates on events that are blind to downloads and dedup steps,
    and to everything else one pass of the retry loop can put on the
    trace. *)
Definition ignores_transfers (p : Event -> bool) : Prop :=
  (forall b i target r, p (EvDownload b i target r) = false)
  /\ (forall path, p (EvDedup path) = false).

Definition ignores_passes (p : Event -> bool) : Prop :=
  ignores_transfers p
  /\ (forall i n, p (EvAttempt i n) = false)
  /\ (forall i, p (EvRefetch i) = false)
  /\ (forall s, p (EvSleep s) = false).

Definition is_write (ev : Event) : bool :=
  match ev with EvWrite _ => true | _ => false end.

Definition is_dispatch (ev : Event) : bool :=
  match ev with EvDispatch _ => true | _ => false end.

Section Vocabulary.

Context {Σ : Type}.

Definition same_filtered (p : Event -> bool) (w w' : World Σ) : Prop :=
  List.filter p (trace w') = List.filter p (trace w).

(** Between [w] and [w'] there are as many dedup steps as downloads that
    succeeded after a renaming. *)
Definition dedup_balance (w w' : World Σ) : Prop :=
  count is_dedup (trace w') + count is_renamed_success (trace w)
  = count is_dedup (trace w) + count is_renamed_success (trace w').

(** [DOWNLOADED_IDS] has grown by copies of [i] only. *)
Definition downloaded_grows (i : Z) (w w' : World Σ) : Prop :=
  exists k, DOWNLOADED_IDS w' = DOWNLOADED_IDS w ++ replicate k i.

(** Either no download has raised an unclassified error between [w] and
    [w'], or exactly one has: it is the newest event, it is about message
    [i], and its error is the outcome [r]. *)
Definition fatal_step {A} (i : Z) (w : World Σ) (r : result A) (w' : World Σ) : Prop :=
  count is_fatal (trace w') = count is_fatal (trace w)
  \/ exists b target e,
       r = Raise e /\ unclassified e = true
       /\ head (trace w') = Some (EvDownload b i target (Raise e))
       /\ count is_fatal (trace w') = S (count is_fatal (trace w)).

(** What the [try] block of one pass does to the world: at most [n]
    downloads, nothing recorded as failed. *)
Definition body_spec (message : Message) (n : nat) (w : World Σ) (r : result unit)
    (w' : World Σ) : Prop :=
  FAILED_IDS w' = FAILED_IDS w
  /\ downloaded_grows (id message) w w'
  /\ (forall p, ignores_transfers p -> same_filtered p w w')
  /\ count is_download (trace w') <= count is_download (trace w) + n
  /\ dedup_balance w w'
  /\ fatal_step (id message) w r w'.

(** What one pass of the retry loop does, by the way it leaves the loop
    body. *)
Definition pass_spec (out : Outside Σ) (message : Message) (media_types : list string)
    (retry : nat) (w : World Σ) (r : result Exit) (w' : World Σ) : Prop :=
  (forall p, ignores_passes p -> same_filtered p w w')
  /\ count is_attempt (trace w') = S (count is_attempt (trace w))
  /\ count is_download (trace w')
     <= count is_download (trace w) + length (carried message media_types)
  /\ dedup_balance w w'
  /\ downloaded_grows (id message) w w'
  /\ match r with
     | Raise e =>
         (exists chat_id i σ, fst (client_get_message out chat_id i σ) = Raise e)
         /\ count is_fatal (trace w') = count is_fatal (trace w)
         /\ FAILED_IDS w' = FAILED_IDS w
     | Ok (Return v) =>
         v = id message /\ media message = None
         /\ w' = Build_World (ext w) (DOWNLOADED_IDS w) (FAILED_IDS w)
                   (EvAttempt (id message) retry :: trace w)
     | Ok Break =>
         (count is_fatal (trace w') = count is_fatal (trace w)
          /\ (FAILED_IDS w' = FAILED_IDS w
              \/ FAILED_IDS w' = FAILED_IDS w ++ [id message]))
         \/ (exists b target e,
               unclassified e = true
               /\ head (trace w') = Some (EvDownload b (id message) target (Raise e))
               /\ count is_fatal (trace w') = S (count is_fatal (trace w))
               /\ FAILED_IDS w' = FAILED_IDS w ++ [id message])
     | Ok (Continue m) =>
         served out message m
         /\ (refetch_keeps_id out -> id m = id message)
         /\ count is_fatal (trace w') = count is_fatal (trace w)
         /\ FAILED_IDS w' = FAILED_IDS w ++ (if Nat.eqb retry 2 then [id m] else [])
     end.

(** What any number of calls of [download_media] leaves alone: events
    that are none of its own, the balance of dedup steps, and what the two
    global lists already hold. *)
Definition frame (w w' : World Σ) : Prop :=
  (forall p, ignores_passes p -> same_filtered p w w')
  /\ dedup_balance w w'
  /\ DOWNLOADED_IDS w `prefix_of` DOWNLOADED_IDS w'
  /\ FAILED_IDS w `prefix_of` FAILED_IDS w'.

(** The messages one run of [begin_import] sees: those of the retry
    backlog, fetched by id, then the history. *)
Definition backlog_messages (out : Outside Σ) (config0 : Config) (σ : Σ) : list Message :=
  match ids_to_retry config0 with
  | [] => []
  | _ :: _ => fst (client_get_messages out (chat_id config0) (ids_to_retry config0) σ)
  end.

Definition after_backlog (out : Outside Σ) (config0 : Config) (σ : Σ) : Σ :=
  match ids_to_retry config0 with
  | [] => σ
  | _ :: _ => snd (client_get_messages out (chat_id config0) (ids_to_retry config0) σ)
  end.

Definition history_messages (out : Outside Σ) (config0 : Config) (σ : Σ) : list Message :=
  fst (client_get_chat_history out (chat_id config0) (last_read_message_id config0)
         (after_backlog out config0 σ)).

Definition seen_ids (out : Outside Σ) (config0 : Config) (σ : Σ) : list Z :=
  map id (backlog_messages out config0 σ) ++ map id (history_messages out config0 σ).


(** The sizes of the batches handed over before the final one: the
    first has [pagination_limit] messages, every later one has one more. *)
Definition batch_sizes (pagination_limit : Z) (batches : list (list Z)) : Prop :=
  match batches with
  | [] => True
  | first :: later =>
      Z.of_nat (length first) = pagination_limit
      /\ Forall (fun batch => Z.of_nat (length batch) = (pagination_limit + 1)%Z) later
  end.

(** The counter against the buffer: equal until the first checkpoint,
    one behind from then on. *)
Definition page_shape (pagination_limit : Z) (page : Page) (w : World Σ) : Prop :=
  (dispatched (trace w) = []
   /\ pagination_count page = Z.of_nat (length (messages_list page)))
  \/ (dispatched (trace w) <> []
      /\ batch_sizes pagination_limit (dispatched (trace w))
      /\ Z.of_nat (length (messages_list page)) = (pagination_count page + 1)%Z
      /\ (0 <= pagination_count page <= pagination_limit)%Z).

(** The backlog of the configuration in the loop against the backlog
    [ids0] the run started with and the two global lists. *)
Definition backlog_inv (ids0 : list Z) (page : Page) (w : World Σ) : Prop :=
  (0 <= pagination_count page <= Z.of_nat (length (messages_list page)))%Z
  /\ (forall i, i ∈ ids_to_retry (config page) -> i ∈ ids0 \/ i ∈ FAILED_IDS w)
  /\ (forall i, i ∈ ids0 -> i ∈ ids_to_retry (config page) \/ i ∈ DOWNLOADED_IDS w).

End Vocabulary.

(** The positions a run leaves behind, oldest first: those written to the
    configuration file at the checkpoints, then the one returned. *)
Definition positions (config' : Config) (tr : list Event) : list Z :=
  reverse (written tr) ++ [last_read_message_id config'].

(** A pause between two passes of the retry loop: the message fetched
    again after [BadRequest], or the sleep after [TypeError]. *)
Definition is_pause (ev : Event) : bool :=
  match ev with EvRefetch _ | EvSleep _ => true | _ => false end.

(** The seconds spent in [asyncio.sleep]. *)
Fixpoint slept (tr : list Event) : Z :=
  match tr with
  | [] => 0
  | EvSleep seconds :: rest => seconds + slept rest
  | _ :: rest => slept rest
  end.

(** ** The configuration files of a session *)

(** The second argument of [clean_configs]: one name ([str]) or a list of
    names. *)
Inductive ExitConfig : Type :=
  | ExitName (name : string)
  | ExitNames (names : list string).

(** [clean_configs] (lines 389-396).  With one name the list is changed
    in place by [configs.remove] and returned; with a list of names a new
    list is built. *)
Definition clean_configs (configs : list string) (exit_config : ExitConfig)
    : result (list string) :=
  match exit_config with
  | ExitName exit_config =>
      let exit_config := exit_config +:+ ".yaml" in
      Py.list_remove exit_config configs
  | ExitNames exit_config =>
      let exit_config :=
        map (fun each => each +:+ ".yaml")
            (List.filter (fun each => negb (Py.endswith each ".yaml")) exit_config) in
      Ok (List.filter (fun each => negb (bool_decide (each ∈ exit_config))) configs)
  end.

(** The name of the file that [main] opens under [THIS_DIR/config]
    (lines 402-403). *)
Definition config_file_name (config_name : string) : string :=
  if negb (Py.endswith config_name ".yaml") then config_name +:+ ".yaml"
  else config_name.

(** ** Moving the downloads to the archive: [move_files] *)

(** The calls [move_files] makes on [pathlib] paths, each with its answer
    or outcome, newest first in a trace.  [P] is the type of paths. *)
Inductive FsEvent (P : Type) : Type :=
  | FsExists (path : P) (answer : result bool)
  | FsIsFile (path : P) (answer : result bool)
  | FsIterdir (path : P) (entries : result (list P))
  | FsMkdir (path : P) (outcome : result unit)
  | FsRename (old new : P) (outcome : result unit)
  | FsUnlink (path : P) (outcome : result unit).
Arguments FsExists {P} _ _.
Arguments FsIsFile {P} _ _.
Arguments FsIterdir {P} _ _.
Arguments FsMkdir {P} _ _.
Arguments FsRename {P} _ _ _.
Arguments FsUnlink {P} _ _.

(** [pathlib] and the file system behind it, over paths [P] and an
    abstract disk state [Φ].  [to_path] is the constructor [Path(_)];
    [path_mkdir] is [mkdir(parents=True, exist_ok=True)], [path_unlink] is
    [unlink(missing_ok=True)]; [path_iterdir] lists the directory when the
    loop over it starts.  Every call may raise. *)
Record Disk (P Φ : Type) : Type := {
  disk_this_dir : string;
  to_path : string -> P;
  joinpath : P -> string -> P;
  path_name : P -> string;
  path_exists : P -> Φ -> result bool;
  path_is_file : P -> Φ -> result bool;
  path_iterdir : P -> Φ -> result (list P);
  path_mkdir : P -> Φ -> result unit * Φ;
  path_rename : P -> P -> Φ -> result unit * Φ;
  path_unlink : P -> Φ -> result unit * Φ
}.
Arguments disk_this_dir {P Φ} _.
Arguments to_path {P Φ} _ _.
Arguments joinpath {P Φ} _ _ _.
Arguments path_name {P Φ} _ _.
Arguments path_exists {P Φ} _ _ _.
Arguments path_is_file {P Φ} _ _ _.
Arguments path_iterdir {P Φ} _ _ _.
Arguments path_mkdir {P Φ} _ _ _.
Arguments path_rename {P Φ} _ _ _ _.
Arguments path_unlink {P Φ} _ _ _.

(** The disk and the calls made on it so far. *)
Record Shelf (P Φ : Type) : Type := {
  disk_state : Φ;
  calls : list (FsEvent P)
}.
Arguments disk_state {P Φ} _.
Arguments calls {P Φ} _.
Arguments Build_Shelf {P Φ} _ _.

Definition F (P Φ A : Type) : Type := Shelf P Φ -> result A * Shelf P Φ.

Definition fret {P Φ A} (a : A) : F P Φ A := fun s => (Ok a, s).

Definition fbind {P Φ A B} (c : F P Φ A) (k : A -> F P Φ B) : F P Φ B :=
  fun s =>
    match c s with
    | (Ok a, s') => k a s'
    | (Raise e, s') => (Raise e, s')
    end.

Definition flift {P Φ A} (r : result A) : F P Φ A := fun s => (r, s).

Declare Scope f_scope.
Delimit Scope f_scope with F.
Notation "x <- c ;; k" := (fbind c (fun x => k))
  (at level 100, c at next level, right associativity) : f_scope.
Notation "c ;; k" := (fbind c (fun _ => k))
  (at level 100, right associativity) : f_scope.

(** A call that reads the disk, and a call that may change it. *)
Definition query {P Φ A} (f : Φ -> result A) (ev : result A -> FsEvent P) : F P Φ A :=
  fun s =>
    let r := f (disk_state s) in
    (r, Build_Shelf (disk_state s) (ev r :: calls s)).

Definition command {P Φ} (f : Φ -> result unit * Φ) (ev : result unit -> FsEvent P)
    : F P Φ unit :=
  fun s =>
    let '(r, φ) := f (disk_state s) in
    (r, Build_Shelf φ (ev r :: calls s)).

(** [str(v)] of a value read with [config.get]: an absent key prints as
    [None]. *)
Definition py_str (v : option string) : string := default "None" v.

Section Shelving.

Context {P Φ : Type} (disk : Disk P Φ).

Local Open Scope f_scope.

(** [[each for each in download_path if each.exists()]] *)
Fixpoint existing (download_path : list P) : F P Φ (list P) :=
  match download_path with
  | [] => fret []
  | each :: rest =>
      there <- query (path_exists disk each) (FsExists each) ;;
      rest <- existing rest ;;
      fret (if there : bool then each :: rest else rest)
  end.

(** The body of [for old_file_path in d_path.iterdir()] (lines 369-377). *)
Definition move_entry (s_path old_file_path : P) : F P Φ unit :=
  is_file <- query (path_is_file disk old_file_path) (FsIsFile old_file_path) ;;
  if is_file : bool then
    let new_file_path := joinpath disk s_path (path_name disk old_file_path) in
    taken <- query (path_exists disk new_file_path) (FsExists new_file_path) ;;
    (if negb taken then
       command (path_rename disk old_file_path new_file_path)
               (FsRename old_file_path new_file_path)
     else fret tt) ;;
    command (path_unlink disk old_file_path) (FsUnlink old_file_path)
  else fret tt.

Fixpoint for_entries (s_path : P) (entries : list P) : F P Φ unit :=
  match entries with
  | [] => fret tt
  | old_file_path :: rest =>
      move_entry s_path old_file_path ;;
      for_entries s_path rest
  end.

(** The body of [for d_path, s_path in zip(download_path, save_path)]
    (lines 364-377). *)
Definition move_pair (d_path s_path : P) : F P Φ unit :=
  there <- query (path_exists disk s_path) (FsExists s_path) ;;
  (if negb there then command (path_mkdir disk s_path) (FsMkdir s_path)
   else fret tt) ;;
  entries <- query (path_iterdir disk d_path) (FsIterdir d_path) ;;
  for_entries s_path entries.

Fixpoint for_pairs (pairs : list (P * P)) : F P Φ unit :=
  match pairs with
  | [] => fret tt
  | (d_path, s_path) :: rest =>
      move_pair d_path s_path ;;
      for_pairs rest
  end.

(** [Path(config.get('save_path')).joinpath(str(config.get('config_name')))];
    [Path(None)] is a [TypeError]. *)
Definition base_save_path (save_path config_name : option string) : result P :=
  match save_path with
  | None => Raise TypeError
  | Some save_path => Ok (joinpath disk (to_path disk save_path) (py_str config_name))
  end.

(** [move_files], on the three keys of [config] that it reads. *)
Definition move_files (media_types : list string) (save_path config_name : option string)
    : F P Φ unit :=
  let this_dir := to_path disk (disk_this_dir disk) in
  let download_path := map (joinpath disk this_dir) media_types in
  download_path <- existing download_path ;;
  base_save_path <- flift (base_save_path save_path config_name) ;;
  let save_path :=
    map (fun each => joinpath disk base_save_path (path_name disk each)) download_path in
  for_pairs (zip download_path save_path).

End Shelving.

(** *** Reading the calls *)

Definition is_regular {P} (ev : FsEvent P) : bool :=
  match ev with FsIsFile _ (Ok true) => true | _ => false end.

Definition is_unlink {P} (ev : FsEvent P) : bool :=
  match ev with FsUnlink _ _ => true | _ => false end.

Definition is_rename {P} (ev : FsEvent P) : bool :=
  match ev with FsRename _ _ _ => true | _ => false end.

(** The calls that neither move nor remove anything. *)
Definition is_quiet {P} (ev : FsEvent P) : bool :=
  match ev with
  | FsExists _ _ | FsMkdir _ _ | FsIterdir _ _ => true
  | _ => false
  end.

Fixpoint fcount {P} (p : FsEvent P -> bool) (evs : list (FsEvent P)) : nat :=
  match evs with
  | [] => 0
  | ev :: rest => (if p ev then 1 else 0) + fcount p rest
  end.

(** Every [rename] comes right after an [exists] on its target that
    answered [False]. *)
Fixpoint guarded {P} (evs : list (FsEvent P)) : Prop :=
  match evs with
  | [] => True
  | FsRename _ new _ :: rest =>
      (exists older, rest = FsExists new (Ok false) :: older) /\ guarded rest
  | _ :: rest => guarded rest
  end.

(** [path] was listed as an entry of a directory and found to be a
    regular file. *)
Definition listed_file {P} (evs : list (FsEvent P)) (d_path path : P) : Prop :=
  (exists entries, FsIterdir d_path (Ok entries) ∈ evs /\ path ∈ entries)
  /\ FsIsFile path (Ok true) ∈ evs.

(** What the calls of one pass over the entries of a directory look
    like: renames are guarded, only entries found to be regular files are
    unlinked or renamed, an entry goes to [s_path] under its own name,
    nothing is listed or created, and on a normal return every regular
    file has been unlinked. *)
Definition block {P Φ} (disk : Disk P Φ) (s_path : P) (entries : list P)
    (r : result unit) (evs : list (FsEvent P)) : Prop :=
  guarded evs
  /\ (forall path o, FsUnlink path o ∈ evs ->
        path ∈ entries /\ FsIsFile path (Ok true) ∈ evs)
  /\ (forall old new o, FsRename old new o ∈ evs ->
        old ∈ entries /\ FsIsFile old (Ok true) ∈ evs
        /\ new = joinpath disk s_path (path_name disk old))
  /\ (forall ev, ev ∈ evs ->
        match ev with FsIterdir _ _ | FsMkdir _ _ => False | _ => True end)
  /\ fcount is_unlink evs <= fcount is_regular evs
  /\ fcount is_rename evs <= fcount is_regular evs
  /\ (r = Ok tt ->
      fcount is_unlink evs = fcount is_regular evs
      /\ forall path, FsIsFile path (Ok true) ∈ evs -> FsUnlink path (Ok tt) ∈ evs).

(** The same for a pass over pairs of a download directory and its
    place in the archive. *)
Definition shelved {P Φ} (disk : Disk P Φ) (pairs : list (P * P))
    (r : result unit) (evs : list (FsEvent P)) : Prop :=
  guarded evs
  /\ (forall path o, FsUnlink path o ∈ evs ->
        exists d_path s_path, (d_path, s_path) ∈ pairs /\ listed_file evs d_path path)
  /\ (forall old new o, FsRename old new o ∈ evs ->
        exists d_path s_path,
          (d_path, s_path) ∈ pairs /\ listed_file evs d_path old
          /\ new = joinpath disk s_path (path_name disk old))
  /\ (forall path o, FsMkdir path o ∈ evs -> exists d_path, (d_path, path) ∈ pairs)
  /\ (forall d_path entries, FsIterdir d_path entries ∈ evs ->
        exists s_path, (d_path, s_path) ∈ pairs)
  /\ fcount is_unlink evs <= fcount is_regular evs
  /\ fcount is_rename evs <= fcount is_regular evs
  /\ (r = Ok tt ->
      fcount is_unlink evs = fcount is_regular evs
      /\ forall path, FsIsFile path (Ok true) ∈ evs -> FsUnlink path (Ok tt) ∈ evs).

(** The pairs [move_files] works on when every requested download
    directory exists. *)
Definition archive_pairs {P Φ} (disk : Disk P Φ) (media_types : list string)
    (base : P) : list (P * P) :=
  map (fun media_type =>
         let d_path := joinpath disk (to_path disk (disk_this_dir disk)) media_type in
         (d_path, joinpath disk base (path_name disk d_path)))
      media_types.

(** A scripted disk for concrete runs: paths are strings, the state is
    the list of the paths that exist, each with its kind ([true] for a
    regular file); [children] lists a directory. *)
Module SimDisk.

Definition State : Type := list (string * bool).

Definition lookup (path : string) (φ : State) : option bool :=
  snd <$> List.find (fun entry => String.eqb (fst entry) path) φ.

Definition remove (path : string) (φ : State) : State :=
  List.filter (fun entry => negb (String.eqb (fst entry) path)) φ.

Definition base_name (path : string) : string :=
  match Py.index_last (Py.split "/" path) with
  | Ok name => name
  | Raise _ => path
  end.

Definition parent (path : string) : string :=
  String.substring 0 (String.length path - String.length (base_name path) - 1) path.

Definition disk : Disk string State :=
  {| disk_this_dir := "/app";
     to_path := fun s => s;
     joinpath := fun path name => path +:+ "/" +:+ name;
     path_name := base_name;
     path_exists := fun path φ => Ok (bool_decide (is_Some (lookup path φ)));
     path_is_file := fun path φ => Ok (bool_decide (lookup path φ = Some true));
     path_iterdir := fun path φ =>
       match lookup path φ with
       | Some false =>
           Ok (map fst (List.filter (fun entry => String.eqb (parent (fst entry)) path) φ))
       | _ => Raise OtherException
       end;
     path_mkdir := fun path φ => (Ok tt, φ ++ [(path, false)]);
     path_rename := fun old new φ =>
       match lookup old φ with
       | Some kind => (Ok tt, remove old φ ++ [(new, kind)])
       | None => (Raise OtherException, φ)
       end;
     path_unlink := fun path φ => (Ok tt, remove path φ) |}.

End SimDisk.

(** * Properties *)

(** ** The format filter *)

Lemma one_of_true (x : string) (names : list string) :
  Py.one_of x names = true <-> x ∈ names.
Proof. unfold Py.one_of. apply bool_decide_eq_true. Qed.

Lemma one_of_false (x : string) (names : list string) :
  Py.one_of x names = false <-> x ∉ names.
Proof. unfold Py.one_of. apply bool_decide_eq_false. Qed.

Lemma contains_true (x : option string) (l : list string) :
  Py.contains x l = true <-> exists f, x = Some f /\ f ∈ l.
Proof.
  destruct x as [s|]; simpl.
  - rewrite bool_decide_eq_true. split.
    + intros H. exists s. auto.
    + intros (f & Hf & Hin). congruence.
  - split; [discriminate | intros (f & Hf & _); discriminate].
Qed.

Lemma eqb_all (first : string) :
  String.eqb first "all" = true <-> first = "all".
Proof. apply String.eqb_eq. Qed.

(** [_can_download] on a restricted type whose allowlist is known. *)
Lemma can_download_restricted (_type : string) (file_formats : gmap string (list string))
    (file_format : option string) (allowed : list string) :
  _type ∈ format_restricted ->
  file_formats !! _type = Some allowed ->
  _can_download _type file_formats file_format =
    if Py.contains file_format allowed then Ok true
    else match allowed with
         | [] => Raise IndexError
         | first :: _ => Ok (String.eqb first "all")
         end.
Proof.
  intros Ht Hl. unfold _can_download.
  apply one_of_true in Ht. rewrite Ht, Hl.
  destruct (Py.contains file_format allowed); simpl; [reflexivity |].
  destruct allowed as [|first rest]; simpl; [reflexivity |].
  destruct (String.eqb first "all"); reflexivity.
Qed.

(** [_can_download] on every other type. *)
Lemma can_download_unrestricted (_type : string)
    (file_formats : gmap string (list string)) (file_format : option string) :
  _type ∉ format_restricted ->
  _can_download _type file_formats file_format = Ok true.
Proof.
  intros Ht. unfold _can_download. apply one_of_false in Ht. rewrite Ht.
  reflexivity.
Qed.

(** C2, as amended. On an audio, document or video item [_can_download]
    answers [True] exactly when the type has an allowlist and either the
    derived format occurs in it or the first entry of the allowlist is the
    sentinel ["all"] (the test the code makes: [allowed_formats[0]]); on
    every other type it answers [True] whatever the formats are. *)
Theorem can_download_accepts (_type : string)
    (file_formats : gmap string (list string)) (file_format : option string) :
  (_type ∈ format_restricted ->
   (_can_download _type file_formats file_format = Ok true <->
    exists allowed, file_formats !! _type = Some allowed /\
      ((exists f, file_format = Some f /\ f ∈ allowed) \/ head allowed = Some "all")))
  /\ (_type ∉ format_restricted ->
      _can_download _type file_formats file_format = Ok true).
Proof.
  split.
  - intros Ht. destruct (file_formats !! _type) as [allowed|] eqn:Hl.
    + rewrite (can_download_restricted _ _ _ allowed Ht Hl).
      destruct (Py.contains file_format allowed) eqn:Hc.
      * apply contains_true in Hc. split; [|reflexivity].
        intros _. exists allowed. auto.
      * assert (Hn : ~ exists f, file_format = Some f /\ f ∈ allowed).
        { intros H. apply contains_true in H. congruence. }
        destruct allowed as [|first rest]; simpl.
        -- split; [discriminate |].
           intros (a & Ha & [H | H]); inversion Ha; subst; [tauto | discriminate].
        -- split.
           ++ intros H. exists (first :: rest). split; [reflexivity |]. right.
              simpl. f_equal. apply eqb_all. congruence.
           ++ intros (a & Ha & [H | H]); inversion Ha; subst; [tauto |].
              simpl in H. inversion H. reflexivity.
    + unfold _can_download. apply one_of_true in Ht. rewrite Ht, Hl.
      split; [discriminate | intros (a & Ha & _); discriminate].
  - apply can_download_unrestricted.
Qed.

Lemma can_download_accepts_witness :
  ("audio" ∈ format_restricted /\
   (_can_download "audio" {[ "audio" := ["mp3"; "flac"] ]} (Some "flac") = Ok true <->
    exists allowed, ({[ "audio" := ["mp3"; "flac"] ]} : gmap string (list string)) !! "audio"
                    = Some allowed /\
      ((exists f, Some "flac" = Some f /\ f ∈ allowed) \/ head allowed = Some "all")))
  /\ (("photo" ∉ format_restricted) /\
      _can_download "photo" ∅ None = Ok true).
Proof.
  assert (Ha : "audio" ∈ format_restricted) by (apply one_of_true; reflexivity).
  assert (Hp : "photo" ∉ format_restricted) by (apply one_of_false; reflexivity).
  split; split.
  - exact Ha.
  - exact (proj1 (can_download_accepts "audio" _ (Some "flac")) Ha).
  - exact Hp.
  - exact (proj2 (can_download_accepts "photo" ∅ None) Hp).
Defined.

(** Against C2 as stated: what counts is the first entry of the
    allowlist.  An allowlist that opens with the sentinel and goes on lets
    through a format it does not list, although it is not the sentinel
    alone; an allowlist that holds the sentinel in second place rejects
    such a format. *)
Lemma sentinel_counts_in_first_place_only :
  (_can_download "audio" {[ "audio" := ["all"; "mp3"] ]} (Some "flac") = Ok true
   /\ ("flac" ∉ ["all"; "mp3"])
   /\ ["all"; "mp3"] <> ["all"])
  /\ (_can_download "audio" {[ "audio" := ["mp3"; "all"] ]} (Some "flac") = Ok false
      /\ "all" ∈ ["mp3"; "all"]).
Proof.
  split; [split; [reflexivity | split] | split; [reflexivity |]].
  - apply one_of_false. reflexivity.
  - discriminate.
  - apply one_of_true. reflexivity.
Qed.

(** The allowlist that is the sentinel alone lets every format through,
    and an allowlist that does not mention the sentinel lets through its
    members only. *)
Lemma can_download_all (_type : string) (file_formats : gmap string (list string))
    (file_format : option string) :
  file_formats !! _type = Some ["all"] ->
  _can_download _type file_formats file_format = Ok true.
Proof.
  intros Hl. destruct (decide (_type ∈ format_restricted)) as [Ht | Ht].
  - rewrite (can_download_restricted _ _ _ ["all"] Ht Hl).
    destruct (Py.contains file_format ["all"]); reflexivity.
  - apply can_download_unrestricted. exact Ht.
Qed.

Lemma can_download_listed_only (_type : string) (file_formats : gmap string (list string))
    (f : string) (allowed : list string) :
  _type ∈ format_restricted ->
  file_formats !! _type = Some allowed ->
  allowed <> [] ->
  "all" ∉ allowed ->
  _can_download _type file_formats (Some f) = Ok (bool_decide (f ∈ allowed)).
Proof.
  intros Ht Hl Hne Hall.
  rewrite (can_download_restricted _ _ _ allowed Ht Hl). simpl.
  destruct (bool_decide (f ∈ allowed)) eqn:Hf; [reflexivity |].
  destruct allowed as [|first rest]; [congruence |].
  destruct (String.eqb first "all") eqn:He; [|reflexivity].
  apply eqb_all in He. subst. exfalso. apply Hall. left.
Qed.

(** X1. On an audio, document or video item the answer is [False]
    exactly on a format that is not listed, under a non-empty allowlist
    that does not open with the sentinel. *)
Lemma can_download_rejects (_type : string) (file_formats : gmap string (list string))
    (file_format : option string) :
  _type ∈ format_restricted ->
  (_can_download _type file_formats file_format = Ok false <->
   exists first rest,
     file_formats !! _type = Some (first :: rest)
     /\ Py.contains file_format (first :: rest) = false
     /\ first <> "all").
Proof.
  intros Ht. destruct (file_formats !! _type) as [allowed|] eqn:Hl.
  - rewrite (can_download_restricted _ _ _ allowed Ht Hl).
    destruct (Py.contains file_format allowed) eqn:Hc.
    + split; [discriminate |].
      intros (first & rest & Ha & Hn & _). inversion Ha; subst. congruence.
    + destruct allowed as [|first rest].
      * split; [discriminate | intros (f & r & Ha & _); discriminate].
      * destruct (String.eqb first "all") eqn:He.
        -- split; [discriminate |].
           intros (f & r & Ha & _ & Hne). inversion Ha; subst.
           apply eqb_all in He. contradiction.
        -- split; [|reflexivity]. intros _. exists first, rest.
           split; [reflexivity |]. split; [exact Hc |].
           intros ->. discriminate.
  - unfold _can_download. apply one_of_true in Ht. rewrite Ht, Hl.
    split; [discriminate | intros (f & r & Ha & _); discriminate].
Qed.

(** C10. On an audio, document or video item [_can_download] reads
    [file_formats[_type]] and, when the format is not listed, the first
    entry of that list: a missing key raises [KeyError], an empty
    allowlist raises [IndexError], and the call returns a boolean exactly
    when the type is mapped to a non-empty list. *)
Theorem can_download_needs_allowlist (_type : string)
    (file_formats : gmap string (list string)) (file_format : option string) :
  _type ∈ format_restricted ->
  (file_formats !! _type = None ->
   _can_download _type file_formats file_format = Raise KeyError)
  /\ (file_formats !! _type = Some [] ->
      _can_download _type file_formats file_format = Raise IndexError)
  /\ (is_ok (_can_download _type file_formats file_format) = true <->
      exists allowed, file_formats !! _type = Some allowed /\ allowed <> []).
Proof.
  intros Ht. split; [|split].
  - intros Hl. unfold _can_download. apply one_of_true in Ht.
    rewrite Ht, Hl. reflexivity.
  - intros Hl. rewrite (can_download_restricted _ _ _ [] Ht Hl).
    destruct file_format; reflexivity.
  - destruct (file_formats !! _type) as [allowed|] eqn:Hl.
    + rewrite (can_download_restricted _ _ _ allowed Ht Hl).
      destruct (Py.contains file_format allowed) eqn:Hc.
      * split; [|reflexivity]. intros _. exists allowed. split; [reflexivity |].
        apply contains_true in Hc. destruct Hc as (f & _ & Hin).
        intros ->. inversion Hin.
      * destruct allowed as [|first rest]; simpl.
        -- split; [discriminate |]. intros (a & Ha & Hne). congruence.
        -- split; [|reflexivity]. intros _. exists (first :: rest).
           split; [reflexivity | discriminate].
    + unfold _can_download. apply one_of_true in Ht. rewrite Ht, Hl. simpl.
      split; [discriminate | intros (a & Ha & _); discriminate].
Qed.

Lemma can_download_needs_allowlist_witness :
  _can_download "video" {[ "audio" := ["all"] ]} (Some "mp4") = Raise KeyError
  /\ _can_download "video" {[ "video" := [] ]} (Some "mp4") = Raise IndexError.
Proof.
  assert (Hv : "video" ∈ format_restricted) by (apply one_of_true; reflexivity).
  split.
  - apply (proj1 (can_download_needs_allowlist "video" {[ "audio" := ["all"] ]}
                    (Some "mp4") Hv)).
    reflexivity.
  - apply (proj1 (proj2 (can_download_needs_allowlist "video" {[ "video" := [] ]}
                           (Some "mp4") Hv))).
    reflexivity.
Defined.

(** ** Media metadata *)

Lemma split_not_nil (sep : ascii) (s : string) : Py.split sep s <> [].
Proof.
  destruct s as [|c rest]; simpl; [discriminate |].
  destruct (Ascii.eqb c sep); [discriminate |].
  destruct (Py.split sep rest); discriminate.
Qed.

Lemma index_last_ok {A} (l : list A) :
  l <> [] -> exists x, Py.index_last l = Ok x.
Proof.
  induction l as [|a [|b tl] IH]; intros Hne.
  - congruence.
  - exists a. reflexivity.
  - destruct IH as [x Hx]; [discriminate |]. exists x. exact Hx.
Qed.

Lemma mime_subtype_none (media_obj : MediaObj) :
  mime_type media_obj = None -> mime_subtype media_obj = Raise AttributeError.
Proof. intros H. unfold mime_subtype. rewrite H. reflexivity. Qed.

Lemma mime_subtype_some (media_obj : MediaObj) (m : string) :
  mime_type media_obj = Some m -> exists f, mime_subtype media_obj = Ok f.
Proof.
  intros H. unfold mime_subtype. rewrite H.
  apply index_last_ok, split_not_nil.
Qed.

Lemma restricted_not_timestamp (_type : string) :
  _type ∈ format_restricted -> Py.one_of _type timestamp_named = false.
Proof.
  intros H. apply one_of_false. intros Hn.
  unfold format_restricted in H. unfold timestamp_named in Hn.
  repeat (apply elem_of_cons in H as [-> | H]);
    [| | | inversion H];
    repeat (apply elem_of_cons in Hn as [Hn | Hn]; [discriminate |]);
    inversion Hn.
Qed.

(** C9. With [mime_type] absent, [_get_media_meta] raises for the types
    audio, document, video, voice and video_note (it calls [split] on
    [None]); for audio, document and video it returns exactly when
    [mime_type] is present; for photo it returns for every media object,
    with no format. *)
Theorem get_media_meta_needs_mime_type (THIS_DIR : string) (media_obj : MediaObj)
    (_type : string) :
  (_type ∈ format_restricted ++ timestamp_named ->
   mime_type media_obj = None ->
   _get_media_meta THIS_DIR media_obj _type = Raise AttributeError)
  /\ (_type ∈ format_restricted ->
      (is_ok (_get_media_meta THIS_DIR media_obj _type) = true <->
       is_Some (mime_type media_obj)))
  /\ _get_media_meta THIS_DIR media_obj "photo" =
       Ok (Py.path_join THIS_DIR ["photo"; default "" (file_name media_obj)], None).
Proof.
  split; [|split].
  - intros Ht Hm. unfold _get_media_meta.
    rewrite (mime_subtype_none _ Hm).
    apply elem_of_app in Ht as [Ht | Ht].
    + apply one_of_true in Ht. rewrite Ht. reflexivity.
    + apply one_of_true in Ht. rewrite Ht.
      destruct (Py.one_of _type format_restricted); reflexivity.
  - intros Ht. unfold _get_media_meta.
    rewrite (restricted_not_timestamp _ Ht).
    apply one_of_true in Ht. rewrite Ht.
    destruct (mime_type media_obj) as [m|] eqn:Hm.
    + destruct (mime_subtype_some _ _ Hm) as [f Hf]. rewrite Hf. simpl.
      split; [intros _; eexists; reflexivity | reflexivity].
    + rewrite (mime_subtype_none _ Hm). simpl.
      split; [discriminate | intros [x Hx]; discriminate].
  - reflexivity.
Qed.

Lemma get_media_meta_needs_mime_type_witness :
  _get_media_meta "/app" {| mime_type := None; file_name := Some "a.ogg";
                            date := Some "2024-01-01T00:00:00" |} "voice"
  = Raise AttributeError.
Proof.
  apply (proj1 (get_media_meta_needs_mime_type "/app" _ "voice")).
  - apply one_of_true. reflexivity.
  - reflexivity.
Defined.

(** What the function makes of well-formed media objects. *)
Example get_media_meta_video :
  _get_media_meta "/app" {| mime_type := Some "video/mp4"; file_name := Some "clip.mp4";
                            date := None |} "video"
  = Ok ("/app/video/clip.mp4", Some "mp4").
Proof. reflexivity. Qed.

Example get_media_meta_voice :
  _get_media_meta "/app" {| mime_type := Some "audio/ogg"; file_name := None;
                            date := Some "2024-01-01T00:00:00" |} "voice"
  = Ok ("/app/voice/voice_2024-01-01T00:00:00.ogg", Some "ogg").
Proof. reflexivity. Qed.

Example get_media_meta_photo :
  _get_media_meta "/app" {| mime_type := None; file_name := None; date := None |} "photo"
  = Ok ("/app/photo/", None).
Proof. reflexivity. Qed.

(** ** Backlog reconciliation *)

Lemma reconcile_elem (ids_to_retry DOWNLOADED FAILED : list Z) (i : Z) :
  i ∈ reconcile ids_to_retry DOWNLOADED FAILED <->
  (i ∈ ids_to_retry /\ i ∉ DOWNLOADED) \/ i ∈ FAILED.
Proof.
  unfold reconcile. rewrite elem_of_app, elem_of_elements, elem_of_difference.
  rewrite !elem_of_list_to_set. reflexivity.
Qed.

Lemma update_config_run {Σ} (config : Config) (w : World Σ) :
  update_config config w =
    let config' := set_ids_to_retry config
                     (reconcile (ids_to_retry config) (DOWNLOADED_IDS w) (FAILED_IDS w)) in
    (Ok config', Build_World (ext w) (DOWNLOADED_IDS w) (FAILED_IDS w)
                   (EvWrite config' :: trace w)).
Proof. reflexivity. Qed.

(** C1, as amended. [update_config] writes out a configuration whose
    retry backlog holds exactly the ids that were in the backlog and are
    not in [DOWNLOADED_IDS], together with the ids of [FAILED_IDS]; so an
    id of [FAILED_IDS] is in the new backlog, and an id of
    [DOWNLOADED_IDS] that is not in [FAILED_IDS] is not. *)
Theorem update_config_reconciles {Σ} (config : Config) (w : World Σ) :
  exists config',
    fst (update_config config w) = Ok config'
    /\ head (trace (snd (update_config config w))) = Some (EvWrite config')
    /\ (forall i, i ∈ ids_to_retry config' <->
                  (i ∈ ids_to_retry config /\ i ∉ DOWNLOADED_IDS w) \/ i ∈ FAILED_IDS w)
    /\ (forall i, i ∈ FAILED_IDS w -> i ∈ ids_to_retry config')
    /\ (forall i, i ∈ DOWNLOADED_IDS w -> i ∉ FAILED_IDS w -> i ∉ ids_to_retry config').
Proof.
  rewrite update_config_run. simpl. eexists. split; [reflexivity |].
  split; [reflexivity |]. simpl.
  split; [|split].
  - intros i. apply reconcile_elem.
  - intros i Hi. apply reconcile_elem. right. exact Hi.
  - intros i Hd Hf Hi. apply reconcile_elem in Hi. tauto.
Qed.

Lemma update_config_reconciles_witness :
  exists config',
    fst (update_config (Sim.a_config 9 [3; 4]%Z)
           (Build_World (ext (Sim.start [] [] [] [])) [3]%Z [8]%Z [])) = Ok config'
    /\ 8%Z ∈ ids_to_retry config' /\ 3%Z ∉ ids_to_retry config'.
Proof.
  destruct (update_config_reconciles (Sim.a_config 9 [3; 4]%Z)
              (Build_World (ext (Sim.start [] [] [] [])) [3]%Z [8]%Z []))
    as (config' & Hr & _ & _ & Hf & Hd).
  exists config'. split; [exact Hr |]. split.
  - apply Hf. simpl. left.
  - apply Hd; simpl.
    + left.
    + intros H. apply elem_of_cons in H as [H | H]; [discriminate | inversion H].
Defined.

(** A backlog id that fails again is written out twice: once as what is
    left of the old backlog, once as an id of [FAILED_IDS]. *)
Example backlog_duplicates :
  exists config' w',
    main Sim.outside (Sim.a_config 7 [7]%Z)
      (Sim.start [Raise OtherException] [] [Sim.photo_message 7 "a.jpg"] [])
    = (Ok config', w')
    /\ ids_to_retry config' = [7; 7]%Z.
Proof. eexists. eexists. split; [vm_compute; reflexivity | reflexivity]. Qed.

(** Against C1 as stated: with the backlog [7; 7] of the run above, message
    7 is fetched twice; its first download succeeds and its second one
    raises an unclassified error, so that 7 is on both lists and stays in
    the backlog. *)
Lemma backlog_keeps_succeeded_id :
  exists config' w',
    main Sim.outside (Sim.a_config 7 [7; 7]%Z)
      (Sim.start [Ok (Some "/app/photo/a.jpg"); Raise OtherException] []
         [Sim.photo_message 7 "a.jpg"] [])
    = (Ok config', w')
    /\ DOWNLOADED_IDS w' = [7%Z]
    /\ FAILED_IDS w' = [7%Z]
    /\ ids_to_retry config' = [7%Z]
    /\ ~ (forall i, i ∈ DOWNLOADED_IDS w' -> i ∉ ids_to_retry config').
Proof.
  eexists. eexists. split; [vm_compute; reflexivity |].
  split; [reflexivity |]. split; [reflexivity |]. split; [reflexivity |].
  intros H. apply (H 7%Z); left.
Qed.

(** ** One pass over the requested media types *)

Section Passes.

Context {Σ : Type} (out : Outside Σ).

Lemma count_filter (p : Event -> bool) (tr : list Event) :
  count p tr = length (List.filter p tr).
Proof.
  induction tr as [|ev rest IH]; simpl; [reflexivity |].
  destruct (p ev); simpl; rewrite IH; reflexivity.
Qed.

Lemma same_filtered_count (p : Event -> bool) (w w' : World Σ) :
  same_filtered p w w' -> count p (trace w') = count p (trace w).
Proof. unfold same_filtered. intros H. rewrite !count_filter, H. reflexivity. Qed.

Lemma body_spec_refl (message : Message) (n : nat) (w : World Σ) :
  body_spec message n w (Ok tt) w.
Proof.
  unfold body_spec, downloaded_grows, same_filtered, dedup_balance, fatal_step.
  repeat split; try lia; auto.
  exists 0. simpl. rewrite app_nil_r. reflexivity.
Qed.

Lemma body_spec_raise (message : Message) (n : nat) (w : World Σ) (e : exn) :
  body_spec message n w (Raise e) w.
Proof.
  unfold body_spec, downloaded_grows, same_filtered, dedup_balance, fatal_step.
  repeat split; try lia; auto.
  exists 0. simpl. rewrite app_nil_r. reflexivity.
Qed.

Lemma body_spec_weaken (message : Message) (n m : nat) (w w' : World Σ) (r : result unit) :
  n <= m -> body_spec message n w r w' -> body_spec message m w r w'.
Proof.
  unfold body_spec. intros Hnm (Hf & Hd & Hp & Hc & Hb & Hfat).
  repeat split; auto. lia.
Qed.

Lemma body_spec_seq (message : Message) (n m : nat) (w w1 w2 : World Σ)
    (r : result unit) :
  body_spec message n w (Ok tt) w1 ->
  body_spec message m w1 r w2 ->
  body_spec message (n + m) w r w2.
Proof.
  unfold body_spec, downloaded_grows, same_filtered, dedup_balance, fatal_step.
  intros (Hf1 & [k1 Hd1] & Hp1 & Hc1 & Hb1 & Hfat1)
         (Hf2 & [k2 Hd2] & Hp2 & Hc2 & Hb2 & Hfat2).
  split; [congruence |].
  split.
  { exists (k1 + k2). rewrite Hd2, Hd1, replicate_add, app_assoc. reflexivity. }
  split.
  { intros p Hp. rewrite (Hp2 p Hp). apply Hp1, Hp. }
  split; [lia |].
  split; [lia |].
  destruct Hfat1 as [Hsame1 | (b & target & e & Hr & _)]; [|discriminate].
  destruct Hfat2 as [Hsame2 | (b & target & e & Hr & Hu & Hh & Hn)].
  - left. congruence.
  - right. exists b, target, e. repeat split; auto. congruence.
Qed.

(** The facts of [body_spec] that hold by computation once the outside
    calls of [download_type] have been named; [k] is the number of ids put
    on [DOWNLOADED_IDS].  What is left is [fatal_step]. *)
Ltac body_facts k :=
  unfold body_spec, downloaded_grows, same_filtered, dedup_balance, fatal_step;
  simpl;
  split; [reflexivity |];
  split; [exists k; simpl; rewrite ?app_nil_r; reflexivity |];
  split; [intros p [Hp1 Hp2]; rewrite ?Hp1, ?Hp2; reflexivity |];
  split; [lia |];
  split; [lia |].

Lemma download_type_spec (message : Message) (file_formats : gmap string (list string))
    (_type : string) (_media : MediaObj) (w : World Σ) :
  body_spec message 1 w
    (fst (download_type out message file_formats _type _media w))
    (snd (download_type out message file_formats _type _media w)).
Proof.
  unfold download_type, bind, lift.
  destruct (_get_media_meta (this_dir out) _media _type) as [[name format]|e];
    simpl; [|apply body_spec_raise].
  destruct (_can_download _type file_formats format) as [[|]|e];
    simpl; [| apply body_spec_refl | apply body_spec_raise].
  unfold _is_exist, ask, download_call, dedup_call, call, bind, lift, emit,
    append_downloaded. simpl.
  destruct (negb (os_path_isdir out name (ext w)) && os_path_exists out name (ext w));
    simpl.
  - (* the name is taken: download under the next name, then dedup *)
    destruct (client_download_media out message (get_next_name out name (ext w)) (ext w))
      as [[path|e] σ]; simpl.
    + destruct (manage_duplicate_file out path σ) as [[path'|e'] σ']; simpl.
      * body_facts 1. left. reflexivity.
      * body_facts 0. left. reflexivity.
    + body_facts 0. destruct (unclassified e) eqn:Hu.
      * right. exists true, (get_next_name out name (ext w)), e. auto.
      * left. reflexivity.
  - (* the name is free *)
    destruct (client_download_media out message name (ext w)) as [[path|e] σ]; simpl.
    + body_facts 1. left. reflexivity.
    + body_facts 0. destruct (unclassified e) eqn:Hu.
      * right. exists false, name, e. auto.
      * left. reflexivity.
Qed.

Lemma carried_cons (message : Message) (_type : string) (rest : list string) :
  carried message (_type :: rest) =
    match attachments message !! _type with
    | Some _ => _type :: carried message rest
    | None => carried message rest
    end.
Proof.
  unfold carried. simpl.
  destruct (attachments message !! _type) as [m|]; reflexivity.
Qed.

Lemma for_types_spec (message : Message) (file_formats : gmap string (list string))
    (media_types : list string) (w : World Σ) :
  body_spec message (length (carried message media_types)) w
    (fst (for_types out message file_formats media_types w))
    (snd (for_types out message file_formats media_types w)).
Proof.
  revert w. induction media_types as [|_type rest IH]; intros w.
  - apply body_spec_refl.
  - simpl for_types. rewrite carried_cons.
    destruct (attachments message !! _type) as [_media|]; [|apply IH].
    unfold bind.
    pose proof (download_type_spec message file_formats _type _media w) as Hd.
    destruct (download_type out message file_formats _type _media w) as [[[]|e] w1];
      simpl in Hd |- *.
    + apply (body_spec_seq message 1 _ w w1); [exact Hd | apply IH].
    + apply (body_spec_weaken message 1); [lia | exact Hd].
Qed.

Lemma attempt_spec (message : Message) (media_types : list string)
    (file_formats : gmap string (list string)) (retry : nat) (w : World Σ) :
  pass_spec out message media_types retry w
    (fst (attempt out message media_types file_formats retry w))
    (snd (attempt out message media_types file_formats retry w)).
Proof.
  unfold attempt, bind, emit, try_except. simpl.
  destruct (media message) as [kind|] eqn:Hmedia; simpl.
  2:{ unfold pass_spec, same_filtered, dedup_balance. simpl.
      split; [intros p (_ & Hp & _); rewrite Hp; reflexivity |].
      split; [reflexivity |]. split; [lia |]. split; [lia |].
      split; [exists 0; simpl; rewrite app_nil_r; reflexivity |]. auto. }
  set (w0 := Build_World (ext w) (DOWNLOADED_IDS w) (FAILED_IDS w)
               (EvAttempt (id message) retry :: trace w)).
  pose proof (for_types_spec message file_formats media_types w0) as Hb.
  unfold bind, ret.
  destruct (for_types out message file_formats media_types w0) as [[[]|e] w1];
    simpl in Hb |- *;
    destruct Hb as (Hf & Hd & Hp & Hc & Hbal & Hfat);
    unfold same_filtered, dedup_balance in *; simpl in *.
  - (* the body ran to its [break] *)
    unfold pass_spec, same_filtered, dedup_balance.
    split.
    { intros p (Ht & Ha & _). rewrite (Hp p Ht). simpl. rewrite Ha. reflexivity. }
    split; [rewrite (same_filtered_count is_attempt w0 w1);
            [reflexivity | apply Hp; split; reflexivity] |].
    split; [lia |]. split; [lia |]. split; [exact Hd |].
    left. split; [|left; exact Hf].
    destruct Hfat as [Hs | (b & t & e & Hr & _)]; [exact Hs | discriminate].
  - (* the body raised [e] *)
    assert (Hatt : count is_attempt (trace w1) = S (count is_attempt (trace w))).
    { rewrite (same_filtered_count is_attempt w0 w1);
        [reflexivity | apply Hp; split; reflexivity]. }
    assert (Hfat' :
      (count is_fatal (trace w1) = count is_fatal (trace w))
      \/ (unclassified e = true /\ count is_fatal (trace w1) = S (count is_fatal (trace w))
          /\ exists b t, head (trace w1) = Some (EvDownload b (id message) t (Raise e)))).
    { destruct Hfat as [Hs | (b & t & e' & Hr & Hu & Hh & Hn)].
      - left. exact Hs.
      - inversion Hr; subst e'. right. eauto. }
    clear Hfat.
    unfold pass_spec, same_filtered, dedup_balance.
    destruct e; unfold call, emit, append_failed, bind, ret; simpl.
    1: { (* BadRequest: the message is fetched again *)
      destruct Hfat' as [Hs | (Hu & _)]; [|discriminate].
      unfold lift.
      destruct (client_get_message out (chat message) (id message) (ext w1))
        as [[m|e'] σ] eqn:Hm; simpl.
      - assert (Hserved : served out message m).
        { right. exists (chat message), (id message), (ext w1). rewrite Hm. reflexivity. }
        assert (Hid : refetch_keeps_id out -> id m = id message).
        { intros Hk. destruct (Hk (chat message) (id message) (ext w1)) as (m' & Hm' & Hid).
          rewrite Hm in Hm'. simpl in Hm'. inversion Hm'; subst m'. exact Hid. }
        destruct (Nat.eqb retry 2); simpl.
        all: split;
          [intros p (Ht & Ha & Hre & Hsl); rewrite Hre, (Hp p Ht); simpl;
           rewrite Ha; reflexivity |].
        all: split; [exact Hatt |]; split; [lia |]; split; [lia |];
          split; [exact Hd |]; split; [exact Hserved |]; split; [exact Hid |];
          split; [exact Hs |]; rewrite Hf, ?app_nil_r; reflexivity.
      - (* the re-fetch raises: the error leaves the handler *)
        split;
          [intros p (Ht & Ha & Hre & Hsl); rewrite Hre, (Hp p Ht); simpl;
           rewrite Ha; reflexivity |].
        split; [exact Hatt |]. split; [lia |]. split; [lia |]. split; [exact Hd |].
        split; [exists (chat message), (id message), (ext w1); rewrite Hm; reflexivity |].
        split; [exact Hs | exact Hf]. }
    1: { (* TypeError: sleep *)
      destruct Hfat' as [Hs | (Hu & _)]; [|discriminate].
      destruct (Nat.eqb retry 2); simpl.
      all: split;
        [intros p (Ht & Ha & Hre & Hsl); rewrite Hsl, (Hp p Ht); simpl;
         rewrite Ha; reflexivity |].
      all: split; [exact Hatt |]; split; [lia |]; split; [lia |];
        split; [exact Hd |]; split; [left; reflexivity |]; split; [reflexivity |];
        split; [exact Hs |]; rewrite Hf, ?app_nil_r; reflexivity. }
    (* any other exception: the item is given up *)
    all: split;
      [intros p (Ht & Ha & _); rewrite (Hp p Ht); simpl; rewrite Ha; reflexivity |].
    all: split; [exact Hatt |]; split; [lia |]; split; [lia |]; split; [exact Hd |].
    all: destruct Hfat' as [Hs | (Hu & Hn & b & t & Hh)];
      [left; split; [exact Hs | right; rewrite Hf; reflexivity] |].
    all: right; exists b, t; eexists; rewrite Hf;
      (split; [|split; [exact Hh | split; [exact Hn | reflexivity]]]); exact Hu.
Qed.

Lemma frame_refl (w : World Σ) : frame w w.
Proof.
  unfold frame, same_filtered, dedup_balance.
  repeat split; auto; exists []; rewrite app_nil_r; reflexivity.
Qed.

Lemma frame_trans (w w1 w2 : World Σ) : frame w w1 -> frame w1 w2 -> frame w w2.
Proof.
  unfold frame, same_filtered, dedup_balance.
  intros (Hp1 & Hb1 & Hd1 & Hf1) (Hp2 & Hb2 & Hd2 & Hf2).
  split; [intros p Hp; rewrite (Hp2 p Hp); apply Hp1, Hp |].
  split; [lia |].
  split; etrans; eauto.
Qed.

Lemma pass_frame (message : Message) (media_types : list string) (retry : nat)
    (w w' : World Σ) (r : result Exit) :
  pass_spec out message media_types retry w r w' -> frame w w'.
Proof.
  unfold pass_spec, frame.
  intros (Hp & _ & _ & Hb & [k Hd] & Hexit).
  split; [exact Hp |]. split; [exact Hb |].
  split; [eexists; exact Hd |].
  destruct r as [[v | | m] | e].
  - destruct Hexit as (_ & _ & ->). simpl. reflexivity.
  - destruct Hexit as [(_ & [Hf | Hf]) | (b & t & e & _ & _ & _ & Hf)];
      rewrite Hf; try reflexivity; eexists; reflexivity.
  - destruct Hexit as (_ & _ & _ & Hf). eexists. exact Hf.
  - destruct Hexit as (_ & _ & Hf). rewrite Hf. reflexivity.
Qed.

Lemma served_step (message m m' : Message) :
  served out message m -> served out m m' -> served out message m'.
Proof.
  unfold served. intros H1 [-> | H2]; [exact H1 | right; exact H2].
Qed.

Lemma keeps_returns : refetch_keeps_id out -> refetch_returns out.
Proof.
  intros Hk chat_id i σ. destruct (Hk chat_id i σ) as (m & -> & _). reflexivity.
Qed.

(** A call returns when the re-fetch does, and returns the id of its
    message when the re-fetch keeps it; whether it returns or raises, it
    respects the frame and the bounds on passes and downloads. *)
Lemma retry_loop_spec (media_types : list string)
    (file_formats : gmap string (list string)) (retries : list nat)
    (message : Message) (w : World Σ) :
  (refetch_returns out ->
   exists i, fst (retry_loop out message media_types file_formats retries w) = Ok i)
  /\ (refetch_keeps_id out ->
      fst (retry_loop out message media_types file_formats retries w) = Ok (id message))
  /\ frame w (snd (retry_loop out message media_types file_formats retries w))
  /\ count is_attempt
       (trace (snd (retry_loop out message media_types file_formats retries w)))
     <= count is_attempt (trace w) + length retries
  /\ ((forall m, served out message m -> length (carried m media_types) <= 1) ->
      count is_download
        (trace (snd (retry_loop out message media_types file_formats retries w)))
      <= count is_download (trace w) + length retries).
Proof.
  revert message w. induction retries as [|retry rest IH]; intros message w.
  - simpl. split; [eauto |]. split; [reflexivity |]. split; [apply frame_refl |].
    split; [lia |]. intros _. lia.
  - simpl retry_loop. unfold bind.
    pose proof (attempt_spec message media_types file_formats retry w) as Hpass.
    destruct (attempt out message media_types file_formats retry w) as [r w1];
      simpl in Hpass.
    pose proof (pass_frame _ _ _ _ _ _ Hpass) as Hframe.
    destruct Hpass as (_ & Ha & Hc & _ & _ & Hexit).
    assert (Hone : (forall m, served out message m -> length (carried m media_types) <= 1)
                   -> count is_download (trace w1) <= count is_download (trace w) + 1).
    { intros Hs. specialize (Hs message (or_introl eq_refl)). lia. }
    destruct r as [[v | | m] | e]; simpl.
    + destruct Hexit as (-> & _). split; [eauto |]. split; [reflexivity |].
      split; [exact Hframe |].
      split; [lia |]. intros Hs. specialize (Hone Hs). lia.
    + split; [eauto |]. split; [reflexivity |]. split; [exact Hframe |].
      split; [lia |]. intros Hs. specialize (Hone Hs). lia.
    + destruct Hexit as (Hserved & Hid & _).
      destruct (IH m w1) as (Hret & Hkeep & Hframe' & Ha' & Hc').
      split; [exact Hret |].
      split; [intros Hk; rewrite (Hkeep Hk), (Hid Hk); reflexivity |].
      split; [eapply frame_trans; eauto |].
      split; [lia |].
      intros Hs. specialize (Hone Hs).
      assert (Hs' : forall m', served out m m' -> length (carried m' media_types) <= 1).
      { intros m' Hm'. apply Hs. eapply served_step; eauto. }
      specialize (Hc' Hs'). lia.
    + destruct Hexit as ((chat_id & i & σ & Hraise) & _).
      split.
      { intros Hret. specialize (Hret chat_id i σ). rewrite Hraise in Hret.
        discriminate. }
      split.
      { intros Hk. destruct (Hk chat_id i σ) as (m & Hm & _). rewrite Hraise in Hm.
        discriminate. }
      split; [exact Hframe |].
      split; [lia |]. intros Hs. specialize (Hone Hs). lia.
Qed.

(** A download that raises an unclassified error ends the call at once:
    stated for the passes [k, k+1, ...] that are left of [range(3)]. *)
Lemma retry_loop_fatal (media_types : list string)
    (file_formats : gmap string (list string)) (n k : nat)
    (message : Message) (w : World Σ) :
  k + n <= 3 ->
  count is_fatal
    (trace (snd (retry_loop out message media_types file_formats (seq k n) w)))
  = count is_fatal (trace w)
  \/ exists b i target e,
       unclassified e = true
       /\ head (trace (snd (retry_loop out message media_types file_formats (seq k n) w)))
          = Some (EvDownload b i target (Raise e))
       /\ count is_fatal
            (trace (snd (retry_loop out message media_types file_formats (seq k n) w)))
          = S (count is_fatal (trace w))
       /\ FAILED_IDS (snd (retry_loop out message media_types file_formats (seq k n) w))
          = FAILED_IDS w ++ [i]
       /\ fst (retry_loop out message media_types file_formats (seq k n) w) = Ok i.
Proof.
  revert k message w. induction n as [|n IH]; intros k message w Hk.
  - left. reflexivity.
  - simpl seq. simpl retry_loop. unfold bind.
    pose proof (attempt_spec message media_types file_formats k w) as Hpass.
    destruct (attempt out message media_types file_formats k w) as [[exit|e] w1];
      simpl in Hpass.
    2:{ destruct Hpass as (_ & _ & _ & _ & _ & (_ & Hs & _)). left. exact Hs. }
    destruct Hpass as (_ & _ & _ & _ & _ & Hexit).
    destruct exit as [v | | m]; simpl.
    + destruct Hexit as (_ & _ & ->). left. reflexivity.
    + destruct Hexit as [(Hs & _) | (b & t & e & Hu & Hh & Hn & Hf)].
      * left. exact Hs.
      * right. exists b, (id message), t, e. auto.
    + destruct Hexit as (_ & _ & Hs & Hf).
      destruct (Nat.eqb k 2) eqn:Hk2.
      * apply Nat.eqb_eq in Hk2. assert (n = 0) as -> by lia.
        left. simpl. exact Hs.
      * rewrite app_nil_r in Hf.
        destruct (IH (S k) m w1 ltac:(lia)) as [Hs' | (b & i & t & e & Hu & Hh & Hn & Hf' & Hr)].
        -- left. congruence.
        -- right. exists b, i, t, e. repeat split; auto; congruence.
Qed.

Lemma carried_length (message : Message) (media_types : list string) :
  length (carried message media_types) <= length media_types.
Proof.
  induction media_types as [|t rest IH]; [reflexivity |].
  rewrite carried_cons. destruct (attachments message !! t); simpl; lia.
Qed.

(** C5. A call of [download_media] makes at most three passes of the
    retry loop; on messages that carry at most one of the requested media
    it calls the download primitive at most three times; and when a
    download raises an error that is neither [BadRequest] nor [TypeError],
    that download is the last thing the call does: its message id is
    appended to [FAILED_IDS] and returned. *)
Theorem download_media_retry_bound (message : Message) (media_types : list string)
    (file_formats : gmap string (list string)) (w : World Σ) :
  count is_attempt (trace (snd (download_media out message media_types file_formats w)))
  <= count is_attempt (trace w) + 3
  /\ ((forall m, served out message m -> length (carried m media_types) <= 1) ->
      count is_download
        (trace (snd (download_media out message media_types file_formats w)))
      <= count is_download (trace w) + 3)
  /\ (count is_fatal (trace (snd (download_media out message media_types file_formats w)))
      <> count is_fatal (trace w) ->
      exists b i target e,
        unclassified e = true
        /\ head (trace (snd (download_media out message media_types file_formats w)))
           = Some (EvDownload b i target (Raise e))
        /\ FAILED_IDS (snd (download_media out message media_types file_formats w))
           = FAILED_IDS w ++ [i]
        /\ fst (download_media out message media_types file_formats w) = Ok i).
Proof.
  unfold download_media.
  destruct (retry_loop_spec media_types file_formats (seq 0 3) message w)
    as (_ & _ & _ & Ha & Hd).
  split; [exact Ha |]. split; [exact Hd |].
  intros Hne.
  destruct (retry_loop_fatal media_types file_formats 3 0 message w ltac:(lia))
    as [Hs | (b & i & t & e & Hu & Hh & _ & Hf & Hr)]; [congruence |].
  exists b, i, t, e. auto.
Qed.

(** C7, as amended. On a message without media [download_media] returns
    the message's id in its first pass, calls nothing and records nothing:
    neither [DOWNLOADED_IDS] nor [FAILED_IDS] changes. *)
Theorem download_media_no_media (message : Message) (media_types : list string)
    (file_formats : gmap string (list string)) (w : World Σ) :
  media message = None ->
  download_media out message media_types file_formats w =
    (Ok (id message),
     Build_World (ext w) (DOWNLOADED_IDS w) (FAILED_IDS w)
       (EvAttempt (id message) 0 :: trace w)).
Proof.
  intros Hm. unfold download_media. simpl.
  unfold bind, attempt, bind, emit, try_except. simpl. rewrite Hm. reflexivity.
Qed.

Lemma download_type_open (message : Message) (file_formats : gmap string (list string))
    (_type : string) (_media : MediaObj) (w : World Σ)
    (name : string) (format : option string) :
  _get_media_meta (this_dir out) _media _type = Ok (name, format) ->
  _can_download _type file_formats format = Ok true ->
  download_type out message file_formats _type _media w =
    ((exists_ <- _is_exist out name ;;
      (if exists_ : bool then
         target <- ask (get_next_name out name) ;;
         download_path <- download_call out true message target ;;
         dedup_call out download_path
       else download_call out false message name) ;;
      append_downloaded (id message))%M) w.
Proof.
  intros Hmeta Hallowed. unfold download_type, bind at 1, lift at 1.
  rewrite Hmeta. unfold bind at 1, lift at 1. rewrite Hallowed. reflexivity.
Qed.

(** C8, as amended. The dedup step follows a successful download only
    on the path taken when the destination name exists: the download then
    goes to the name given by [get_next_name], [manage_duplicate_file] is
    called on the downloaded path in the state the download left, and the
    id is appended to [DOWNLOADED_IDS] only once that call has returned;
    if it raises, the id is not recorded.  When the name is free the
    download is followed by no dedup step and the id is recorded at once.
    Over a whole call of [download_media] there are as many dedup steps as
    downloads that succeeded after a renaming. *)
Theorem download_dedup_on_collision (message : Message)
    (media_types : list string) (file_formats : gmap string (list string))
    (w : World Σ) :
  (forall _type _media name format path σ,
     _get_media_meta (this_dir out) _media _type = Ok (name, format) ->
     _can_download _type file_formats format = Ok true ->
     negb (os_path_isdir out name (ext w)) && os_path_exists out name (ext w) = true ->
     client_download_media out message (get_next_name out name (ext w)) (ext w)
       = (Ok path, σ) ->
     download_type out message file_formats _type _media w
     = match manage_duplicate_file out path σ with
       | (Ok _, σ') =>
           (Ok tt,
            Build_World σ' (DOWNLOADED_IDS w ++ [id message]) (FAILED_IDS w)
              (EvDedup path
               :: EvDownload true (id message) (get_next_name out name (ext w)) (Ok path)
               :: trace w))
       | (Raise e, σ') =>
           (Raise e,
            Build_World σ' (DOWNLOADED_IDS w) (FAILED_IDS w)
              (EvDedup path
               :: EvDownload true (id message) (get_next_name out name (ext w)) (Ok path)
               :: trace w))
       end)
  /\ (forall _type _media name format path σ,
        _get_media_meta (this_dir out) _media _type = Ok (name, format) ->
        _can_download _type file_formats format = Ok true ->
        negb (os_path_isdir out name (ext w)) && os_path_exists out name (ext w) = false ->
        client_download_media out message name (ext w) = (Ok path, σ) ->
        download_type out message file_formats _type _media w
        = (Ok tt, Build_World σ (DOWNLOADED_IDS w ++ [id message]) (FAILED_IDS w)
                    (EvDownload false (id message) name (Ok path) :: trace w)))
  /\ count is_dedup (trace (snd (download_media out message media_types file_formats w)))
     + count is_renamed_success (trace w)
     = count is_dedup (trace w)
       + count is_renamed_success
           (trace (snd (download_media out message media_types file_formats w))).
Proof.
  split; [|split].
  - intros _type _media name format path σ Hmeta Hallowed Hex Hdl.
    rewrite (download_type_open _ _ _ _ _ _ _ Hmeta Hallowed).
    unfold _is_exist, ask, download_call, dedup_call, call, bind, lift, emit,
      append_downloaded. simpl. rewrite Hex. simpl. rewrite Hdl. simpl.
    destruct (manage_duplicate_file out path σ) as [[path'|e] σ']; reflexivity.
  - intros _type _media name format path σ Hmeta Hallowed Hex Hdl.
    rewrite (download_type_open _ _ _ _ _ _ _ Hmeta Hallowed).
    unfold _is_exist, ask, download_call, dedup_call, call, bind, lift, emit,
      append_downloaded. simpl. rewrite Hex. simpl. rewrite Hdl. reflexivity.
  - unfold download_media.
    destruct (retry_loop_spec media_types file_formats (seq 0 3) message w)
      as (_ & _ & (_ & Hb & _) & _).
    exact Hb.
Qed.

(** ** A batch *)

Lemma foldl_max_spec (xs : list Z) (x : Z) :
  (x <= foldl Z.max x xs)%Z
  /\ (forall y, y ∈ xs -> (y <= foldl Z.max x xs)%Z)
  /\ foldl Z.max x xs ∈ x :: xs.
Proof.
  revert x. induction xs as [|a xs IH]; intros x; simpl.
  - split; [lia |]. split; [intros y Hy; inversion Hy | left].
  - destruct (IH (Z.max x a)) as (H1 & H2 & H3).
    split; [lia |]. split.
    + intros y Hy. apply elem_of_cons in Hy as [-> | Hy]; [lia | auto].
    + apply elem_of_cons in H3 as [H3 | H3].
      * rewrite H3. destruct (Z.max_spec x a) as [[_ ->] | [_ ->]];
          [right; left | left].
      * right. right. exact H3.
Qed.

Lemma max_spec (l : list Z) :
  l <> [] ->
  exists m, Py.max l = Ok m /\ m ∈ l /\ forall y, y ∈ l -> (y <= m)%Z.
Proof.
  destruct l as [|x xs]; [congruence |]. intros _.
  destruct (foldl_max_spec xs x) as (H1 & H2 & H3).
  exists (foldl Z.max x xs). split; [reflexivity |]. split; [exact H3 |].
  intros y Hy. apply elem_of_cons in Hy as [-> | Hy]; auto.
Qed.

Lemma download_media_spec (message : Message) (media_types : list string)
    (file_formats : gmap string (list string)) (w : World Σ) :
  (refetch_returns out ->
   exists i, fst (download_media out message media_types file_formats w) = Ok i)
  /\ (refetch_keeps_id out ->
      fst (download_media out message media_types file_formats w) = Ok (id message))
  /\ frame w (snd (download_media out message media_types file_formats w)).
Proof.
  unfold download_media.
  destruct (retry_loop_spec media_types file_formats (seq 0 3) message w)
    as (Hr & Hk & Hf & _).
  auto.
Qed.

Lemma gather_spec (messages : list Message) (media_types : list string)
    (file_formats : gmap string (list string)) (w : World Σ) :
  (refetch_returns out ->
   exists ids, fst (gather out messages media_types file_formats w) = Ok ids
               /\ length ids = length messages)
  /\ (refetch_keeps_id out ->
      fst (gather out messages media_types file_formats w) = Ok (map id messages))
  /\ frame w (snd (gather out messages media_types file_formats w)).
Proof.
  revert w. induction messages as [|message rest IH]; intros w.
  - simpl. split; [eauto |]. split; [reflexivity | apply frame_refl].
  - simpl gather. unfold bind.
    destruct (download_media_spec message media_types file_formats w)
      as (Hret & Hkeep & Hf).
    destruct (download_media out message media_types file_formats w) as [[i|e] w1];
      simpl in Hret, Hkeep, Hf.
    + destruct (IH w1) as (Hret' & Hkeep' & Hf').
      destruct (gather out rest media_types file_formats w1) as [[ids|e] w2];
        simpl in Hret', Hkeep', Hf' |- *.
      * split.
        { intros Hr. exists (i :: ids). split; [reflexivity |]. simpl. f_equal.
          destruct (Hret' Hr) as (ids' & Hids & Hlen).
          inversion Hids; subst. exact Hlen. }
        split.
        { intros Hk. specialize (Hkeep Hk). specialize (Hkeep' Hk).
          inversion Hkeep; inversion Hkeep'; subst. reflexivity. }
        eapply frame_trans; eauto.
      * split.
        { intros Hr. destruct (Hret' Hr) as (ids & Hids & _). discriminate. }
        split.
        { intros Hk. specialize (Hkeep' Hk). discriminate. }
        eapply frame_trans; eauto.
    + split.
      { intros Hr. destruct (Hret Hr) as (i & Hi). discriminate. }
      split.
      { intros Hk. specialize (Hkeep Hk). discriminate. }
      exact Hf.
Qed.

End Passes.

(** ** The batch dispatcher *)

Section Batches.

Context {Σ : Type} (out : Outside Σ).

Lemma omap_filter {B} (f : Event -> option B) (p : Event -> bool) (tr : list Event) :
  (forall ev, p ev = false -> f ev = None) ->
  omap f tr = omap f (List.filter p tr).
Proof.
  intros Hf. induction tr as [|ev rest IH]; [reflexivity |].
  simpl. destruct (p ev) eqn:Hp; simpl.
  - destruct (f ev); [f_equal |]; exact IH.
  - rewrite (Hf ev Hp). exact IH.
Qed.

Lemma written_filter (tr : list Event) :
  written tr = written (List.filter is_write tr).
Proof. apply omap_filter. intros [] H; try reflexivity; discriminate. Qed.

Lemma dispatched_filter (tr : list Event) :
  dispatched tr = dispatched (List.filter is_dispatch tr).
Proof.
  unfold dispatched. f_equal. apply omap_filter.
  intros [] H; try reflexivity; discriminate.
Qed.

Lemma frame_written (w w' : World Σ) :
  frame w w' -> written (trace w') = written (trace w).
Proof.
  intros (Hp & _). rewrite (written_filter (trace w')), (written_filter (trace w)).
  rewrite (Hp is_write); [reflexivity |]. repeat split; reflexivity.
Qed.

Lemma frame_dispatched (w w' : World Σ) :
  frame w w' -> dispatched (trace w') = dispatched (trace w).
Proof.
  intros (Hp & _).
  rewrite (dispatched_filter (trace w')), (dispatched_filter (trace w)).
  rewrite (Hp is_dispatch); [reflexivity |]. repeat split; reflexivity.
Qed.

(** What a batch does, seen from the pagination loop. *)
(** What a call of [process_messages] leaves on the trace and on the
    two lists, whether it returns or not. *)
Lemma process_messages_frame (messages : list Message) (media_types : list string)
    (file_formats : gmap string (list string)) (w : World Σ) :
  written (trace (snd (process_messages out messages media_types file_formats w)))
  = written (trace w)
  /\ dispatched (trace (snd (process_messages out messages media_types file_formats w)))
     = dispatched (trace w) ++ [map id messages]
  /\ DOWNLOADED_IDS w
     `prefix_of` DOWNLOADED_IDS
                   (snd (process_messages out messages media_types file_formats w))
  /\ FAILED_IDS w
     `prefix_of` FAILED_IDS
                   (snd (process_messages out messages media_types file_formats w)).
Proof.
  unfold process_messages, bind, emit, lift. simpl.
  set (w0 := Build_World (ext w) (DOWNLOADED_IDS w) (FAILED_IDS w)
               (EvDispatch (map id messages) :: trace w)).
  destruct (gather_spec out messages media_types file_formats w0) as (_ & _ & Hf).
  destruct (gather out messages media_types file_formats w0) as [[ids|e] w1];
    simpl in Hf |- *.
  all: split; [rewrite (frame_written _ _ Hf); reflexivity |].
  all: split; [rewrite (frame_dispatched _ _ Hf); reflexivity |].
  all: destruct Hf as (_ & _ & Hd & Hfl); auto.
Qed.

Lemma process_messages_run (messages : list Message) (media_types : list string)
    (file_formats : gmap string (list string)) (w : World Σ) :
  refetch_returns out ->
  exists ids,
    length ids = length messages
    /\ (refetch_keeps_id out -> ids = map id messages)
    /\ fst (process_messages out messages media_types file_formats w) = Py.max ids
    /\ written (trace (snd (process_messages out messages media_types file_formats w)))
       = written (trace w)
    /\ dispatched (trace (snd (process_messages out messages media_types file_formats w)))
       = dispatched (trace w) ++ [map id messages]
    /\ DOWNLOADED_IDS w
       `prefix_of` DOWNLOADED_IDS
                     (snd (process_messages out messages media_types file_formats w))
    /\ FAILED_IDS w
       `prefix_of` FAILED_IDS
                     (snd (process_messages out messages media_types file_formats w)).
Proof.
  intros Hret.
  destruct (process_messages_frame messages media_types file_formats w)
    as (Hw & Hd & Hdl & Hfl).
  revert Hw Hd Hdl Hfl.
  unfold process_messages, bind, emit, lift. simpl.
  set (w0 := Build_World (ext w) (DOWNLOADED_IDS w) (FAILED_IDS w)
               (EvDispatch (map id messages) :: trace w)).
  destruct (gather_spec out messages media_types file_formats w0)
    as (Hgather & Hkeep & _).
  destruct (Hgather Hret) as (ids & Hids & Hlen).
  destruct (gather out messages media_types file_formats w0) as [r w1].
  simpl in Hids, Hkeep. subst r. simpl. intros Hw Hd Hdl Hfl.
  exists ids. split; [exact Hlen |].
  split; [intros Hk; specialize (Hkeep Hk); congruence |].
  split; [reflexivity |]. auto.
Qed.

Lemma process_messages_spec (messages : list Message) (media_types : list string)
    (file_formats : gmap string (list string)) (w : World Σ) :
  refetch_keeps_id out ->
  fst (process_messages out messages media_types file_formats w)
    = Py.max (map id messages)
  /\ written (trace (snd (process_messages out messages media_types file_formats w)))
     = written (trace w)
  /\ dispatched (trace (snd (process_messages out messages media_types file_formats w)))
     = dispatched (trace w) ++ [map id messages].
Proof.
  intros Hk.
  destruct (process_messages_run messages media_types file_formats w
              (keeps_returns out Hk))
    as (ids & _ & Hmap & Hr & Hw & Hd & _).
  rewrite (Hmap Hk) in Hr. repeat split; assumption.
Qed.

(** [max] of no ids: the empty batch is an error. *)
Lemma process_messages_empty (media_types : list string)
    (file_formats : gmap string (list string)) (w : World Σ) :
  fst (process_messages out [] media_types file_formats w) = Raise ValueError.
Proof. reflexivity. Qed.

(** C4. With a client that serves the requested message on a re-fetch,
    [download_media] returns the id of its message whatever happens to the
    item, and on a non-empty batch [process_messages] returns the greatest
    message id of the batch. *)
Theorem process_messages_watermark (messages : list Message)
    (media_types : list string) (file_formats : gmap string (list string))
    (w : World Σ) :
  refetch_keeps_id out ->
  messages <> [] ->
  (forall message w0,
     fst (download_media out message media_types file_formats w0) = Ok (id message))
  /\ exists last,
       fst (process_messages out messages media_types file_formats w) = Ok last
       /\ last ∈ map id messages
       /\ forall i, i ∈ map id messages -> (i <= last)%Z.
Proof.
  intros Hk Hne. split.
  - intros message w0.
    destruct (download_media_spec out message media_types file_formats w0)
      as (_ & Hid & _).
    exact (Hid Hk).
  - destruct (process_messages_spec messages media_types file_formats w Hk)
      as (Hr & _).
    rewrite Hr. apply max_spec. destruct messages; [congruence | discriminate].
Qed.

End Batches.

(** ** The pagination loop *)

Section Pagination.

Context {Σ : Type} (out : Outside Σ).

Hypothesis refetch : refetch_keeps_id out.

Lemma seed_spec (skipped_messages : list Message) (page : Page) :
  seed page skipped_messages =
    {| config := config page;
       last_read := last_read page;
       messages_list := messages_list page ++ skipped_messages;
       pagination_count :=
         (pagination_count page + Z.of_nat (length skipped_messages))%Z |}.
Proof.
  revert page. unfold seed.
  induction skipped_messages as [|m rest IH]; intros page; simpl.
  - rewrite app_nil_r, Z.add_0_r. destruct page; reflexivity.
  - rewrite IH. simpl. f_equal.
    + rewrite <- app_assoc. reflexivity.
    + lia.
Qed.

Lemma concat_snoc {A} (ls : list (list A)) (l : list A) :
  concat (ls ++ [l]) = concat ls ++ l.
Proof. rewrite concat_app. simpl. rewrite app_nil_r. reflexivity. Qed.

(** [begin_import] from the point where the loop starts. *)
Lemma begin_import_unfold (config0 : Config) (pagination_limit : Z) (w : World Σ) :
  begin_import out config0 pagination_limit w =
    (page <- paginate out pagination_limit
               {| config := config0;
                  last_read := last_read_message_id config0;
                  messages_list := backlog_messages out config0 (ext w);
                  pagination_count :=
                    Z.of_nat (length (backlog_messages out config0 (ext w))) |}
               (history_messages out config0 (ext w)) ;;
     last_read_message_id <-
       (match messages_list page with
        | [] => ret (last_read page)
        | _ :: _ =>
            process_messages out (messages_list page) (media_types (config page))
              (file_formats (config page))
        end) ;;
     ret (set_last_read_message_id (config page) last_read_message_id))%M
    (Build_World
       (snd (client_get_chat_history out (chat_id config0) (last_read_message_id config0)
               (after_backlog out config0 (ext w))))
       (DOWNLOADED_IDS w) (FAILED_IDS w) (trace w)).
Proof.
  unfold begin_import, history_messages, backlog_messages, after_backlog.
  destruct (ids_to_retry config0) as [|i ids].
  - unfold bind at 1, ret at 1. unfold bind at 1, call at 1.
    destruct (client_get_chat_history out (chat_id config0) (last_read_message_id config0)
                (ext w)) as [messages_iter σ2].
    reflexivity.
  - unfold bind at 1. unfold bind at 1, call at 1.
    destruct (client_get_messages out (chat_id config0) (i :: ids) (ext w))
      as [skipped σ1].
    unfold ret at 1. unfold bind at 1, call at 1. simpl.
    destruct (client_get_chat_history out (chat_id config0) (last_read_message_id config0)
                σ1) as [messages_iter σ2].
    simpl. rewrite seed_spec. reflexivity.
Qed.

(** The shape of a run that returns. *)
Lemma begin_import_finish (config0 : Config) (pagination_limit : Z) (w : World Σ)
    (page' : Page) (w3 w4 : World Σ) (last : Z) :
  paginate out pagination_limit
    {| config := config0;
       last_read := last_read_message_id config0;
       messages_list := backlog_messages out config0 (ext w);
       pagination_count := Z.of_nat (length (backlog_messages out config0 (ext w))) |}
    (history_messages out config0 (ext w))
    (Build_World
       (snd (client_get_chat_history out (chat_id config0) (last_read_message_id config0)
               (after_backlog out config0 (ext w))))
       (DOWNLOADED_IDS w) (FAILED_IDS w) (trace w))
  = (Ok page', w3) ->
  match messages_list page' with
  | [] => ret (last_read page')
  | _ :: _ =>
      process_messages out (messages_list page') (media_types (config page'))
        (file_formats (config page'))
  end w3 = (Ok last, w4) ->
  begin_import out config0 pagination_limit w
  = (Ok (set_last_read_message_id (config page') last), w4).
Proof.
  intros Hloop Hlast. rewrite begin_import_unfold.
  unfold bind at 1. rewrite Hloop. unfold bind at 1. rewrite Hlast. reflexivity.
Qed.







End Pagination.

(** ** Whole runs *)

Section Runs.

Context {Σ : Type} (out : Outside Σ).

Lemma prefix_elem {A} (l1 l2 : list A) (x : A) :
  l1 `prefix_of` l2 -> x ∈ l1 -> x ∈ l2.
Proof. intros [k ->] Hx. apply elem_of_app. left. exact Hx. Qed.

Lemma process_messages_ok (messages : list Message) (media_types : list string)
    (file_formats : gmap string (list string)) (w : World Σ) :
  refetch_returns out ->
  messages <> [] ->
  exists last, fst (process_messages out messages media_types file_formats w) = Ok last.
Proof.
  intros Hret Hne.
  destruct (process_messages_run out messages media_types file_formats w Hret)
    as (ids & Hlen & _ & Hr & _).
  rewrite Hr. destruct ids as [|i ids]; [|eexists; reflexivity].
  destruct messages; [congruence | discriminate].
Qed.

Lemma batch_sizes_snoc (pagination_limit : Z) (batches : list (list Z)) (batch : list Z) :
  batches <> [] ->
  batch_sizes pagination_limit batches ->
  Z.of_nat (length batch) = (pagination_limit + 1)%Z ->
  batch_sizes pagination_limit (batches ++ [batch]).
Proof.
  destruct batches as [|first later]; [congruence |].
  intros _ [Hfirst Hlater] Hbatch. simpl. split; [exact Hfirst |].
  apply Forall_app. split; [exact Hlater |]. constructor; [exact Hbatch | constructor].
Qed.

(** The two turns of the pagination loop.  Below the page size the
    message joins the buffer; at the page size the buffer goes to the
    dispatcher, the position becomes what the dispatcher returns, the
    configuration is written out, and the buffer restarts with the message
    at hand while the counter restarts at 0. *)
Lemma paginate_step_append (pagination_limit : Z) (page : Page) (message : Message)
    (w : World Σ) :
  pagination_count page <> pagination_limit ->
  paginate_step out pagination_limit page message w
  = (Ok {| config := config page;
           last_read := last_read page;
           messages_list := messages_list page ++ [message];
           pagination_count := (pagination_count page + 1)%Z |}, w).
Proof.
  intros Hne. unfold paginate_step.
  apply Z.eqb_neq in Hne. rewrite Hne. reflexivity.
Qed.

Lemma paginate_step_checkpoint (pagination_limit : Z) (page : Page) (message : Message)
    (w w1 : World Σ) (p : Z) :
  pagination_count page = pagination_limit ->
  process_messages out (messages_list page) (media_types (config page))
    (file_formats (config page)) w = (Ok p, w1) ->
  exists config',
    paginate_step out pagination_limit page message w
    = (Ok {| config := config';
             last_read := p;
             messages_list := [message];
             pagination_count := 0 |},
       Build_World (ext w1) (DOWNLOADED_IDS w1) (FAILED_IDS w1)
         (EvWrite config' :: trace w1))
    /\ last_read_message_id config' = p.
Proof.
  intros Hfull Hbatch. unfold paginate_step.
  apply Z.eqb_eq in Hfull. rewrite Hfull. simpl.
  unfold bind at 1. rewrite Hbatch. unfold bind. rewrite update_config_run. simpl.
  eexists. split; reflexivity.
Qed.

Lemma paginate_step_shape (pagination_limit : Z) (page : Page) (message : Message)
    (w : World Σ) :
  refetch_returns out ->
  (0 < pagination_limit)%Z ->
  page_shape pagination_limit page w ->
  exists page',
    fst (paginate_step out pagination_limit page message w) = Ok page'
    /\ page_shape pagination_limit page'
         (snd (paginate_step out pagination_limit page message w)).
Proof.
  intros Hret Hlimit Hshape. unfold paginate_step.
  destruct (pagination_count page =? pagination_limit)%Z eqn:Hfull; simpl.
  - apply Z.eqb_eq in Hfull.
    assert (Hbuf : messages_list page <> []).
    { intros Hnil. unfold page_shape in Hshape. rewrite Hnil in Hshape.
      simpl in Hshape. destruct Hshape as [(_ & Hc) | (_ & _ & Hc & _)]; lia. }
    unfold bind.
    destruct (process_messages_ok (messages_list page) (media_types (config page))
                (file_formats (config page)) w Hret Hbuf) as (p & Hp).
    destruct (process_messages_run out (messages_list page) (media_types (config page))
                (file_formats (config page)) w Hret) as (_ & _ & _ & _ & _ & Hd & _).
    destruct (process_messages out (messages_list page) (media_types (config page))
                (file_formats (config page)) w) as [r w1].
    simpl in Hp, Hd. subst r. rewrite update_config_run. simpl.
    eexists. split; [reflexivity |].
    right. simpl.
    assert (Hd' : forall c, dispatched (EvWrite c :: trace w1)
                            = dispatched (trace w) ++ [map id (messages_list page)]).
    { intros c. rewrite <- Hd. reflexivity. }
    rewrite Hd'.
    split; [intros Hnil; apply app_eq_nil in Hnil as [_ Hnil]; discriminate |].
    split; [|lia].
    destruct Hshape as [(Hnone & Hc) | (Hsome & Hsizes & Hc & _)].
    + rewrite Hnone. simpl. rewrite length_map. split; [lia | constructor].
    + apply batch_sizes_snoc; [exact Hsome | exact Hsizes |].
      rewrite length_map. lia.
  - apply Z.eqb_neq in Hfull. unfold ret. simpl.
    eexists. split; [reflexivity |]. simpl.
    destruct Hshape as [(Hnone & Hc) | (Hsome & Hsizes & Hc & Hrange)].
    + left. simpl. split; [exact Hnone |]. rewrite length_app. simpl. lia.
    + right. simpl. split; [exact Hsome |]. split; [exact Hsizes |].
      rewrite length_app. simpl. lia.
Qed.

Lemma paginate_shape (pagination_limit : Z) (messages_iter : list Message)
    (page : Page) (w : World Σ) :
  refetch_returns out ->
  (0 < pagination_limit)%Z ->
  page_shape pagination_limit page w ->
  exists page',
    fst (paginate out pagination_limit page messages_iter w) = Ok page'
    /\ page_shape pagination_limit page'
         (snd (paginate out pagination_limit page messages_iter w)).
Proof.
  intros Hret Hlimit. revert page w.
  induction messages_iter as [|message rest IH]; intros page w Hshape.
  - exists page. split; [reflexivity | exact Hshape].
  - simpl paginate. unfold bind.
    destruct (paginate_step_shape pagination_limit page message w Hret Hlimit Hshape)
      as (page1 & Hr & Hshape1).
    destruct (paginate_step out pagination_limit page message w) as [r w1].
    simpl in Hr, Hshape1. subst r. apply IH. exact Hshape1.
Qed.

(** X9. The sizes of the batches of a run, in general: for a client
    whose re-fetch returns and a page size of at least one, whatever the
    downloads do, the run returns and the batches before the final one
    have [pagination_limit] messages (the first) and
    [pagination_limit + 1] messages (the others). *)
Theorem begin_import_batch_shape (config0 : Config) (pagination_limit : Z)
    (w : World Σ) :
  refetch_returns out ->
  (0 < pagination_limit)%Z ->
  trace w = [] ->
  is_ok (fst (begin_import out config0 pagination_limit w)) = true
  /\ batch_sizes pagination_limit
       (removelast
          (dispatched (trace (snd (begin_import out config0 pagination_limit w))))).
Proof.
  intros Hret Hlimit Htrace.
  pose proof (begin_import_finish out config0 pagination_limit w) as Hfinish.
  set (page := {| config := config0; last_read := last_read_message_id config0;
                  messages_list := backlog_messages out config0 (ext w);
                  pagination_count :=
                    Z.of_nat (length (backlog_messages out config0 (ext w))) |}) in *.
  set (w2 := Build_World _ (DOWNLOADED_IDS w) (FAILED_IDS w) (trace w)) in *.
  assert (Hshape : page_shape pagination_limit page w2).
  { left. simpl. rewrite Htrace. auto. }
  destruct (paginate_shape pagination_limit (history_messages out config0 (ext w))
              page w2 Hret Hlimit Hshape) as (page' & Hr & Hshape').
  destruct (paginate out pagination_limit page (history_messages out config0 (ext w)) w2)
    as [r w3].
  simpl in Hr, Hshape'. subst r.
  specialize (Hfinish page' w3).
  destruct (messages_list page') as [|m buffer] eqn:Hbuf.
  - rewrite (Hfinish w3 (last_read page') eq_refl eq_refl). simpl.
    split; [reflexivity |].
    destruct Hshape' as [(Hnone & _) | (_ & _ & Hc & Hrange)].
    + rewrite Hnone. exact I.
    + rewrite Hbuf in Hc. simpl in Hc. lia.
  - rewrite <- Hbuf in *.
    destruct (process_messages_ok (messages_list page') (media_types (config page'))
                (file_formats (config page')) w3 Hret) as (p & Hp).
    { rewrite Hbuf. discriminate. }
    destruct (process_messages_run out (messages_list page') (media_types (config page'))
                (file_formats (config page')) w3 Hret) as (_ & _ & _ & _ & _ & Hd & _).
    destruct (process_messages out (messages_list page') (media_types (config page'))
                (file_formats (config page')) w3) as [r w4].
    simpl in Hp, Hd. subst r.
    rewrite (Hfinish w4 p eq_refl eq_refl). simpl. split; [reflexivity |].
    rewrite Hd, removelast_last.
    destruct Hshape' as [(Hnone & _) | (_ & Hsizes & _)].
    + rewrite Hnone. exact I.
    + exact Hsizes.
Qed.

Lemma paginate_step_backlog (ids0 : list Z) (pagination_limit : Z) (page : Page)
    (message : Message) (w : World Σ) :
  refetch_returns out ->
  (0 < pagination_limit)%Z ->
  backlog_inv ids0 page w ->
  exists page',
    fst (paginate_step out pagination_limit page message w) = Ok page'
    /\ backlog_inv ids0 page' (snd (paginate_step out pagination_limit page message w)).
Proof.
  intros Hret Hlimit (Hcount & Hfrom & Hto). unfold paginate_step.
  destruct (pagination_count page =? pagination_limit)%Z eqn:Hfull; simpl.
  - apply Z.eqb_eq in Hfull.
    assert (Hbuf : messages_list page <> []).
    { intros Hnil. rewrite Hnil in Hcount. simpl in Hcount. lia. }
    unfold bind.
    destruct (process_messages_ok (messages_list page) (media_types (config page))
                (file_formats (config page)) w Hret Hbuf) as (p & Hp).
    destruct (process_messages_run out (messages_list page) (media_types (config page))
                (file_formats (config page)) w Hret) as (_ & _ & _ & _ & _ & _ & Hd & Hf).
    destruct (process_messages out (messages_list page) (media_types (config page))
                (file_formats (config page)) w) as [r w1].
    simpl in Hp, Hd, Hf. subst r. rewrite update_config_run. simpl.
    eexists. split; [reflexivity |].
    unfold backlog_inv. simpl. split; [lia |]. split.
    + intros i Hi. apply reconcile_elem in Hi as [[Hi _] | Hi]; [|right; exact Hi].
      destruct (Hfrom i Hi) as [H0 | Hfl]; [left; exact H0 |].
      right. eapply prefix_elem; eauto.
    + intros i Hi. destruct (decide (i ∈ DOWNLOADED_IDS w1)) as [Hin | Hout].
      * right. exact Hin.
      * left. apply reconcile_elem. left. split; [|exact Hout].
        destruct (Hto i Hi) as [Hc | Hdl]; [exact Hc |].
        exfalso. apply Hout. eapply prefix_elem; eauto.
  - unfold ret. simpl. eexists. split; [reflexivity |].
    unfold backlog_inv. simpl. rewrite length_app. simpl.
    split; [lia |]. split; assumption.
Qed.

Lemma paginate_backlog (ids0 : list Z) (pagination_limit : Z)
    (messages_iter : list Message) (page : Page) (w : World Σ) :
  refetch_returns out ->
  (0 < pagination_limit)%Z ->
  backlog_inv ids0 page w ->
  exists page',
    fst (paginate out pagination_limit page messages_iter w) = Ok page'
    /\ backlog_inv ids0 page' (snd (paginate out pagination_limit page messages_iter w)).
Proof.
  intros Hret Hlimit. revert page w.
  induction messages_iter as [|message rest IH]; intros page w Hinv.
  - exists page. split; [reflexivity | exact Hinv].
  - simpl paginate. unfold bind.
    destruct (paginate_step_backlog ids0 pagination_limit page message w Hret Hlimit Hinv)
      as (page1 & Hr & Hinv1).
    destruct (paginate_step out pagination_limit page message w) as [r w1].
    simpl in Hr, Hinv1. subst r. apply IH. exact Hinv1.
Qed.

Lemma begin_import_backlog (config0 : Config) (pagination_limit : Z) (w : World Σ) :
  refetch_returns out ->
  (0 < pagination_limit)%Z ->
  exists config' w',
    begin_import out config0 pagination_limit w = (Ok config', w')
    /\ (forall i, i ∈ ids_to_retry config' -> i ∈ ids_to_retry config0 \/ i ∈ FAILED_IDS w')
    /\ (forall i, i ∈ ids_to_retry config0 ->
                  i ∈ ids_to_retry config' \/ i ∈ DOWNLOADED_IDS w').
Proof.
  intros Hret Hlimit.
  pose proof (begin_import_finish out config0 pagination_limit w) as Hfinish.
  set (page := {| config := config0; last_read := last_read_message_id config0;
                  messages_list := backlog_messages out config0 (ext w);
                  pagination_count :=
                    Z.of_nat (length (backlog_messages out config0 (ext w))) |}) in *.
  set (w2 := Build_World _ (DOWNLOADED_IDS w) (FAILED_IDS w) (trace w)) in *.
  assert (Hinv : backlog_inv (ids_to_retry config0) page w2).
  { unfold backlog_inv. simpl. split; [lia |]. split; auto. }
  destruct (paginate_backlog (ids_to_retry config0) pagination_limit
              (history_messages out config0 (ext w)) page w2 Hret Hlimit Hinv)
    as (page' & Hr & (_ & Hfrom & Hto)).
  destruct (paginate out pagination_limit page (history_messages out config0 (ext w)) w2)
    as [r w3].
  simpl in Hr, Hfrom, Hto. subst r.
  specialize (Hfinish page' w3).
  destruct (messages_list page') as [|m buffer] eqn:Hbuf.
  - exists (set_last_read_message_id (config page') (last_read page')), w3.
    split; [apply Hfinish; reflexivity |]. simpl. split; assumption.
  - rewrite <- Hbuf in *.
    destruct (process_messages_ok (messages_list page') (media_types (config page'))
                (file_formats (config page')) w3 Hret) as (p & Hp).
    { rewrite Hbuf. discriminate. }
    destruct (process_messages_run out (messages_list page') (media_types (config page'))
                (file_formats (config page')) w3 Hret) as (_ & _ & _ & _ & _ & _ & Hd & Hf).
    destruct (process_messages out (messages_list page') (media_types (config page'))
                (file_formats (config page')) w3) as [r w4].
    simpl in Hp, Hd, Hf. subst r.
    exists (set_last_read_message_id (config page') p), w4.
    split; [apply Hfinish; reflexivity |]. simpl. split.
    + intros i Hi. destruct (Hfrom i Hi) as [H0 | Hfl]; [left; exact H0 |].
      right. eapply prefix_elem; eauto.
    + intros i Hi. destruct (Hto i Hi) as [Hc | Hdl]; [left; exact Hc |].
      right. eapply prefix_elem; eauto.
Qed.

(** X13. The reconciliation over a whole run of [main], checkpoints
    included, for a client whose re-fetch returns: the run returns, and
    the backlog written at the end holds the ids of the backlog the run
    started with that are not in [DOWNLOADED_IDS], and the ids of
    [FAILED_IDS]. *)
Theorem main_reconciles (config0 : Config) (w : World Σ) :
  refetch_returns out ->
  exists config',
    fst (main out config0 w) = Ok config'
    /\ forall i, i ∈ ids_to_retry config' <->
                 (i ∈ ids_to_retry config0 /\ i ∉ DOWNLOADED_IDS (snd (main out config0 w)))
                 \/ i ∈ FAILED_IDS (snd (main out config0 w)).
Proof.
  intros Hret.
  destruct (begin_import_backlog config0 100 w Hret ltac:(lia))
    as (config1 & w1 & Hrun & Hfrom & Hto).
  unfold main, bind. rewrite Hrun, update_config_run. simpl.
  eexists. split; [reflexivity |]. simpl.
  intros i. rewrite reconcile_elem. split.
  - intros [[Hi Hout] | Hfl]; [|right; exact Hfl].
    destruct (Hfrom i Hi) as [H0 | Hfl]; [left; auto | right; exact Hfl].
  - intros [[Hi Hout] | Hfl]; [|right; exact Hfl].
    left. split; [|exact Hout]. destruct (Hto i Hi) as [Hc | Hdl]; [exact Hc | tauto].
Qed.

End Runs.

(** ** The module on concrete runs *)

Lemma sim_refetch_keeps_id : refetch_keeps_id Sim.outside.
Proof.
  intros chat_id i σ. simpl. eexists. split; [reflexivity |].
  unfold Sim.find_message.
  destruct (List.find (fun m => (id m =? i)%Z) (Sim.by_id σ)) as [m|] eqn:Hfind.
  - apply List.find_some in Hfind as [_ Hid]. apply Z.eqb_eq. exact Hid.
  - reflexivity.
Qed.

Lemma sim_refetch_returns : refetch_returns Sim.outside.
Proof. intros chat_id i σ. reflexivity. Qed.

Lemma process_messages_watermark_witness :
  exists last,
    fst (process_messages Sim.outside
           [Sim.photo_message 4 "a.jpg"; Sim.photo_message 9 "b.jpg";
            Sim.empty_message 1 6]
           ["photo"] ∅
           (Sim.start [Raise OtherException] [] [] [])) = Ok last
    /\ last ∈ [4; 9; 6]%Z
    /\ forall i, i ∈ [4; 9; 6]%Z -> (i <= last)%Z.
Proof.
  apply (process_messages_watermark Sim.outside
           [Sim.photo_message 4 "a.jpg"; Sim.photo_message 9 "b.jpg";
            Sim.empty_message 1 6]
           ["photo"] ∅ (Sim.start [Raise OtherException] [] [] [])
           sim_refetch_keeps_id).
  discriminate.
Defined.

Lemma download_media_retry_bound_witness :
  count is_download
    (trace (snd (download_media Sim.outside (Sim.photo_message 7 "a.jpg") ["photo"] ∅
                   (Sim.start [Raise BadRequest; Raise TypeError; Raise OtherException]
                      [] [Sim.photo_message 7 "a.jpg"] [])))) <= 3
  /\ exists b i target e,
       unclassified e = true
       /\ head (trace (snd (download_media Sim.outside (Sim.photo_message 7 "a.jpg")
                              ["photo"] ∅
                              (Sim.start
                                 [Raise BadRequest; Raise TypeError; Raise OtherException]
                                 [] [Sim.photo_message 7 "a.jpg"] []))))
          = Some (EvDownload b i target (Raise e))
       /\ FAILED_IDS (snd (download_media Sim.outside (Sim.photo_message 7 "a.jpg")
                             ["photo"] ∅
                             (Sim.start
                                [Raise BadRequest; Raise TypeError; Raise OtherException]
                                [] [Sim.photo_message 7 "a.jpg"] [])))
          = [] ++ [i]
       /\ fst (download_media Sim.outside (Sim.photo_message 7 "a.jpg") ["photo"] ∅
                 (Sim.start [Raise BadRequest; Raise TypeError; Raise OtherException]
                    [] [Sim.photo_message 7 "a.jpg"] []))
          = Ok i.
Proof.
  destruct (download_media_retry_bound Sim.outside (Sim.photo_message 7 "a.jpg")
              ["photo"] ∅
              (Sim.start [Raise BadRequest; Raise TypeError; Raise OtherException]
                 [] [Sim.photo_message 7 "a.jpg"] []))
    as (_ & Hcalls & Hfatal).
  split.
  - apply Hcalls. intros m _.
    apply (Nat.le_trans _ _ _ (carried_length m ["photo"])). simpl. lia.
  - apply Hfatal. vm_compute. discriminate.
Defined.

Lemma download_media_no_media_witness :
  download_media Sim.outside (Sim.empty_message 1 5) ["photo"; "video"]
    (file_formats (Sim.a_config 0 [])) (Sim.start [] [] [] [])
  = (Ok 5%Z,
     Build_World (ext (Sim.start [] [] [] [])) [] [] [EvAttempt 5 0]).
Proof.
  apply (download_media_no_media Sim.outside (Sim.empty_message 1 5)).
  reflexivity.
Defined.

(** Against C7 as stated: the id of a message without media is not put
    on [DOWNLOADED_IDS]. *)
Lemma no_media_not_recorded :
  media (Sim.empty_message 1 5) = None
  /\ fst (download_media Sim.outside (Sim.empty_message 1 5) ["photo"; "video"]
            (file_formats (Sim.a_config 0 [])) (Sim.start [] [] [] [])) = Ok 5%Z
  /\ 5%Z ∉ DOWNLOADED_IDS
             (snd (download_media Sim.outside (Sim.empty_message 1 5) ["photo"; "video"]
                     (file_formats (Sim.a_config 0 [])) (Sim.start [] [] [] []))).
Proof.
  split; [reflexivity |]. split; [reflexivity |].
  vm_compute. intros H. inversion H.
Qed.

Lemma download_dedup_on_collision_witness :
  download_type Sim.outside (Sim.photo_message 7 "a.jpg") ∅ "photo"
    {| mime_type := None; file_name := Some "a.jpg"; date := None |}
    (Sim.start [] ["/app/photo/a.jpg"] [] [])
  = (Ok tt,
     Build_World
       {| Sim.script := []; Sim.files := ["/app/photo/a.jpg"; "/app/photo/a.jpg.1"];
          Sim.by_id := []; Sim.history := [] |}
       [7%Z] []
       [EvDedup (Some "/app/photo/a.jpg.1");
        EvDownload true 7 "/app/photo/a.jpg.1" (Ok (Some "/app/photo/a.jpg.1"))])
  /\ download_type Sim.outside (Sim.photo_message 7 "a.jpg") ∅ "photo"
       {| mime_type := None; file_name := Some "a.jpg"; date := None |}
       (Sim.start [] [] [] [])
     = (Ok tt,
        Build_World
          {| Sim.script := []; Sim.files := ["/app/photo/a.jpg"];
             Sim.by_id := []; Sim.history := [] |}
          [7%Z] []
          [EvDownload false 7 "/app/photo/a.jpg" (Ok (Some "/app/photo/a.jpg"))]).
Proof.
  split.
  - apply (proj1 (download_dedup_on_collision Sim.outside (Sim.photo_message 7 "a.jpg")
                    ["photo"] ∅ (Sim.start [] ["/app/photo/a.jpg"] [] []))
             "photo" _ "/app/photo/a.jpg" None (Some "/app/photo/a.jpg.1")
             {| Sim.script := []; Sim.files := ["/app/photo/a.jpg"; "/app/photo/a.jpg.1"];
                Sim.by_id := []; Sim.history := [] |});
      reflexivity.
  - apply (proj1 (proj2 (download_dedup_on_collision Sim.outside
                           (Sim.photo_message 7 "a.jpg") ["photo"] ∅
                           (Sim.start [] [] [] [])))
             "photo" _ "/app/photo/a.jpg" None (Some "/app/photo/a.jpg"));
      reflexivity.
Defined.

(** Against C8 as stated: a download to a free name succeeds, the id is
    recorded, and no dedup step is run. *)
Lemma fresh_download_skips_dedup :
  fst (download_media Sim.outside (Sim.photo_message 7 "a.jpg") ["photo"] ∅
         (Sim.start [] [] [] [])) = Ok 7%Z
  /\ trace (snd (download_media Sim.outside (Sim.photo_message 7 "a.jpg") ["photo"] ∅
                   (Sim.start [] [] [] [])))
     = [EvDownload false 7 "/app/photo/a.jpg" (Ok (Some "/app/photo/a.jpg"));
        EvAttempt 7 0]
  /\ DOWNLOADED_IDS (snd (download_media Sim.outside (Sim.photo_message 7 "a.jpg")
                            ["photo"] ∅ (Sim.start [] [] [] []))) = [7%Z]
  /\ count is_success
       (trace (snd (download_media Sim.outside (Sim.photo_message 7 "a.jpg") ["photo"] ∅
                      (Sim.start [] [] [] [])))) = 1
  /\ count is_dedup
       (trace (snd (download_media Sim.outside (Sim.photo_message 7 "a.jpg") ["photo"] ∅
                      (Sim.start [] [] [] [])))) = 0.
Proof. repeat split; reflexivity. Qed.

(** C3. With a page size of 2 and a history of seven messages the
    dispatcher is called on two, then on three messages before the final
    batch: after a checkpoint the counter restarts at 0 while the buffer
    already holds the message that triggered it. *)
Theorem begin_import_batch_sizes :
  dispatched
    (trace (snd (begin_import Sim.outside (Sim.a_config 0 []) 2
                   (Sim.start [] [] []
                      (map (fun i => Sim.photo_message i "a.jpg") [1; 2; 3; 4; 5; 6; 7]%Z)))))
  = [[1; 2]; [3; 4; 5]; [6; 7]]%Z
  /\ written
       (trace (snd (begin_import Sim.outside (Sim.a_config 0 []) 2
                      (Sim.start [] [] []
                         (map (fun i => Sim.photo_message i "a.jpg")
                              [1; 2; 3; 4; 5; 6; 7]%Z)))))
     = [5; 2]%Z.
Proof. split; vm_compute; reflexivity. Qed.


(** The same run, in full: the backlog message 3 and the first message
    of the history make the first batch. *)
Example begin_import_with_backlog :
  dispatched
    (trace (snd (begin_import Sim.outside (Sim.a_config 5 [3]%Z) 2
                   (Sim.start [Raise OtherException] []
                      [Sim.photo_message 3 "c.jpg"]
                      (map (fun i => Sim.photo_message i "a.jpg") [5; 6; 7; 8; 9]%Z)))))
  = [[3; 5]; [6; 7; 8]; [9]]%Z
  /\ FAILED_IDS
       (snd (begin_import Sim.outside (Sim.a_config 5 [3]%Z) 2
               (Sim.start [Raise OtherException] []
                  [Sim.photo_message 3 "c.jpg"]
                  (map (fun i => Sim.photo_message i "a.jpg") [5; 6; 7; 8; 9]%Z))))
     = [3%Z].
Proof. split; vm_compute; reflexivity. Qed.

(** A first batch made of backlog messages only: the position written at
    the first checkpoint is the greatest id of that batch, which is below
    the position the run started from. *)
Example first_checkpoint_below_start :
  exists config',
    fst (begin_import Sim.outside (Sim.a_config 100 [42]%Z) 1
           (Sim.start [] [] [Sim.photo_message 42 "c.jpg"]
              [Sim.photo_message 101 "a.jpg"])) = Ok config'
    /\ positions config'
         (trace (snd (begin_import Sim.outside (Sim.a_config 100 [42]%Z) 1
                        (Sim.start [] [] [Sim.photo_message 42 "c.jpg"]
                           [Sim.photo_message 101 "a.jpg"]))))
       = [42; 101]%Z.
Proof. eexists. split; vm_compute; reflexivity. Qed.


(** How a backlog comes to hold such an id: [FAILED_IDS] is shared by the
    configurations that one process works through, so the id that failed
    under the first configuration is written into the backlog of the
    second. *)
Example failed_ids_leak_across_configs :
  exists config' w',
    main Sim.outside (Sim.a_config 5 []%Z)
      (Build_World
         {| Sim.script := []; Sim.files := []; Sim.by_id := []; Sim.history := [] |}
         (DOWNLOADED_IDS
            (snd (main Sim.outside (Sim.a_config 999 []%Z)
                    (Sim.start [Raise OtherException] [] []
                       [Sim.photo_message 1000 "c.jpg"]))))
         (FAILED_IDS
            (snd (main Sim.outside (Sim.a_config 999 []%Z)
                    (Sim.start [Raise OtherException] [] []
                       [Sim.photo_message 1000 "c.jpg"]))))
         [])
    = (Ok config', w')
    /\ ids_to_retry config' = [1000%Z].
Proof. eexists. eexists. split; [vm_compute; reflexivity | reflexivity]. Qed.

(** ** Where a download goes *)

Lemma append_assoc (a b c : string) : (a +:+ b) +:+ c = a +:+ (b +:+ c).
Proof.
  induction a as [|x a IH]; [reflexivity |].
  change (String x ((a +:+ b) +:+ c) = String x (a +:+ (b +:+ c))).
  f_equal. exact IH.
Qed.

Lemma join2_absolute (path b : string) :
  Py.startswith_sep b = true -> Py.join2 path b = b.
Proof. intros H. unfold Py.join2. rewrite H. reflexivity. Qed.

Lemma join2_relative (path b : string) :
  Py.startswith_sep b = false -> exists rest, Py.join2 path b = path +:+ rest.
Proof.
  intros H. unfold Py.join2. rewrite H.
  destruct (String.eqb path "" || Py.endswith_sep path); eauto.
Qed.

(** X2. A media object whose [file_name] is absolute is stored under
    that very name, outside [THIS_DIR/_type]: [os.path.join] restarts at
    an absolute component.  This holds for every type but [voice] and
    [video_note], whose file names are made up from the date. *)
Theorem get_media_meta_absolute_name (THIS_DIR : string) (media_obj : MediaObj)
    (_type name : string) :
  _type ∉ timestamp_named ->
  file_name media_obj = Some name ->
  Py.startswith_sep name = true ->
  (_type ∉ format_restricted ->
   _get_media_meta THIS_DIR media_obj _type = Ok (name, None))
  /\ forall path file_format,
       _get_media_meta THIS_DIR media_obj _type = Ok (path, file_format) ->
       path = name.
Proof.
  intros Ht Hname Habs. apply one_of_false in Ht.
  unfold _get_media_meta. rewrite Ht, Hname. simpl.
  unfold Py.path_join. simpl. rewrite (join2_absolute _ name Habs).
  split.
  - intros Hr. apply one_of_false in Hr. rewrite Hr. reflexivity.
  - intros path file_format.
    destruct (Py.one_of _type format_restricted); simpl.
    + destruct (mime_subtype media_obj); simpl; [|discriminate].
      intros H. inversion H. reflexivity.
    + intros H. inversion H. reflexivity.
Qed.

Lemma get_media_meta_absolute_name_witness :
  (_get_media_meta "/app" {| mime_type := None; file_name := Some "/etc/cron.d/job";
                             date := None |} "photo"
   = Ok ("/etc/cron.d/job", None))
  /\ forall path file_format,
       _get_media_meta "/app" {| mime_type := None; file_name := Some "/etc/cron.d/job";
                                 date := None |} "photo" = Ok (path, file_format) ->
       path = "/etc/cron.d/job".
Proof.
  destruct (get_media_meta_absolute_name "/app"
              {| mime_type := None; file_name := Some "/etc/cron.d/job"; date := None |}
              "photo" "/etc/cron.d/job") as [Hphoto Hany].
  - apply one_of_false. reflexivity.
  - reflexivity.
  - reflexivity.
  - split; [|exact Hany]. apply Hphoto. apply one_of_false. reflexivity.
Defined.

(** X3. When neither the type nor the file name is absolute, the path
    that [_get_media_meta] returns begins with [THIS_DIR]. *)
Theorem get_media_meta_under_this_dir (THIS_DIR : string) (media_obj : MediaObj)
    (_type path : string) (file_format : option string) :
  Py.startswith_sep _type = false ->
  (forall name, file_name media_obj = Some name -> Py.startswith_sep name = false) ->
  _get_media_meta THIS_DIR media_obj _type = Ok (path, file_format) ->
  exists rest, path = THIS_DIR +:+ rest.
Proof.
  intros Ht Hname.
  assert (Hunder : forall name, Py.startswith_sep name = false ->
                     exists rest, Py.path_join THIS_DIR [_type; name] = THIS_DIR +:+ rest).
  { intros name Hn. unfold Py.path_join. simpl.
    destruct (join2_relative THIS_DIR _type Ht) as (r1 & ->).
    destruct (join2_relative (THIS_DIR +:+ r1) name Hn) as (r2 & ->).
    exists (r1 +:+ r2). apply append_assoc. }
  unfold _get_media_meta.
  destruct (if Py.one_of _type format_restricted
            then rbind (mime_subtype media_obj) (fun f => Ok (Some f))
            else Ok None) as [format|e]; simpl; [|discriminate].
  destruct (Py.one_of _type timestamp_named).
  - destruct (mime_subtype media_obj) as [f|e]; simpl; [|discriminate].
    destruct (date media_obj) as [iso|]; [|discriminate].
    intros H. inversion H; subst. apply Hunder.
    destruct _type as [|c rest]; [reflexivity | exact Ht].
  - intros H. inversion H; subst. apply Hunder.
    destruct (file_name media_obj) as [name|]; [apply Hname; reflexivity | reflexivity].
Qed.

Lemma get_media_meta_under_this_dir_witness :
  exists rest, "/app/voice/voice_2024-05-01T10:00:00.ogg" = "/app" +:+ rest.
Proof.
  apply (get_media_meta_under_this_dir "/app"
           {| mime_type := Some "audio/ogg"; file_name := None;
              date := Some "2024-05-01T10:00:00" |}
           "voice" "/app/voice/voice_2024-05-01T10:00:00.ogg" (Some "ogg")).
  - reflexivity.
  - intros name H. discriminate.
  - reflexivity.
Defined.

(** ** Passes, pauses and give-ups of [download_media] *)

Section Pauses.

Context {Σ : Type} (out : Outside Σ).

Lemma slept_filter (tr : list Event) : slept tr = slept (List.filter is_pause tr).
Proof.
  induction tr as [|ev rest IH]; [reflexivity |].
  destruct ev; simpl; rewrite IH; reflexivity.
Qed.

Lemma attempt_pause (message : Message) (media_types : list string)
    (file_formats : gmap string (list string)) (retry : nat) (w : World Σ) :
  match fst (attempt out message media_types file_formats retry w) with
  | Ok (Continue _) | Raise _ =>
      count is_pause (trace (snd (attempt out message media_types file_formats retry w)))
      = S (count is_pause (trace w))
      /\ (slept (trace w)
          <= slept (trace (snd (attempt out message media_types file_formats retry w)))
          <= slept (trace w) + 5)%Z
  | _ =>
      count is_pause (trace (snd (attempt out message media_types file_formats retry w)))
      = count is_pause (trace w)
      /\ slept (trace (snd (attempt out message media_types file_formats retry w)))
         = slept (trace w)
  end.
Proof.
  unfold attempt, bind, emit, try_except. simpl.
  destruct (media message) as [kind|]; simpl; [|split; reflexivity].
  set (w0 := Build_World (ext w) (DOWNLOADED_IDS w) (FAILED_IDS w)
               (EvAttempt (id message) retry :: trace w)).
  pose proof (for_types_spec out message file_formats media_types w0) as Hb.
  destruct Hb as (_ & _ & Hp & _).
  specialize (Hp is_pause ltac:(split; reflexivity)).
  unfold same_filtered in Hp. simpl in Hp.
  assert (Hc : count is_pause
                 (trace (snd (for_types out message file_formats media_types w0)))
               = count is_pause (trace w)).
  { rewrite !count_filter, Hp. reflexivity. }
  assert (Hs : slept (trace (snd (for_types out message file_formats media_types w0)))
               = slept (trace w)).
  { rewrite slept_filter, Hp, <- slept_filter. reflexivity. }
  unfold bind, ret.
  destruct (for_types out message file_formats media_types w0) as [[[]|e] w1];
    simpl in Hc, Hs |- *; [split; assumption |].
  destruct e; unfold call, emit, append_failed, bind, ret, lift; simpl;
    try (split; assumption).
  - destruct (client_get_message out (chat message) (id message) (ext w1))
      as [[m|e'] σ]; simpl.
    + destruct (Nat.eqb retry 2); simpl; rewrite Hc, Hs; split; lia.
    + rewrite Hc, Hs. split; lia.
  - destruct (Nat.eqb retry 2); simpl; rewrite Hc, Hs; split; lia.
Qed.

(** A call raises only the error of a re-fetch. *)
Lemma retry_loop_raises (media_types : list string)
    (file_formats : gmap string (list string)) (retries : list nat)
    (message : Message) (w : World Σ) (e : exn) :
  fst (retry_loop out message media_types file_formats retries w) = Raise e ->
  exists chat_id i σ, fst (client_get_message out chat_id i σ) = Raise e.
Proof.
  revert message w. induction retries as [|retry rest IH]; intros message w.
  - discriminate.
  - simpl retry_loop. unfold bind.
    pose proof (attempt_spec out message media_types file_formats retry w) as Hpass.
    destruct (attempt out message media_types file_formats retry w) as [[exit|e'] w1];
      simpl in Hpass.
    + destruct exit as [v | | m]; simpl; try discriminate. apply IH.
    + simpl. intros H. inversion H; subst e'.
      destruct Hpass as (_ & _ & _ & _ & _ & (Hwhy & _)). exact Hwhy.
Qed.

Lemma retry_loop_pauses (media_types : list string)
    (file_formats : gmap string (list string)) (retries : list nat)
    (message : Message) (w : World Σ) :
  exists a p,
    count is_attempt
      (trace (snd (retry_loop out message media_types file_formats retries w)))
    = count is_attempt (trace w) + a
    /\ count is_pause
         (trace (snd (retry_loop out message media_types file_formats retries w)))
       = count is_pause (trace w) + p
    /\ a <= length retries
    /\ (retries <> [] -> 1 <= a)
    /\ p <= a <= p + 1
    /\ (is_ok (fst (retry_loop out message media_types file_formats retries w)) = true ->
        p = a -> a = length retries)
    /\ (is_ok (fst (retry_loop out message media_types file_formats retries w)) = false ->
        p = a)
    /\ (slept (trace w)
        <= slept (trace (snd (retry_loop out message media_types file_formats retries w)))
        <= slept (trace w) + 5 * Z.of_nat p)%Z.
Proof.
  revert message w. induction retries as [|retry rest IH]; intros message w.
  - exists 0, 0. simpl. repeat split; try lia; congruence.
  - simpl retry_loop. unfold bind.
    pose proof (attempt_spec out message media_types file_formats retry w) as Hpass.
    pose proof (attempt_pause message media_types file_formats retry w) as Hpause.
    destruct (attempt out message media_types file_formats retry w) as [[exit|e] w1];
      simpl in Hpass, Hpause.
    2:{ (* the re-fetch raised: the pass ends in its pause *)
      destruct Hpass as (_ & Ha & _). destruct Hpause as [Hc Hs].
      exists 1, 1. simpl. rewrite Ha, Hc.
      split; [lia |]. split; [lia |]. split; [lia |]. split; [lia |]. split; [lia |].
      split; [discriminate |]. split; [reflexivity | lia]. }
    destruct Hpass as (_ & Ha & _).
    destruct exit as [v | | m]; simpl.
    + destruct Hpause as [Hc Hs]. exists 1, 0. rewrite Ha, Hc, Hs.
      split; [lia |]. split; [lia |]. split; [lia |]. split; [lia |]. split; [lia |].
      split; [lia |]. split; [discriminate | lia].
    + destruct Hpause as [Hc Hs]. exists 1, 0. rewrite Ha, Hc, Hs.
      split; [lia |]. split; [lia |]. split; [lia |]. split; [lia |]. split; [lia |].
      split; [lia |]. split; [discriminate | lia].
    + destruct Hpause as [Hc Hs].
      destruct (IH m w1) as (a & p & Ha' & Hp' & Hlen & _ & Hap & Hall & Hraise & Hs').
      exists (S a), (S p). rewrite Ha', Hp', Ha, Hc.
      split; [lia |]. split; [lia |]. split; [simpl; lia |]. split; [lia |].
      split; [lia |].
      split; [intros Hok Heq; simpl; rewrite (Hall Hok); lia |].
      split; [intros Hno; rewrite (Hraise Hno); reflexivity | lia].
Qed.

(** X4. A call of [download_media] makes one, two or three passes;
    between two passes it pauses exactly once (it fetches the message again
    or sleeps).  It raises only when a re-fetch raises, and then that
    re-fetch is the pause of its last pass.  When it returns, there is a
    pause after the last pass only if all three passes failed.  It sleeps
    five seconds at most per pause, so fifteen at most; and it returns
    whenever the re-fetch does. *)
Theorem download_media_pauses (message : Message) (media_types : list string)
    (file_formats : gmap string (list string)) (w : World Σ) :
  exists passes pauses,
    count is_attempt (trace (snd (download_media out message media_types file_formats w)))
    = count is_attempt (trace w) + passes
    /\ count is_pause (trace (snd (download_media out message media_types file_formats w)))
       = count is_pause (trace w) + pauses
    /\ 1 <= passes <= 3
    /\ pauses <= passes <= pauses + 1
    /\ (is_ok (fst (download_media out message media_types file_formats w)) = true ->
        pauses = passes -> passes = 3)
    /\ (is_ok (fst (download_media out message media_types file_formats w)) = false ->
        pauses = passes
        /\ exists chat_id i σ e,
             fst (client_get_message out chat_id i σ) = Raise e
             /\ fst (download_media out message media_types file_formats w) = Raise e)
    /\ (refetch_returns out ->
        is_ok (fst (download_media out message media_types file_formats w)) = true)
    /\ (slept (trace w)
        <= slept (trace (snd (download_media out message media_types file_formats w)))
        <= slept (trace w) + 5 * Z.of_nat pauses)%Z
    /\ (slept (trace (snd (download_media out message media_types file_formats w)))
        <= slept (trace w) + 15)%Z.
Proof.
  unfold download_media.
  destruct (retry_loop_pauses media_types file_formats (seq 0 3) message w)
    as (a & p & Ha & Hp & Hlen & Hone & Hap & Hall & Hraise & Hs).
  destruct (retry_loop_spec out media_types file_formats (seq 0 3) message w)
    as (Hret & _).
  pose proof (retry_loop_raises media_types file_formats (seq 0 3) message w) as Hwhy.
  simpl length in *. specialize (Hone ltac:(discriminate)).
  exists a, p.
  split; [exact Ha |]. split; [exact Hp |]. split; [lia |]. split; [lia |].
  split; [exact Hall |].
  split.
  { intros Hno. split; [exact (Hraise Hno) |].
    destruct (fst (retry_loop out message media_types file_formats (seq 0 3) w))
      as [i|e] eqn:Hr; [discriminate |].
    destruct (Hwhy e eq_refl) as (chat_id & i & σ & He). exists chat_id, i, σ, e. auto. }
  split.
  { intros Hr. destruct (Hret Hr) as (i & ->). reflexivity. }
  split; [exact Hs | lia].
Qed.

Lemma retry_loop_failed_once (media_types : list string)
    (file_formats : gmap string (list string)) (n k : nat)
    (message : Message) (w : World Σ) :
  k + n <= 3 ->
  FAILED_IDS (snd (retry_loop out message media_types file_formats (seq k n) w))
  = FAILED_IDS w
  \/ exists i,
       FAILED_IDS (snd (retry_loop out message media_types file_formats (seq k n) w))
       = FAILED_IDS w ++ [i]
       /\ fst (retry_loop out message media_types file_formats (seq k n) w) = Ok i.
Proof.
  revert k message w. induction n as [|n IH]; intros k message w Hk.
  - left. reflexivity.
  - simpl seq. simpl retry_loop. unfold bind.
    pose proof (attempt_spec out message media_types file_formats k w) as Hpass.
    destruct (attempt out message media_types file_formats k w) as [[exit|e] w1];
      simpl in Hpass.
    2:{ destruct Hpass as (_ & _ & _ & _ & _ & (_ & _ & Hf)). left. exact Hf. }
    destruct Hpass as (_ & _ & _ & _ & _ & Hexit).
    destruct exit as [v | | m]; simpl.
    + destruct Hexit as (_ & _ & ->). left. reflexivity.
    + destruct Hexit as [(_ & [Hf | Hf]) | (b & t & e & _ & _ & _ & Hf)].
      * left. exact Hf.
      * right. exists (id message). auto.
      * right. exists (id message). auto.
    + destruct Hexit as (_ & _ & _ & Hf).
      destruct (Nat.eqb k 2) eqn:Hk2.
      * apply Nat.eqb_eq in Hk2. assert (n = 0) as -> by lia.
        right. exists (id m). simpl. auto.
      * rewrite app_nil_r in Hf.
        destruct (IH (S k) m w1 ltac:(lia)) as [Hf' | (i & Hf' & Hr)].
        -- left. congruence.
        -- right. exists i. split; [congruence | exact Hr].
Qed.

(** X5. A call of [download_media] appends at most one id to
    [FAILED_IDS], whatever the number of passes and of media the message
    carries, and the id it appends is the id it returns. *)
Theorem download_media_fails_once (message : Message) (media_types : list string)
    (file_formats : gmap string (list string)) (w : World Σ) :
  FAILED_IDS (snd (download_media out message media_types file_formats w)) = FAILED_IDS w
  \/ exists i,
       FAILED_IDS (snd (download_media out message media_types file_formats w))
       = FAILED_IDS w ++ [i]
       /\ fst (download_media out message media_types file_formats w) = Ok i.
Proof.
  unfold download_media. apply retry_loop_failed_once. lia.
Qed.

Lemma for_types_skip (message : Message) (file_formats : gmap string (list string))
    (media_types : list string) (w : World Σ) :
  (forall _type _media,
     _type ∈ media_types ->
     attachments message !! _type = Some _media ->
     exists file_name file_format,
       _get_media_meta (this_dir out) _media _type = Ok (file_name, file_format)
       /\ _can_download _type file_formats file_format = Ok false) ->
  for_types out message file_formats media_types w = (Ok tt, w).
Proof.
  induction media_types as [|_type rest IH]; intros Hskip; [reflexivity |].
  assert (Hrest : for_types out message file_formats rest w = (Ok tt, w)).
  { apply IH. intros t m Ht. apply Hskip. right. exact Ht. }
  simpl for_types.
  destruct (attachments message !! _type) as [_media|] eqn:Hattr; [|exact Hrest].
  destruct (Hskip _type _media ltac:(left) Hattr) as (name & format & Hmeta & Hgate).
  unfold bind at 1. unfold download_type, bind, lift.
  rewrite Hmeta. simpl. rewrite Hgate. simpl. exact Hrest.
Qed.

(** X6. A message with media of which nothing is to be fetched (none of
    the requested types is present, or every one present has a format the
    allowlist rejects) costs one pass and leaves no record: nothing is
    downloaded, neither global list changes, the id is returned. *)
Theorem download_media_skips (message : Message) (media_types : list string)
    (file_formats : gmap string (list string)) (w : World Σ) :
  media message <> None ->
  (forall _type _media,
     _type ∈ media_types ->
     attachments message !! _type = Some _media ->
     exists file_name file_format,
       _get_media_meta (this_dir out) _media _type = Ok (file_name, file_format)
       /\ _can_download _type file_formats file_format = Ok false) ->
  download_media out message media_types file_formats w
  = (Ok (id message),
     Build_World (ext w) (DOWNLOADED_IDS w) (FAILED_IDS w)
       (EvAttempt (id message) 0 :: trace w)).
Proof.
  intros Hmedia Hskip. unfold download_media. simpl.
  unfold bind at 1. unfold attempt, bind, emit, try_except. simpl.
  destruct (media message) as [kind|]; [|congruence].
  unfold bind. rewrite (for_types_skip _ _ _ _ Hskip). reflexivity.
Qed.

Lemma for_types_absent (message : Message) (file_formats : gmap string (list string))
    (absent rest : list string) (w : World Σ) :
  (forall _type, _type ∈ absent -> attachments message !! _type = None) ->
  for_types out message file_formats (absent ++ rest) w
  = for_types out message file_formats rest w.
Proof.
  induction absent as [|t absent IH]; intros Habsent; [reflexivity |].
  simpl. rewrite (Habsent t) by left. apply IH.
  intros t' Ht'. apply Habsent. right. exact Ht'.
Qed.

Lemma get_media_meta_raises (THIS_DIR : string) (media_obj : MediaObj)
    (_type : string) (e : exn) :
  _get_media_meta THIS_DIR media_obj _type = Raise e -> e = AttributeError.
Proof.
  unfold _get_media_meta, mime_subtype.
  destruct (mime_type media_obj) as [m|].
  - destruct (index_last_ok (Py.split "/" m) (split_not_nil _ _)) as [f ->].
    destruct (Py.one_of _type format_restricted); simpl;
      (destruct (Py.one_of _type timestamp_named); simpl; [|discriminate]);
      (destruct (date media_obj); [discriminate | congruence]).
  - destruct (Py.one_of _type format_restricted); simpl; [congruence |].
    destruct (Py.one_of _type timestamp_named); simpl; [congruence | discriminate].
Qed.

Lemma can_download_raises (_type : string) (file_formats : gmap string (list string))
    (file_format : option string) (e : exn) :
  _can_download _type file_formats file_format = Raise e ->
  e = KeyError \/ e = IndexError.
Proof.
  unfold _can_download.
  destruct (Py.one_of _type format_restricted); [|discriminate].
  destruct (file_formats !! _type) as [allowed|]; [|intros H; left; congruence].
  destruct (negb (Py.contains file_format allowed)); [|discriminate].
  destruct allowed as [|first rest]; simpl; [intros H; right; congruence |].
  destruct (negb (String.eqb first "all")); discriminate.
Qed.

(** X7. When the first requested medium that a message carries cannot be
    classified ([_get_media_meta] or [_can_download] raises: no mime type,
    no date on a voice note, no allowlist or an empty one), the call gives
    the message up in its first pass, before any download: the id is
    appended to [FAILED_IDS] and returned, and the types after it are not
    looked at. *)
Theorem download_media_gives_up (message : Message) (absent later : list string)
    (_type : string) (_media : MediaObj) (file_formats : gmap string (list string))
    (e : exn) (w : World Σ) :
  media message <> None ->
  (forall t, t ∈ absent -> attachments message !! t = None) ->
  attachments message !! _type = Some _media ->
  rbind (_get_media_meta (this_dir out) _media _type)
        (fun meta => _can_download _type file_formats (snd meta)) = Raise e ->
  download_media out message (absent ++ _type :: later) file_formats w
  = (Ok (id message),
     Build_World (ext w) (DOWNLOADED_IDS w) (FAILED_IDS w ++ [id message])
       (EvAttempt (id message) 0 :: trace w)).
Proof.
  intros Hmedia Habsent Hattr Hraise.
  assert (Hu : unclassified e = true).
  { destruct (_get_media_meta (this_dir out) _media _type) as [[name format]|e'] eqn:Hm;
      simpl in Hraise.
    - apply can_download_raises in Hraise as [-> | ->]; reflexivity.
    - inversion Hraise; subst e'. apply get_media_meta_raises in Hm. subst. reflexivity. }
  unfold download_media. simpl.
  unfold bind at 1. unfold attempt, bind, emit, try_except. simpl.
  destruct (media message) as [kind|]; [|congruence].
  unfold bind. rewrite (for_types_absent _ _ _ _ _ Habsent).
  simpl for_types. rewrite Hattr. unfold bind, download_type, bind, lift.
  destruct (_get_media_meta (this_dir out) _media _type) as [[name format]|e'];
    simpl in Hraise |- *.
  - rewrite Hraise. simpl. destruct e; try discriminate; reflexivity.
  - inversion Hraise; subst e'. destruct e; try discriminate; reflexivity.
Qed.

End Pauses.

Lemma download_media_skips_witness :
  download_media Sim.outside
    {| id := 8; chat := 1; media := Some "document";
       attachments := {[ "document" := {| mime_type := Some "application/zip";
                                           file_name := Some "a.zip";
                                           date := None |} ]} |}
    ["photo"; "document"] (file_formats (Sim.a_config 0 [])) (Sim.start [] [] [] [])
  = (Ok 8%Z, Build_World (ext (Sim.start [] [] [] [])) [] [] [EvAttempt 8 0]).
Proof.
  apply (download_media_skips Sim.outside
           {| id := 8; chat := 1; media := Some "document";
              attachments := {[ "document" := {| mime_type := Some "application/zip";
                                                  file_name := Some "a.zip";
                                                  date := None |} ]} |}).
  - discriminate.
  - intros t m Ht Hattr. simpl in Hattr.
    apply elem_of_cons in Ht as [-> | Ht].
    + vm_compute in Hattr. discriminate.
    + apply list_elem_of_singleton in Ht. subst t.
      vm_compute in Hattr. inversion Hattr; subst m.
      eexists _, _. split; vm_compute; reflexivity.
Defined.

Lemma download_media_gives_up_witness :
  download_media Sim.outside
    {| id := 8; chat := 1; media := Some "video";
       attachments := {[ "video" := {| mime_type := None;
                                        file_name := Some "a.mp4";
                                        date := None |} ]} |}
    (["photo"] ++ "video" :: ["audio"]) (file_formats (Sim.a_config 0 []))
    (Sim.start [] [] [] [])
  = (Ok 8%Z, Build_World (ext (Sim.start [] [] [] [])) [] ([] ++ [8%Z]) [EvAttempt 8 0]).
Proof.
  apply (download_media_gives_up Sim.outside
           {| id := 8; chat := 1; media := Some "video";
              attachments := {[ "video" := {| mime_type := None;
                                               file_name := Some "a.mp4";
                                               date := None |} ]} |}
           ["photo"] ["audio"] "video"
           {| mime_type := None; file_name := Some "a.mp4"; date := None |}
           (file_formats (Sim.a_config 0 [])) AttributeError).
  - discriminate.
  - intros t Ht. apply list_elem_of_singleton in Ht. subst t. vm_compute. reflexivity.
  - vm_compute. reflexivity.
  - vm_compute. reflexivity.
Defined.

(** ** Whole runs: coverage, degenerate page sizes, the global lists *)

Section Coverage.

Context {Σ : Type} (out : Outside Σ).

Lemma paginate_step_grows (pagination_limit : Z) (page : Page) (message : Message)
    (w : World Σ) :
  DOWNLOADED_IDS w
    `prefix_of` DOWNLOADED_IDS (snd (paginate_step out pagination_limit page message w))
  /\ FAILED_IDS w
       `prefix_of` FAILED_IDS (snd (paginate_step out pagination_limit page message w)).
Proof.
  unfold paginate_step.
  destruct (pagination_count page =? pagination_limit)%Z; simpl.
  - unfold bind.
    destruct (process_messages_frame out (messages_list page) (media_types (config page))
                (file_formats (config page)) w) as (_ & _ & Hd & Hf).
    destruct (process_messages out (messages_list page) (media_types (config page))
                (file_formats (config page)) w) as [[p|e] w1]; simpl in Hd, Hf.
    + rewrite update_config_run. simpl. auto.
    + simpl. auto.
  - unfold ret. simpl. split; reflexivity.
Qed.

Lemma paginate_grows (pagination_limit : Z) (messages_iter : list Message)
    (page : Page) (w : World Σ) :
  DOWNLOADED_IDS w
    `prefix_of` DOWNLOADED_IDS (snd (paginate out pagination_limit page messages_iter w))
  /\ FAILED_IDS w
       `prefix_of` FAILED_IDS (snd (paginate out pagination_limit page messages_iter w)).
Proof.
  revert page w. induction messages_iter as [|message rest IH]; intros page w.
  - simpl. split; reflexivity.
  - simpl paginate. unfold bind.
    destruct (paginate_step_grows pagination_limit page message w) as [Hd Hf].
    destruct (paginate_step out pagination_limit page message w) as [[page1|e] w1];
      simpl in Hd, Hf; [|simpl; auto].
    destruct (IH page1 w1) as [Hd' Hf']. split; etrans; eauto.
Qed.

Lemma begin_import_grows (config0 : Config) (pagination_limit : Z) (w : World Σ) :
  DOWNLOADED_IDS w
    `prefix_of` DOWNLOADED_IDS (snd (begin_import out config0 pagination_limit w))
  /\ FAILED_IDS w
       `prefix_of` FAILED_IDS (snd (begin_import out config0 pagination_limit w)).
Proof.
  destruct (begin_import out config0 pagination_limit w) as [r w'] eqn:Hrun.
  rewrite begin_import_unfold in Hrun. unfold bind at 1 in Hrun.
  set (page := {| config := config0 |}) in *.
  set (w2 := Build_World _ (DOWNLOADED_IDS w) (FAILED_IDS w) (trace w)) in *.
  destruct (paginate_grows pagination_limit (history_messages out config0 (ext w))
              page w2) as [Hd Hf].
  destruct (paginate out pagination_limit page (history_messages out config0 (ext w)) w2)
    as [[page'|e] w3]; simpl in Hd, Hf.
  2:{ inversion Hrun; subst. simpl. auto. }
  unfold bind in Hrun. destruct (messages_list page') as [|m buffer] eqn:Hbuf.
  - inversion Hrun; subst. simpl. auto.
  - rewrite <- Hbuf in Hrun.
    destruct (process_messages_frame out (messages_list page') (media_types (config page'))
                (file_formats (config page')) w3) as (_ & _ & Hd' & Hf').
    destruct (process_messages out (messages_list page') (media_types (config page'))
                (file_formats (config page')) w3) as [[p|e] w4]; simpl in Hd', Hf';
      inversion Hrun; subst; simpl; split; etrans; eauto.
Qed.

(** X14. The two global lists outlive a run: [main] only appends to
    them, whether it returns or not; and for a client whose re-fetch
    returns, [main] returns and every id that is in [FAILED_IDS] when it
    starts (left there by an earlier configuration of the same process) is
    written into the retry backlog of the configuration at hand. *)
Theorem main_inherits_failed_ids (config0 : Config) (w : World Σ) :
  DOWNLOADED_IDS w `prefix_of` DOWNLOADED_IDS (snd (main out config0 w))
  /\ FAILED_IDS w `prefix_of` FAILED_IDS (snd (main out config0 w))
  /\ (refetch_returns out ->
      exists config',
        fst (main out config0 w) = Ok config'
        /\ forall i, i ∈ FAILED_IDS w -> i ∈ ids_to_retry config').
Proof.
  destruct (begin_import_grows config0 100 w) as [Hd Hf].
  pose proof (fun Hret => begin_import_backlog out config0 100 w Hret ltac:(lia))
    as Hreturns.
  unfold main, bind.
  destruct (begin_import out config0 100 w) as [[config1|e] w1]; simpl in Hd, Hf.
  - rewrite update_config_run. simpl.
    split; [exact Hd |]. split; [exact Hf |]. intros _.
    eexists. split; [reflexivity |].
    intros i Hi. simpl. apply reconcile_elem. right.
    destruct Hf as [k ->]. apply elem_of_app. left. exact Hi.
  - simpl. split; [exact Hd |]. split; [exact Hf |]. intros Hret.
    destruct (Hreturns Hret) as (config' & w' & Hrun & _). discriminate.
Qed.

Lemma dispatched_write (config' : Config) (tr : list Event) :
  dispatched (EvWrite config' :: tr) = dispatched tr.
Proof. reflexivity. Qed.

Lemma paginate_step_covers (pagination_limit : Z) (page : Page) (message : Message)
    (w : World Σ) :
  refetch_returns out ->
  (0 < pagination_limit)%Z ->
  (0 <= pagination_count page <= Z.of_nat (length (messages_list page)))%Z ->
  exists page',
    fst (paginate_step out pagination_limit page message w) = Ok page'
    /\ (0 <= pagination_count page' <= Z.of_nat (length (messages_list page')))%Z
    /\ concat (dispatched (trace (snd (paginate_step out pagination_limit page message w))))
       ++ map id (messages_list page')
       = (concat (dispatched (trace w)) ++ map id (messages_list page)) ++ [id message].
Proof.
  intros Hret Hlimit Hcount. unfold paginate_step.
  destruct (pagination_count page =? pagination_limit)%Z eqn:Hfull; simpl.
  - apply Z.eqb_eq in Hfull.
    assert (Hbuf : messages_list page <> []).
    { intros Hnil. rewrite Hnil in Hcount. simpl in Hcount. lia. }
    unfold bind.
    destruct (process_messages_ok out (messages_list page) (media_types (config page))
                (file_formats (config page)) w Hret Hbuf) as (p & Hp).
    destruct (process_messages_frame out (messages_list page) (media_types (config page))
                (file_formats (config page)) w) as (_ & Hd & _).
    destruct (process_messages out (messages_list page) (media_types (config page))
                (file_formats (config page)) w) as [r w1].
    simpl in Hp, Hd. subst r. rewrite update_config_run. simpl.
    eexists. split; [reflexivity |]. simpl. split; [lia |].
    rewrite dispatched_write, Hd, concat_snoc. reflexivity.
  - unfold ret. simpl. eexists. split; [reflexivity |]. simpl.
    rewrite length_app, map_app. simpl. split; [lia |].
    rewrite app_assoc. reflexivity.
Qed.

Lemma paginate_covers (pagination_limit : Z) (messages_iter : list Message)
    (page : Page) (w : World Σ) :
  refetch_returns out ->
  (0 < pagination_limit)%Z ->
  (0 <= pagination_count page <= Z.of_nat (length (messages_list page)))%Z ->
  exists page',
    fst (paginate out pagination_limit page messages_iter w) = Ok page'
    /\ concat (dispatched (trace (snd (paginate out pagination_limit page messages_iter w))))
       ++ map id (messages_list page')
       = (concat (dispatched (trace w)) ++ map id (messages_list page))
         ++ map id messages_iter.
Proof.
  intros Hret Hlimit. revert page w.
  induction messages_iter as [|message rest IH]; intros page w Hcount.
  - exists page. simpl. rewrite app_nil_r. auto.
  - simpl paginate. unfold bind.
    destruct (paginate_step_covers pagination_limit page message w Hret Hlimit Hcount)
      as (page1 & Hr & Hcount1 & Heq).
    destruct (paginate_step out pagination_limit page message w) as [r w1].
    simpl in Hr, Heq. subst r.
    destruct (IH page1 w1 Hcount1) as (page' & Hr' & Heq').
    exists page'. split; [exact Hr' |].
    rewrite Heq', Heq. simpl. rewrite <- !app_assoc. reflexivity.
Qed.

(** X10. With a page size of at least one and a client whose re-fetch
    returns, a run of [begin_import] returns, and the batches it hands to
    [process_messages] are, put end to end, the messages of the retry
    backlog followed by the history: every message is dispatched exactly
    once and in the order it was read. *)
Theorem begin_import_dispatches_all (config0 : Config) (pagination_limit : Z)
    (w : World Σ) :
  refetch_returns out ->
  (0 < pagination_limit)%Z ->
  is_ok (fst (begin_import out config0 pagination_limit w)) = true
  /\ concat (dispatched (trace (snd (begin_import out config0 pagination_limit w))))
     = concat (dispatched (trace w)) ++ seen_ids out config0 (ext w).
Proof.
  intros Hret Hlimit.
  pose proof (begin_import_finish out config0 pagination_limit w) as Hfinish.
  unfold seen_ids.
  set (page := {| config := config0; last_read := last_read_message_id config0;
                  messages_list := backlog_messages out config0 (ext w);
                  pagination_count :=
                    Z.of_nat (length (backlog_messages out config0 (ext w))) |}) in *.
  set (w2 := Build_World _ (DOWNLOADED_IDS w) (FAILED_IDS w) (trace w)) in *.
  destruct (paginate_covers pagination_limit (history_messages out config0 (ext w))
              page w2 Hret Hlimit ltac:(simpl; lia)) as (page' & Hr & Heq).
  destruct (paginate out pagination_limit page (history_messages out config0 (ext w)) w2)
    as [r w3].
  simpl in Hr, Heq. subst r.
  specialize (Hfinish page' w3).
  destruct (messages_list page') as [|m buffer] eqn:Hbuf.
  - rewrite (Hfinish w3 (last_read page') eq_refl eq_refl). simpl.
    split; [reflexivity |]. simpl in Heq. rewrite app_nil_r in Heq.
    rewrite Heq, app_assoc. reflexivity.
  - rewrite <- Hbuf in *.
    destruct (process_messages_ok out (messages_list page') (media_types (config page'))
                (file_formats (config page')) w3 Hret) as (p & Hp).
    { rewrite Hbuf. discriminate. }
    destruct (process_messages_frame out (messages_list page') (media_types (config page'))
                (file_formats (config page')) w3) as (_ & Hd & _).
    destruct (process_messages out (messages_list page') (media_types (config page'))
                (file_formats (config page')) w3) as [r w4].
    simpl in Hp, Hd. subst r.
    rewrite (Hfinish w4 p eq_refl eq_refl). simpl. split; [reflexivity |].
    rewrite Hd, concat_snoc, Heq, app_assoc. reflexivity.
Qed.

(** X11. A page size of zero fails on the first message: with an empty
    retry backlog and a history that is not empty, [begin_import] hands the
    empty batch to [process_messages], whose [max] raises [ValueError];
    nothing is downloaded and no position is written. *)
Theorem begin_import_zero_limit (config0 : Config) (w : World Σ) :
  ids_to_retry config0 = [] ->
  history_messages out config0 (ext w) <> [] ->
  fst (begin_import out config0 0 w) = Raise ValueError
  /\ trace (snd (begin_import out config0 0 w)) = EvDispatch [] :: trace w.
Proof.
  intros Hids Hhistory. rewrite begin_import_unfold.
  unfold backlog_messages. rewrite Hids.
  destruct (history_messages out config0 (ext w)) as [|message rest]; [congruence |].
  split; reflexivity.
Qed.

Lemma paginate_never_full (pagination_limit : Z) (messages_iter : list Message)
    (page : Page) (w : World Σ) :
  (pagination_limit < pagination_count page)%Z ->
  paginate out pagination_limit page messages_iter w
  = (Ok {| config := config page;
           last_read := last_read page;
           messages_list := messages_list page ++ messages_iter;
           pagination_count :=
             (pagination_count page + Z.of_nat (length messages_iter))%Z |}, w).
Proof.
  revert page. induction messages_iter as [|message rest IH]; intros page Hover.
  - simpl. rewrite app_nil_r, Z.add_0_r. destruct page; reflexivity.
  - simpl paginate. unfold bind.
    rewrite (paginate_step_append out) by lia.
    rewrite IH by (simpl; lia). simpl.
    rewrite <- app_assoc. simpl. do 3 f_equal. lia.
Qed.

(** X12. A retry backlog that yields more messages than the page size
    switches pagination off: the counter starts above the limit and never
    meets it, so no position is written during the run and the whole of
    backlog and history goes to [process_messages] as one batch; with a
    client whose re-fetch returns, the run returns, with the retry backlog
    of the configuration as it was.  The same holds for a negative page
    size. *)
Theorem begin_import_oversized_backlog (config0 : Config) (pagination_limit : Z)
    (w : World Σ) :
  (pagination_limit < Z.of_nat (length (backlog_messages out config0 (ext w))))%Z ->
  written (trace (snd (begin_import out config0 pagination_limit w)))
  = written (trace w)
  /\ dispatched (trace (snd (begin_import out config0 pagination_limit w)))
     = dispatched (trace w)
       ++ match seen_ids out config0 (ext w) with
          | [] => []
          | _ :: _ => [seen_ids out config0 (ext w)]
          end
  /\ (refetch_returns out ->
      exists config',
        fst (begin_import out config0 pagination_limit w) = Ok config'
        /\ ids_to_retry config' = ids_to_retry config0).
Proof.
  intros Hover.
  destruct (begin_import out config0 pagination_limit w) as [r w'] eqn:Hrun.
  rewrite begin_import_unfold in Hrun. unfold bind in Hrun.
  unfold seen_ids. rewrite <- map_app.
  set (page := {| config := config0; last_read := last_read_message_id config0;
                  messages_list := backlog_messages out config0 (ext w);
                  pagination_count :=
                    Z.of_nat (length (backlog_messages out config0 (ext w))) |}) in *.
  set (w2 := Build_World _ (DOWNLOADED_IDS w) (FAILED_IDS w) (trace w)) in *.
  rewrite (paginate_never_full pagination_limit (history_messages out config0 (ext w))
             page w2 Hover) in Hrun.
  simpl in Hrun.
  destruct (backlog_messages out config0 (ext w) ++ history_messages out config0 (ext w))
    as [|m all] eqn:Hall.
  - unfold ret in Hrun. inversion Hrun; subst r w'. simpl.
    split; [reflexivity |]. split; [rewrite app_nil_r; reflexivity |].
    intros _. eexists. split; reflexivity.
  - rewrite <- Hall in *.
    assert (Hne : backlog_messages out config0 (ext w)
                  ++ history_messages out config0 (ext w) <> []).
    { rewrite Hall. discriminate. }
    pose proof (fun Hret =>
                  process_messages_ok out
                    (backlog_messages out config0 (ext w)
                     ++ history_messages out config0 (ext w))
                    (media_types config0) (file_formats config0) w2 Hret Hne) as Hok.
    destruct (process_messages_frame out
                (backlog_messages out config0 (ext w)
                 ++ history_messages out config0 (ext w))
                (media_types config0) (file_formats config0) w2)
      as (Hw & Hd & _).
    destruct (process_messages out
                (backlog_messages out config0 (ext w)
                 ++ history_messages out config0 (ext w))
                (media_types config0) (file_formats config0) w2) as [[p|e] w4];
      simpl in Hw, Hd, Hok; unfold ret in Hrun; inversion Hrun; subst r w'; simpl.
    + split; [exact Hw |]. split; [rewrite Hd, Hall; reflexivity |].
      intros _. eexists. split; reflexivity.
    + split; [exact Hw |]. split; [rewrite Hd, Hall; reflexivity |].
      intros Hret. destruct (Hok Hret) as (p & Hp). discriminate.
Qed.

End Coverage.

(** X8. A checkpoint does not disturb the reconciliation: when the two
    global lists have only grown since, updating the configuration that a
    checkpoint wrote gives the same retry backlog, as a set, as updating
    the configuration the checkpoint started from. *)
Theorem update_config_after_checkpoint {Σ} (config : Config) (w w' : World Σ) :
  (forall i, i ∈ DOWNLOADED_IDS w -> i ∈ DOWNLOADED_IDS w') ->
  (forall i, i ∈ FAILED_IDS w -> i ∈ FAILED_IDS w') ->
  exists checkpoint final direct,
    fst (update_config config w) = Ok checkpoint
    /\ fst (update_config checkpoint w') = Ok final
    /\ fst (update_config config w') = Ok direct
    /\ forall i, i ∈ ids_to_retry final <-> i ∈ ids_to_retry direct.
Proof.
  intros Hd Hf.
  pose (checkpoint :=
          set_ids_to_retry config
            (reconcile (ids_to_retry config) (DOWNLOADED_IDS w) (FAILED_IDS w))).
  exists checkpoint,
    (set_ids_to_retry checkpoint
       (reconcile (ids_to_retry checkpoint) (DOWNLOADED_IDS w') (FAILED_IDS w'))),
    (set_ids_to_retry config
       (reconcile (ids_to_retry config) (DOWNLOADED_IDS w') (FAILED_IDS w'))).
  split; [reflexivity |]. split; [reflexivity |]. split; [reflexivity |].
  intros i. simpl. rewrite !reconcile_elem. split.
  - intros [[[[Hi Hn] | Hi] Hn'] | Hi]; auto.
  - intros [[Hi Hn] | Hi]; auto. left. split; [|exact Hn].
    left. split; [exact Hi |]. intros Hin. apply Hn, Hd, Hin.
Qed.

Lemma update_config_after_checkpoint_witness :
  exists checkpoint final direct,
    fst (update_config (Sim.a_config 0 [3; 4; 5]%Z)
           (Build_World tt [4]%Z [9]%Z [])) = Ok checkpoint
    /\ fst (update_config checkpoint (Build_World tt [4; 5]%Z [9; 3]%Z [])) = Ok final
    /\ fst (update_config (Sim.a_config 0 [3; 4; 5]%Z)
              (Build_World tt [4; 5]%Z [9; 3]%Z [])) = Ok direct
    /\ forall i, i ∈ ids_to_retry final <-> i ∈ ids_to_retry direct.
Proof.
  apply (update_config_after_checkpoint (Sim.a_config 0 [3; 4; 5]%Z)
           (Build_World tt [4]%Z [9]%Z []) (Build_World tt [4; 5]%Z [9; 3]%Z [])).
  - simpl. intros i Hi. apply list_elem_of_singleton in Hi. subst. left.
  - simpl. intros i Hi. apply list_elem_of_singleton in Hi. subst. left.
Defined.

Lemma begin_import_dispatches_all_witness :
  is_ok (fst (begin_import Sim.outside (Sim.a_config 0 [9]%Z) 2
                (Sim.start [] [] [Sim.photo_message 9 "i.jpg"]
                   (map (fun i => Sim.photo_message i "a.jpg") [1; 2; 3; 4; 5]%Z))))
  = true
  /\ concat (dispatched
               (trace (snd (begin_import Sim.outside (Sim.a_config 0 [9]%Z) 2
                              (Sim.start [] [] [Sim.photo_message 9 "i.jpg"]
                                 (map (fun i => Sim.photo_message i "a.jpg")
                                      [1; 2; 3; 4; 5]%Z))))))
     = concat (dispatched []) ++ [9; 1; 2; 3; 4; 5]%Z.
Proof.
  apply (begin_import_dispatches_all Sim.outside (Sim.a_config 0 [9]%Z) 2
           (Sim.start [] [] [Sim.photo_message 9 "i.jpg"]
              (map (fun i => Sim.photo_message i "a.jpg") [1; 2; 3; 4; 5]%Z))
           sim_refetch_returns).
  lia.
Defined.

Lemma begin_import_zero_limit_witness :
  fst (begin_import Sim.outside (Sim.a_config 0 []) 0
         (Sim.start [] [] [] [Sim.photo_message 1 "a.jpg"])) = Raise ValueError
  /\ trace (snd (begin_import Sim.outside (Sim.a_config 0 []) 0
                   (Sim.start [] [] [] [Sim.photo_message 1 "a.jpg"])))
     = EvDispatch [] :: [].
Proof.
  apply (begin_import_zero_limit Sim.outside (Sim.a_config 0 [])
           (Sim.start [] [] [] [Sim.photo_message 1 "a.jpg"])).
  - reflexivity.
  - discriminate.
Defined.

Lemma begin_import_oversized_backlog_witness :
  written (trace (snd (begin_import Sim.outside (Sim.a_config 0 [8; 9]%Z) 1
                         (Sim.start [] []
                            [Sim.photo_message 8 "h.jpg"; Sim.photo_message 9 "i.jpg"]
                            (map (fun i => Sim.photo_message i "a.jpg") [1; 2; 3]%Z)))))
  = written []
  /\ dispatched (trace (snd (begin_import Sim.outside (Sim.a_config 0 [8; 9]%Z) 1
                               (Sim.start [] []
                                  [Sim.photo_message 8 "h.jpg";
                                   Sim.photo_message 9 "i.jpg"]
                                  (map (fun i => Sim.photo_message i "a.jpg")
                                       [1; 2; 3]%Z)))))
     = dispatched [] ++ [[8; 9; 1; 2; 3]%Z]
  /\ exists config',
       fst (begin_import Sim.outside (Sim.a_config 0 [8; 9]%Z) 1
              (Sim.start [] [] [Sim.photo_message 8 "h.jpg"; Sim.photo_message 9 "i.jpg"]
                 (map (fun i => Sim.photo_message i "a.jpg") [1; 2; 3]%Z))) = Ok config'
       /\ ids_to_retry config' = [8; 9]%Z.
Proof.
  destruct (begin_import_oversized_backlog Sim.outside (Sim.a_config 0 [8; 9]%Z) 1
              (Sim.start [] [] [Sim.photo_message 8 "h.jpg"; Sim.photo_message 9 "i.jpg"]
                 (map (fun i => Sim.photo_message i "a.jpg") [1; 2; 3]%Z)))
    as (Hw & Hd & Hreturns).
  - vm_compute. reflexivity.
  - split; [exact Hw |]. split; [exact Hd |]. apply Hreturns, sim_refetch_returns.
Defined.

(** ** Further concrete runs *)

Lemma can_download_rejects_witness :
  _can_download "video" {[ "video" := ["mp4"; "webm"] ]} (Some "mkv") = Ok false <->
  exists first rest,
    ({[ "video" := ["mp4"; "webm"] ]} : gmap string (list string)) !! "video"
    = Some (first :: rest)
    /\ Py.contains (Some "mkv") (first :: rest) = false
    /\ first <> "all".
Proof.
  apply (can_download_rejects "video" {[ "video" := ["mp4"; "webm"] ]} (Some "mkv")).
  apply one_of_true. reflexivity.
Defined.

Lemma begin_import_batch_shape_witness :
  is_ok (fst (begin_import Sim.outside (Sim.a_config 0 []) 2
                (Sim.start [] [] []
                   (map (fun i => Sim.photo_message i "a.jpg") [1; 2; 3; 4; 5; 6; 7]%Z))))
  = true
  /\ batch_sizes 2
       (removelast
          (dispatched
             (trace (snd (begin_import Sim.outside (Sim.a_config 0 []) 2
                            (Sim.start [] [] []
                               (map (fun i => Sim.photo_message i "a.jpg")
                                    [1; 2; 3; 4; 5; 6; 7]%Z))))))).
Proof.
  apply (begin_import_batch_shape Sim.outside (Sim.a_config 0 []) 2
           (Sim.start [] [] []
              (map (fun i => Sim.photo_message i "a.jpg") [1; 2; 3; 4; 5; 6; 7]%Z))
           sim_refetch_returns).
  - lia.
  - reflexivity.
Defined.

Lemma main_reconciles_witness :
  exists config',
    fst (main Sim.outside (Sim.a_config 5 [3; 4]%Z)
           (Sim.start [Ok (Some "c.jpg"); Raise OtherException] []
              [Sim.photo_message 3 "c.jpg"; Sim.photo_message 4 "d.jpg"]
              [Sim.photo_message 6 "a.jpg"])) = Ok config'
    /\ forall i, i ∈ ids_to_retry config' <->
                 (i ∈ ids_to_retry (Sim.a_config 5 [3; 4]%Z)
                  /\ i ∉ DOWNLOADED_IDS
                          (snd (main Sim.outside (Sim.a_config 5 [3; 4]%Z)
                                  (Sim.start [Ok (Some "c.jpg"); Raise OtherException] []
                                     [Sim.photo_message 3 "c.jpg";
                                      Sim.photo_message 4 "d.jpg"]
                                     [Sim.photo_message 6 "a.jpg"]))))
                 \/ i ∈ FAILED_IDS
                         (snd (main Sim.outside (Sim.a_config 5 [3; 4]%Z)
                                 (Sim.start [Ok (Some "c.jpg"); Raise OtherException] []
                                    [Sim.photo_message 3 "c.jpg";
                                     Sim.photo_message 4 "d.jpg"]
                                    [Sim.photo_message 6 "a.jpg"]))).
Proof.
  apply (main_reconciles Sim.outside (Sim.a_config 5 [3; 4]%Z)
           (Sim.start [Ok (Some "c.jpg"); Raise OtherException] []
              [Sim.photo_message 3 "c.jpg"; Sim.photo_message 4 "d.jpg"]
              [Sim.photo_message 6 "a.jpg"])
           sim_refetch_returns).
Defined.

Lemma main_inherits_failed_ids_witness :
  exists config',
    fst (main Sim.outside (Sim.a_config 5 [])
           (Build_World
              {| Sim.script := []; Sim.files := []; Sim.by_id := [];
                 Sim.history := [Sim.photo_message 6 "a.jpg"] |}
              [2%Z] [1000%Z] [])) = Ok config'
    /\ forall i, i ∈ [1000%Z] -> i ∈ ids_to_retry config'.
Proof.
  apply (main_inherits_failed_ids Sim.outside (Sim.a_config 5 [])
           (Build_World
              {| Sim.script := []; Sim.files := []; Sim.by_id := [];
                 Sim.history := [Sim.photo_message 6 "a.jpg"] |}
              [2%Z] [1000%Z] [])).
  exact sim_refetch_returns.
Defined.

(** ** The configuration files of a session *)

Lemma endswith_refl (s : string) : Py.endswith s s = true.
Proof. destruct s; cbn [Py.endswith]; rewrite String.eqb_refl; reflexivity. Qed.

Lemma endswith_app (pre suffix : string) : Py.endswith (pre +:+ suffix) suffix = true.
Proof.
  induction pre as [|c pre IH].
  - apply endswith_refl.
  - change (Py.endswith (String c pre +:+ suffix) suffix)
      with ((String c (pre +:+ suffix) =? suffix)%string
            || Py.endswith (pre +:+ suffix) suffix).
    rewrite IH. apply orb_true_r.
Qed.

Lemma endswith_spec (s suffix : string) :
  Py.endswith s suffix = true <-> exists pre, s = pre +:+ suffix.
Proof.
  split.
  - induction s as [|c s IH]; cbn [Py.endswith].
    + rewrite orb_false_r. intros H. apply String.eqb_eq in H. exists "". exact H.
    + intros H. apply orb_true_iff in H as [H | H].
      * apply String.eqb_eq in H. exists "". exact H.
      * destruct (IH H) as (pre & ->). exists (String c pre). reflexivity.
  - intros (pre & ->). apply endswith_app.
Qed.

Lemma list_remove_absent (x : string) (l : list string) :
  Py.list_remove x l = Raise ValueError <-> x ∉ l.
Proof.
  induction l as [|y rest IH]; simpl.
  - split; [intros _; apply not_elem_of_nil | reflexivity].
  - destruct (String.eqb y x) eqn:He.
    + apply String.eqb_eq in He. subst. split; [discriminate |].
      intros H. exfalso. apply H. left.
    + apply String.eqb_neq in He. rewrite not_elem_of_cons.
      destruct (Py.list_remove x rest) as [r|e]; simpl.
      * split; [discriminate |]. intros [_ H]. apply IH in H. discriminate.
      * split.
        -- intros H. inversion H; subst. split; [congruence |]. apply IH. reflexivity.
        -- intros [_ H]. apply IH in H. exact H.
Qed.

Lemma list_remove_raises (x : string) (l : list string) (e : exn) :
  Py.list_remove x l = Raise e -> e = ValueError.
Proof.
  induction l as [|y rest IH]; simpl; [congruence |].
  destruct (String.eqb y x); [discriminate |].
  destruct (Py.list_remove x rest); simpl; [discriminate |].
  intros H. inversion H; subst. apply IH. reflexivity.
Qed.

Lemma list_remove_first (x : string) (l r : list string) :
  Py.list_remove x l = Ok r <->
  exists pre post, l = pre ++ x :: post /\ (x ∉ pre) /\ r = pre ++ post.
Proof.
  revert r. induction l as [|y rest IH]; intros r; simpl.
  - split; [discriminate |]. intros (pre & post & H & _). destruct pre; discriminate.
  - destruct (String.eqb y x) eqn:He.
    + apply String.eqb_eq in He. subst y. split.
      * intros H. inversion H; subst. exists [], r.
        split; [reflexivity |]. split; [apply not_elem_of_nil | reflexivity].
      * intros (pre & post & H & Hn & ->). destruct pre as [|p pre].
        -- simpl in H. inversion H; subst. reflexivity.
        -- simpl in H. inversion H; subst. exfalso. apply Hn. left.
    + apply String.eqb_neq in He. split.
      * destruct (Py.list_remove x rest) as [r'|e] eqn:Hr; simpl; [|discriminate].
        intros H. inversion H; subst.
        destruct (proj1 (IH r') eq_refl) as (pre & post & -> & Hn & ->).
        exists (y :: pre), post. split; [reflexivity |]. split; [|reflexivity].
        rewrite not_elem_of_cons. split; [congruence | exact Hn].
      * intros (pre & post & H & Hn & ->). destruct pre as [|p pre].
        -- simpl in H. inversion H; subst. congruence.
        -- simpl in H. inversion H; subst.
           rewrite not_elem_of_cons in Hn. destruct Hn as [_ Hn].
           rewrite (proj2 (IH (pre ++ post))); [reflexivity |].
           exists pre, post. auto.
Qed.

Lemma filter_elem (p : string -> bool) (l : list string) (x : string) :
  x ∈ List.filter p l <-> p x = true /\ x ∈ l.
Proof.
  rewrite !list_elem_of_In, filter_In. tauto.
Qed.

Lemma filter_sublist (p : string -> bool) (l : list string) :
  List.filter p l `sublist_of` l.
Proof.
  induction l as [|x l IH]; simpl; [constructor |].
  destruct (p x); [apply sublist_skip | apply sublist_cons]; exact IH.
Qed.

(** X16. Given one name, [clean_configs] looks for [name + ".yaml"]
    whether or not the name already ends in [.yaml]: it raises
    [ValueError] exactly when the list has no such entry, and otherwise
    returns the list without the first such entry, every other entry
    (later copies included) in place. *)
Theorem clean_configs_name (configs : list string) (name : string) :
  (clean_configs configs (ExitName name) = Raise ValueError
   <-> name +:+ ".yaml" ∉ configs)
  /\ (forall r, clean_configs configs (ExitName name) = Ok r <->
        exists pre post,
          configs = pre ++ (name +:+ ".yaml") :: post
          /\ (name +:+ ".yaml" ∉ pre)
          /\ r = pre ++ post).
Proof.
  unfold clean_configs. split.
  - apply list_remove_absent.
  - intros r. apply list_remove_first.
Qed.

(** X17. Given a list of names, [clean_configs] keeps the order of the
    list and drops exactly the entries [n + ".yaml"] for the names [n] of
    the exclusion list that do not end in [.yaml]. *)
Theorem clean_configs_names (configs names : list string) :
  exists r,
    clean_configs configs (ExitNames names) = Ok r
    /\ r `sublist_of` configs
    /\ forall c, c ∈ r <->
         c ∈ configs
         /\ ~ exists n, n ∈ names /\ Py.endswith n ".yaml" = false
                        /\ c = n +:+ ".yaml".
Proof.
  unfold clean_configs. eexists. split; [reflexivity |]. split.
  - apply filter_sublist.
  - intros c. rewrite filter_elem.
    rewrite negb_true_iff, bool_decide_eq_false, list_elem_of_fmap.
    split.
    + intros [Hn Hc]. split; [exact Hc |].
      intros (n & Hin & He & ->). apply Hn. exists n. split; [reflexivity |].
      apply filter_elem. rewrite He. split; [reflexivity | exact Hin].
    + intros [Hc Hn]. split; [|exact Hc].
      intros (n & -> & Hin). apply filter_elem in Hin as [He Hin].
      apply Hn. exists n. split; [exact Hin |]. split; [|reflexivity].
      apply negb_true_iff. exact He.
Qed.

(** X18. An exclusion written with its [.yaml] suffix excludes nothing:
    when every name of the exclusion list ends in [.yaml], [clean_configs]
    returns the list as it is. *)
Theorem clean_configs_suffixed_names (configs names : list string) :
  (forall n, n ∈ names -> Py.endswith n ".yaml" = true) ->
  clean_configs configs (ExitNames names) = Ok configs.
Proof.
  intros Hall. unfold clean_configs.
  assert (Hnone : List.filter (fun each => negb (Py.endswith each ".yaml")) names = []).
  { induction names as [|n names IH]; [reflexivity |]. simpl.
    rewrite (Hall n) by left. simpl. apply IH.
    intros m Hm. apply Hall. right. exact Hm. }
  rewrite Hnone. simpl. f_equal.
  induction configs as [|c configs IH]; [reflexivity |]. simpl.
  rewrite IH. reflexivity.
Qed.

Lemma clean_configs_suffixed_names_witness :
  clean_configs ["a.yaml"; "b.yaml"] (ExitNames ["a.yaml"]) = Ok ["a.yaml"; "b.yaml"].
Proof.
  apply clean_configs_suffixed_names.
  intros n Hn. apply list_elem_of_singleton in Hn. subst. reflexivity.
Defined.

Lemma filter_absent (x : string) (l : list string) :
  x ∉ l -> List.filter (fun each => negb (bool_decide (each ∈ [x]))) l = l.
Proof.
  induction l as [|y l IH]; [reflexivity |].
  rewrite not_elem_of_cons. intros [Hne Hn]. simpl.
  rewrite bool_decide_eq_false_2.
  - simpl. rewrite (IH Hn). reflexivity.
  - rewrite list_elem_of_singleton. congruence.
Qed.

(** X19. On a list without repeated entries the two forms of the
    exclusion agree: for a name that does not end in [.yaml] and whose
    file is in the list, giving the name alone or as a one-element list
    returns the same list. *)
Theorem clean_configs_name_as_list (configs : list string) (name : string) :
  NoDup configs ->
  Py.endswith name ".yaml" = false ->
  name +:+ ".yaml" ∈ configs ->
  clean_configs configs (ExitName name) = clean_configs configs (ExitNames [name]).
Proof.
  intros Hnd He Hin. unfold clean_configs. simpl. rewrite He. simpl.
  set (x := name +:+ ".yaml") in *. clearbody x. clear He name.
  induction configs as [|y configs IH]; [inversion Hin |].
  apply NoDup_cons in Hnd as [Hy Hnd]. simpl.
  destruct (String.eqb y x) eqn:Hyx.
  - apply String.eqb_eq in Hyx. subst y.
    rewrite bool_decide_eq_true_2 by left. simpl.
    rewrite (filter_absent x configs Hy). reflexivity.
  - apply String.eqb_neq in Hyx.
    apply elem_of_cons in Hin as [Hin | Hin]; [congruence |].
    rewrite (IH Hnd Hin). simpl.
    rewrite bool_decide_eq_false_2; [reflexivity |].
    rewrite list_elem_of_singleton. exact Hyx.
Qed.

Lemma clean_configs_name_as_list_witness :
  clean_configs ["a.yaml"; "b.yaml"; "c.yaml"] (ExitName "b")
  = clean_configs ["a.yaml"; "b.yaml"; "c.yaml"] (ExitNames ["b"]).
Proof.
  apply clean_configs_name_as_list.
  - apply (bool_decide_unpack _). vm_compute. exact I.
  - reflexivity.
  - apply one_of_true. reflexivity.
Defined.

(** X15. The file name [main] derives from a configuration name always
    ends in [.yaml], and deriving it again changes nothing: a name may be
    given with or without the suffix. *)
Theorem config_file_name_stable (config_name : string) :
  Py.endswith (config_file_name config_name) ".yaml" = true
  /\ config_file_name (config_file_name config_name) = config_file_name config_name.
Proof.
  assert (H : Py.endswith (config_file_name config_name) ".yaml" = true).
  { unfold config_file_name.
    destruct (Py.endswith config_name ".yaml") eqn:He; simpl.
    - exact He.
    - apply endswith_app. }
  split; [exact H |].
  unfold config_file_name at 1. rewrite H. reflexivity.
Qed.

(** ** Moving the downloads to the archive *)

Section Archive.

Context {P Φ : Type} (disk : Disk P Φ).

Lemma fcount_app (p : FsEvent P -> bool) (evs1 evs2 : list (FsEvent P)) :
  fcount p (evs1 ++ evs2) = fcount p evs1 + fcount p evs2.
Proof.
  induction evs1 as [|ev evs1 IH]; simpl; [reflexivity |]. rewrite IH. lia.
Qed.

Lemma guarded_app (evs1 evs2 : list (FsEvent P)) :
  guarded evs1 -> guarded evs2 -> guarded (evs1 ++ evs2).
Proof.
  intros H1 H2. induction evs1 as [|ev evs1 IH]; [exact H2 |].
  destruct ev; simpl in H1 |- *; try (apply IH; exact H1).
  destruct H1 as [(older & ->) H1]. split; [|apply IH; exact H1].
  exists (older ++ evs2). reflexivity.
Qed.

Lemma quiet_guarded (evs : list (FsEvent P)) :
  (forall ev, ev ∈ evs -> is_quiet ev = true) -> guarded evs.
Proof.
  induction evs as [|ev evs IH]; intros Hq; [exact I |].
  assert (Hev : is_quiet ev = true) by (apply Hq; left).
  assert (Hrest : guarded evs) by (apply IH; intros ev' H; apply Hq; right; exact H).
  destruct ev; simpl in Hev |- *; try discriminate; exact Hrest.
Qed.

Lemma quiet_fcount (p : FsEvent P -> bool) (evs : list (FsEvent P)) :
  (forall ev, is_quiet ev = true -> p ev = false) ->
  (forall ev, ev ∈ evs -> is_quiet ev = true) ->
  fcount p evs = 0.
Proof.
  intros Hp. induction evs as [|ev evs IH]; intros Hq; [reflexivity |].
  simpl. rewrite (Hp ev) by (apply Hq; left).
  apply IH. intros ev' H. apply Hq. right. exact H.
Qed.

Lemma quiet_not (evs : list (FsEvent P)) (ev : FsEvent P) :
  (forall ev, ev ∈ evs -> is_quiet ev = true) -> is_quiet ev = false -> ev ∉ evs.
Proof. intros Hq Hev Hin. rewrite (Hq ev Hin) in Hev. discriminate. Qed.

Lemma block_nil (s_path : P) (entries : list P) (r : result unit) :
  block disk s_path entries r [].
Proof.
  unfold block. simpl.
  repeat split; try lia; intros; match goal with H : _ ∈ [] |- _ => inversion H end.
Qed.

Lemma block_mono (s_path : P) (entries entries' : list P) (r : result unit)
    (evs : list (FsEvent P)) :
  (forall path, path ∈ entries -> path ∈ entries') ->
  block disk s_path entries r evs -> block disk s_path entries' r evs.
Proof.
  intros Hsub (Hg & Hu & Hr & Hq & Hc1 & Hc2 & Hok). unfold block.
  split; [exact Hg |]. split.
  { intros path o H. destruct (Hu path o H). auto. }
  split.
  { intros old new o H. destruct (Hr old new o H) as (? & ? & ?). auto. }
  auto.
Qed.

Lemma block_seq (s_path : P) (entries1 entries2 : list P) (r : result unit)
    (evs1 evs2 : list (FsEvent P)) :
  block disk s_path entries1 (Ok tt) evs1 ->
  block disk s_path entries2 r evs2 ->
  block disk s_path (entries1 ++ entries2) r (evs2 ++ evs1).
Proof.
  intros (Hg1 & Hu1 & Hr1 & Hq1 & Hc1 & Hd1 & Hok1)
         (Hg2 & Hu2 & Hr2 & Hq2 & Hc2 & Hd2 & Hok2).
  destruct (Hok1 eq_refl) as [He1 Hall1].
  unfold block. rewrite !fcount_app.
  split; [apply guarded_app; assumption |]. split.
  { intros path o H. rewrite !elem_of_app. apply elem_of_app in H as [H | H].
    - destruct (Hu2 path o H). auto.
    - destruct (Hu1 path o H). auto. }
  split.
  { intros old new o H. rewrite !elem_of_app. apply elem_of_app in H as [H | H].
    - destruct (Hr2 old new o H) as (? & ? & ?). auto.
    - destruct (Hr1 old new o H) as (? & ? & ?). auto. }
  split.
  { intros ev H. apply elem_of_app in H as [H | H]; [apply Hq2 | apply Hq1]; exact H. }
  split; [lia |]. split; [lia |].
  intros Hr. destruct (Hok2 Hr) as [He2 Hall2]. split; [lia |].
  intros path H. rewrite elem_of_app. apply elem_of_app in H as [H | H]; auto.
Qed.

Lemma move_entry_block (s_path old_file_path : P) (s : Shelf P Φ) :
  exists evs,
    calls (snd (move_entry disk s_path old_file_path s)) = evs ++ calls s
    /\ block disk s_path [old_file_path]
         (fst (move_entry disk s_path old_file_path s)) evs.
Proof.
  unfold move_entry, fbind, query, command, fret. simpl.
  destruct (path_is_file disk old_file_path (disk_state s)) as [[|]|e] eqn:Hfile; simpl.
  2,3: eexists [_]; split; [reflexivity |]; unfold block; simpl;
       repeat split; try lia; try discriminate; intros;
       repeat match goal with
              | H : _ ∈ _ :: _ |- _ =>
                  apply elem_of_cons in H as [H | H]; try discriminate
              | H : _ ∈ [] |- _ => inversion H
              end; subst; exact I.
  set (new := joinpath disk s_path (path_name disk old_file_path)).
  destruct (path_exists disk new (disk_state s)) as [[|]|e] eqn:Htaken; simpl.
  - (* the name is taken at the destination: no rename, the entry is unlinked *)
    destruct (path_unlink disk old_file_path (disk_state s)) as [o φ]. simpl.
    eexists [_; _; _]. split; [destruct o; reflexivity |].
    unfold block. simpl. split; [exact I |].
    split.
    { intros path o' H. repeat (apply elem_of_cons in H as [H | H]; try discriminate);
        try (inversion H; fail). inversion H; subst.
      split; [left |]. do 2 right. left. }
    split.
    { intros old' new' o' H. repeat (apply elem_of_cons in H as [H | H]; try discriminate);
        try (inversion H; fail). }
    split.
    { intros ev Hev. repeat (apply elem_of_cons in Hev as [-> | Hev]; try exact I).
      inversion Hev. }
    split; [lia |]. split; [lia |]. intros ->. split; [reflexivity |].
    intros path H. repeat (apply elem_of_cons in H as [H | H]; try discriminate);
      try (inversion H; fail).
    inversion H; subst. left.
  - (* the name is free: rename, then unlink *)
    destruct (path_rename disk old_file_path new (disk_state s)) as [[[]|e] φ]; simpl.
    + destruct (path_unlink disk old_file_path φ) as [o φ']. simpl.
      eexists [_; _; _; _]. split; [destruct o; reflexivity |].
      unfold block. simpl. split; [split; [eauto | exact I] |].
      split.
      { intros path o' H. repeat (apply elem_of_cons in H as [H | H]; try discriminate);
        try (inversion H; fail). inversion H; subst.
        split; [left |]. do 3 right. left. }
      split.
      { intros old' new' o' H. repeat (apply elem_of_cons in H as [H | H]; try discriminate);
        try (inversion H; fail). inversion H; subst.
        split; [left |]. split; [|reflexivity]. do 3 right. left. }
      split.
      { intros ev Hev. repeat (apply elem_of_cons in Hev as [-> | Hev]; try exact I).
        inversion Hev. }
      split; [lia |]. split; [lia |]. intros ->. split; [reflexivity |].
      intros path H. repeat (apply elem_of_cons in H as [H | H]; try discriminate);
        try (inversion H; fail).
      inversion H; subst. left.
    + eexists [_; _; _]. split; [reflexivity |].
      unfold block. simpl. split; [split; [eauto | exact I] |].
      split.
      { intros path o' H. repeat (apply elem_of_cons in H as [H | H]; try discriminate);
        try (inversion H; fail). }
      split.
      { intros old' new' o' H. repeat (apply elem_of_cons in H as [H | H]; try discriminate);
        try (inversion H; fail). inversion H; subst.
        split; [left |]. split; [|reflexivity]. do 2 right. left. }
      split.
      { intros ev Hev. repeat (apply elem_of_cons in Hev as [-> | Hev]; try exact I).
        inversion Hev. }
      repeat split; try lia; discriminate.
  - (* [exists] raised *)
    eexists [_; _]. split; [reflexivity |].
    unfold block. simpl. split; [exact I |].
    split.
    { intros path o' H. repeat (apply elem_of_cons in H as [H | H]; try discriminate);
        try (inversion H; fail). }
    split.
    { intros old' new' o' H. repeat (apply elem_of_cons in H as [H | H]; try discriminate);
        try (inversion H; fail). }
    split.
    { intros ev Hev. repeat (apply elem_of_cons in Hev as [-> | Hev]; try exact I).
      inversion Hev. }
    repeat split; try lia; discriminate.
Qed.

Lemma for_entries_block (s_path : P) (entries : list P) (s : Shelf P Φ) :
  exists evs,
    calls (snd (for_entries disk s_path entries s)) = evs ++ calls s
    /\ block disk s_path entries (fst (for_entries disk s_path entries s)) evs.
Proof.
  revert s. induction entries as [|old rest IH]; intros s.
  - exists []. split; [reflexivity | apply block_nil].
  - simpl for_entries. unfold fbind.
    destruct (move_entry_block s_path old s) as (evs1 & Hcalls1 & Hblock1).
    destruct (move_entry disk s_path old s) as [[[]|e] s1]; simpl in Hcalls1, Hblock1.
    + destruct (IH s1) as (evs2 & Hcalls2 & Hblock2).
      exists (evs2 ++ evs1). split.
      * rewrite Hcalls2, Hcalls1, app_assoc. reflexivity.
      * apply (block_seq s_path [old] rest); assumption.
    + exists evs1. split; [exact Hcalls1 |]. simpl.
      eapply block_mono; [|exact Hblock1].
      intros path H. apply list_elem_of_singleton in H. subst. left.
Qed.

Lemma quiet_shelved (pairs : list (P * P)) (r : result unit) (pre : list (FsEvent P)) :
  (forall ev, ev ∈ pre -> is_quiet ev = true) ->
  (forall path o, FsMkdir path o ∈ pre -> exists d_path, (d_path, path) ∈ pairs) ->
  (forall d_path entries, FsIterdir d_path entries ∈ pre ->
     exists s_path, (d_path, s_path) ∈ pairs) ->
  shelved disk pairs r pre.
Proof.
  intros Hq Hm Hi. unfold shelved.
  rewrite !(quiet_fcount _ pre); try assumption; try (intros []; simpl; congruence).
  split; [apply quiet_guarded, Hq |].
  split; [intros path o H; exfalso; revert H; apply quiet_not; auto |].
  split; [intros old new o H; exfalso; revert H; apply quiet_not; auto |].
  split; [exact Hm |]. split; [exact Hi |].
  split; [lia |]. split; [lia |]. intros _. split; [reflexivity |].
  intros path H. exfalso. revert H. apply quiet_not; auto.
Qed.

Lemma listed_file_app (evs1 evs2 : list (FsEvent P)) (d_path path : P) :
  listed_file evs1 d_path path \/ listed_file evs2 d_path path ->
  listed_file (evs1 ++ evs2) d_path path.
Proof.
  unfold listed_file.
  intros [((entries & Hl & Hin) & Hf) | ((entries & Hl & Hin) & Hf)];
    (split; [exists entries; split; [|exact Hin] |]);
    apply elem_of_app; auto.
Qed.

Lemma shelved_seq (pairs1 pairs2 : list (P * P)) (r : result unit)
    (evs1 evs2 : list (FsEvent P)) :
  shelved disk pairs1 (Ok tt) evs1 ->
  shelved disk pairs2 r evs2 ->
  shelved disk (pairs1 ++ pairs2) r (evs2 ++ evs1).
Proof.
  intros (Hg1 & Hu1 & Hr1 & Hm1 & Hi1 & Hc1 & Hd1 & Hok1)
         (Hg2 & Hu2 & Hr2 & Hm2 & Hi2 & Hc2 & Hd2 & Hok2).
  destruct (Hok1 eq_refl) as [He1 Hall1].
  unfold shelved. rewrite !fcount_app.
  split; [apply guarded_app; assumption |]. split.
  { intros path o H. apply elem_of_app in H as [H | H].
    - destruct (Hu2 path o H) as (d & s & Hp & Hl). exists d, s.
      split; [apply elem_of_app; auto | apply listed_file_app; auto].
    - destruct (Hu1 path o H) as (d & s & Hp & Hl). exists d, s.
      split; [apply elem_of_app; auto | apply listed_file_app; auto]. }
  split.
  { intros old new o H. apply elem_of_app in H as [H | H].
    - destruct (Hr2 old new o H) as (d & s & Hp & Hl & Hn). exists d, s.
      split; [apply elem_of_app; auto |]. split; [apply listed_file_app; auto | exact Hn].
    - destruct (Hr1 old new o H) as (d & s & Hp & Hl & Hn). exists d, s.
      split; [apply elem_of_app; auto |]. split; [apply listed_file_app; auto | exact Hn]. }
  split.
  { intros path o H. apply elem_of_app in H as [H | H].
    - destruct (Hm2 path o H) as (d & Hp). exists d. apply elem_of_app. auto.
    - destruct (Hm1 path o H) as (d & Hp). exists d. apply elem_of_app. auto. }
  split.
  { intros d entries H. apply elem_of_app in H as [H | H].
    - destruct (Hi2 d entries H) as (s & Hp). exists s. apply elem_of_app. auto.
    - destruct (Hi1 d entries H) as (s & Hp). exists s. apply elem_of_app. auto. }
  split; [lia |]. split; [lia |].
  intros Hr. destruct (Hok2 Hr) as [He2 Hall2]. split; [lia |].
  intros path H. rewrite elem_of_app. apply elem_of_app in H as [H | H]; auto.
Qed.

Lemma shelved_mono (pairs pairs' : list (P * P)) (r : result unit)
    (evs : list (FsEvent P)) :
  (forall pair, pair ∈ pairs -> pair ∈ pairs') ->
  shelved disk pairs r evs -> shelved disk pairs' r evs.
Proof.
  intros Hsub (Hg & Hu & Hr & Hm & Hi & Hrest). unfold shelved.
  split; [exact Hg |]. split.
  { intros path o H. destruct (Hu path o H) as (d & s & Hp & Hl). eauto. }
  split.
  { intros old new o H. destruct (Hr old new o H) as (d & s & Hp & Hl). eauto. }
  split.
  { intros path o H. destruct (Hm path o H) as (d & Hp). eauto. }
  split.
  { intros d entries H. destruct (Hi d entries H) as (s & Hp). eauto. }
  exact Hrest.
Qed.

(** The calls of one pass over the entries, after the calls [pre] that
    open the pair: the test of [s_path], its creation, the listing. *)
Lemma block_shelved (d_path s_path : P) (entries : list P) (r : result unit)
    (evs pre : list (FsEvent P)) :
  block disk s_path entries r evs ->
  (forall ev, ev ∈ pre -> is_quiet ev = true) ->
  FsIterdir d_path (Ok entries) ∈ pre ->
  (forall path o, FsMkdir path o ∈ pre -> path = s_path) ->
  (forall d entries, FsIterdir d entries ∈ pre -> d = d_path) ->
  shelved disk [(d_path, s_path)] r (evs ++ pre).
Proof.
  intros (Hg & Hu & Hr & Hq & Hc & Hd & Hok) Hpre Hlist Hm Hi.
  unfold shelved. rewrite !fcount_app.
  rewrite !(quiet_fcount _ pre); try assumption; try (intros []; simpl; congruence).
  assert (Hlisted : forall path, path ∈ entries -> FsIsFile path (Ok true) ∈ evs ->
                                 listed_file (evs ++ pre) d_path path).
  { intros path Hin Hf. split; [exists entries; split; [|exact Hin] |];
      apply elem_of_app; auto. }
  split; [apply guarded_app; [exact Hg | apply quiet_guarded, Hpre] |]. split.
  { intros path o H. apply elem_of_app in H as [H | H].
    - destruct (Hu path o H) as [Hin Hf]. exists d_path, s_path.
      split; [left | auto].
    - exfalso. revert H. apply quiet_not; auto. }
  split.
  { intros old new o H. apply elem_of_app in H as [H | H].
    - destruct (Hr old new o H) as (Hin & Hf & Hn). exists d_path, s_path.
      split; [left | auto].
    - exfalso. revert H. apply quiet_not; auto. }
  split.
  { intros path o H. apply elem_of_app in H as [H | H].
    - destruct (Hq _ H).
    - rewrite (Hm path o H). exists d_path. left. }
  split.
  { intros d en H. apply elem_of_app in H as [H | H].
    - destruct (Hq _ H).
    - rewrite (Hi d en H). exists s_path. left. }
  split; [lia |]. split; [lia |].
  intros Hrok. destruct (Hok Hrok) as [He Hall]. split; [lia |].
  intros path H. apply elem_of_app in H as [H | H].
  - apply elem_of_app. left. apply Hall, H.
  - exfalso. revert H. apply quiet_not; auto.
Qed.

Lemma move_pair_shelved (d_path s_path : P) (s : Shelf P Φ) :
  exists evs,
    calls (snd (move_pair disk d_path s_path s)) = evs ++ calls s
    /\ shelved disk [(d_path, s_path)] (fst (move_pair disk d_path s_path s)) evs.
Proof.
  assert (Hquiet : forall (r : result unit) (pre : list (FsEvent P)),
            (forall ev, ev ∈ pre ->
               (exists a, ev = FsExists s_path a) \/ (exists o, ev = FsMkdir s_path o)
               \/ (exists en, ev = FsIterdir d_path en)) ->
            (forall ev, ev ∈ pre -> is_quiet ev = true)
            /\ (forall path o, FsMkdir path o ∈ pre -> path = s_path)
            /\ (forall d entries, FsIterdir d entries ∈ pre -> d = d_path)).
  { intros _ pre Hpre. split; [|split].
    - intros ev H. destruct (Hpre ev H) as [[a ->] | [[o ->] | [en ->]]]; reflexivity.
    - intros path o H.
      destruct (Hpre _ H) as [[a Heq] | [[o' Heq] | [en Heq]]]; congruence.
    - intros d en H.
      destruct (Hpre _ H) as [[a Heq] | [[o' Heq] | [en' Heq]]]; congruence. }
  assert (Hstop : forall (r : result unit) (pre : list (FsEvent P)),
            (forall ev, ev ∈ pre ->
               (exists a, ev = FsExists s_path a) \/ (exists o, ev = FsMkdir s_path o)
               \/ (exists en, ev = FsIterdir d_path en)) ->
            shelved disk [(d_path, s_path)] r pre).
  { intros r pre Hpre. destruct (Hquiet r pre Hpre) as (Hq & Hm & Hi).
    apply quiet_shelved; [exact Hq | |].
    - intros path o H. rewrite (Hm path o H). exists d_path. left.
    - intros d en H. rewrite (Hi d en H). exists s_path. left. }
  assert (Hgo : forall (pre : list (FsEvent P)) (φ : Φ) (entries : list P),
            (forall ev, ev ∈ pre ->
               (exists a, ev = FsExists s_path a) \/ (exists o, ev = FsMkdir s_path o)
               \/ (exists en, ev = FsIterdir d_path en)) ->
            FsIterdir d_path (Ok entries) ∈ pre ->
            exists evs,
              calls (snd (for_entries disk s_path entries
                            (Build_Shelf φ (pre ++ calls s)))) = evs ++ calls s
              /\ shelved disk [(d_path, s_path)]
                   (fst (for_entries disk s_path entries
                           (Build_Shelf φ (pre ++ calls s)))) evs).
  { intros pre φ entries Hpre Hlist.
    destruct (for_entries_block s_path entries (Build_Shelf φ (pre ++ calls s)))
      as (evs & Hcalls & Hblock).
    destruct (Hquiet (Ok tt) pre Hpre) as (Hq & Hm & Hi).
    exists (evs ++ pre). split.
    - rewrite Hcalls. simpl. rewrite app_assoc. reflexivity.
    - eapply block_shelved; eauto. }
  unfold move_pair, fbind, query, command, fret. simpl.
  destruct (path_exists disk s_path (disk_state s)) as [[|]|e]; simpl.
  - (* the place exists *)
    destruct (path_iterdir disk d_path (disk_state s)) as [entries|e] eqn:Hlist; simpl.
    + apply (Hgo [FsIterdir d_path (Ok entries); FsExists s_path (Ok true)]).
      * intros ev H. repeat (apply elem_of_cons in H as [-> | H]); eauto. inversion H.
      * left.
    + eexists [_; _]. split; [reflexivity |]. apply Hstop.
      intros ev H. repeat (apply elem_of_cons in H as [-> | H]); eauto. inversion H.
  - (* the place is created *)
    destruct (path_mkdir disk s_path (disk_state s)) as [[[]|e] φ]; simpl.
    + destruct (path_iterdir disk d_path φ) as [entries|e] eqn:Hlist; simpl.
      * apply (Hgo [FsIterdir d_path (Ok entries); FsMkdir s_path (Ok tt);
                    FsExists s_path (Ok false)]).
        -- intros ev H. repeat (apply elem_of_cons in H as [-> | H]); eauto. inversion H.
        -- left.
      * eexists [_; _; _]. split; [reflexivity |]. apply Hstop.
        intros ev H. repeat (apply elem_of_cons in H as [-> | H]); eauto. inversion H.
    + eexists [_; _]. split; [reflexivity |]. apply Hstop.
      intros ev H. repeat (apply elem_of_cons in H as [-> | H]); eauto. inversion H.
  - eexists [_]. split; [reflexivity |]. apply Hstop.
    intros ev H. repeat (apply elem_of_cons in H as [-> | H]); eauto. inversion H.
Qed.

Lemma for_pairs_shelved (pairs : list (P * P)) (s : Shelf P Φ) :
  exists evs,
    calls (snd (for_pairs disk pairs s)) = evs ++ calls s
    /\ shelved disk pairs (fst (for_pairs disk pairs s)) evs.
Proof.
  revert s. induction pairs as [|[d_path s_path] rest IH]; intros s.
  - exists []. split; [reflexivity |].
    apply quiet_shelved; intros; match goal with H : _ ∈ [] |- _ => inversion H end.
  - simpl for_pairs. unfold fbind.
    destruct (move_pair_shelved d_path s_path s) as (evs1 & Hcalls1 & Hs1).
    destruct (move_pair disk d_path s_path s) as [[[]|e] s1]; simpl in Hcalls1, Hs1.
    + destruct (IH s1) as (evs2 & Hcalls2 & Hs2).
      exists (evs2 ++ evs1). split.
      * rewrite Hcalls2, Hcalls1, app_assoc. reflexivity.
      * apply (shelved_seq [(d_path, s_path)] rest); assumption.
    + exists evs1. split; [exact Hcalls1 |]. simpl.
      eapply shelved_mono; [|exact Hs1].
      intros pair H. apply list_elem_of_singleton in H. subst. left.
Qed.

Lemma existing_spec (download_path : list P) (s : Shelf P Φ) :
  disk_state (snd (existing disk download_path s)) = disk_state s
  /\ exists evs,
       calls (snd (existing disk download_path s)) = evs ++ calls s
       /\ (forall ev, ev ∈ evs -> exists path a, ev = FsExists path a)
       /\ forall kept, fst (existing disk download_path s) = Ok kept ->
                       forall path, path ∈ kept -> path ∈ download_path.
Proof.
  revert s. induction download_path as [|each rest IH]; intros s.
  - simpl. split; [reflexivity |]. exists []. split; [reflexivity |].
    split; [intros ev H; inversion H |].
    intros kept H. inversion H; subst. auto.
  - simpl existing. unfold fbind, query, fret. simpl.
    set (s1 := Build_Shelf (disk_state s)
                 (FsExists each (path_exists disk each (disk_state s)) :: calls s)).
    destruct (path_exists disk each (disk_state s)) as [there|e] eqn:Hthere.
    + destruct (IH s1) as (Hstate & evs & Hcalls & Hq & Hkept).
      destruct (existing disk rest s1) as [[kept|e] s2]; simpl in Hstate, Hcalls, Hkept |- *.
      * split; [exact Hstate |]. exists (evs ++ [FsExists each (Ok there)]).
        split; [rewrite Hcalls, <- app_assoc; reflexivity |].
        split.
        { intros ev H. apply elem_of_app in H as [H | H]; [auto |].
          apply list_elem_of_singleton in H. eauto. }
        intros kept' H path Hin. inversion H; subst kept'.
        destruct there.
        -- apply elem_of_cons in Hin as [-> | Hin]; [left | right; eapply Hkept; eauto].
        -- right. eapply Hkept; eauto.
      * split; [exact Hstate |]. exists (evs ++ [FsExists each (Ok there)]).
        split; [rewrite Hcalls, <- app_assoc; reflexivity |].
        split; [|discriminate].
        intros ev H. apply elem_of_app in H as [H | H]; [auto |].
        apply list_elem_of_singleton in H. eauto.
    + simpl. split; [reflexivity |]. exists [FsExists each (Raise e)].
      split; [reflexivity |]. split; [|discriminate].
      intros ev H. apply list_elem_of_singleton in H. eauto.
Qed.

Lemma zip_archive_pairs (media_types : list string) (base : P) (kept : list P) :
  (forall path, path ∈ kept ->
     path ∈ map (joinpath disk (to_path disk (disk_this_dir disk))) media_types) ->
  forall pair,
    pair ∈ zip kept (map (fun each => joinpath disk base (path_name disk each)) kept) ->
    pair ∈ archive_pairs disk media_types base.
Proof.
  intros Hkept pair Hpair.
  assert (Hshape : fst pair ∈ kept
                   /\ snd pair = joinpath disk base (path_name disk (fst pair))).
  { clear Hkept. induction kept as [|each kept IH]; simpl in Hpair; [inversion Hpair |].
    apply elem_of_cons in Hpair as [-> | Hpair].
    - split; [left | reflexivity].
    - destruct (IH Hpair) as [Hin Heq]. split; [right; exact Hin | exact Heq]. }
  destruct Hshape as [Hin Heq]. apply Hkept in Hin.
  apply list_elem_of_fmap in Hin as (media_type & Hd & Ht).
  unfold archive_pairs. apply list_elem_of_fmap. exists media_type.
  split; [|exact Ht]. destruct pair as [d s]. simpl in *. subst. reflexivity.
Qed.

(** [move_files] as a whole, with its archive directory known. *)
Lemma move_files_run (media_types : list string) (save_path : string)
    (config_name : option string) (s : Shelf P Φ) :
  exists evs,
    calls (snd (move_files disk media_types (Some save_path) config_name s))
    = evs ++ calls s
    /\ shelved disk
         (archive_pairs disk media_types
            (joinpath disk (to_path disk save_path) (py_str config_name)))
         (fst (move_files disk media_types (Some save_path) config_name s)) evs.
Proof.
  unfold move_files, fbind, flift.
  set (this_dir := to_path disk (disk_this_dir disk)).
  set (base := joinpath disk (to_path disk save_path) (py_str config_name)).
  destruct (existing_spec (map (joinpath disk this_dir) media_types) s)
    as (_ & evs0 & Hcalls0 & Hq0 & Hkept).
  assert (Hquiet0 : forall ev, ev ∈ evs0 -> is_quiet ev = true).
  { intros ev H. destruct (Hq0 ev H) as (path & a & ->). reflexivity. }
  assert (Hstop : forall r, shelved disk (archive_pairs disk media_types base) r evs0).
  { intros r. apply quiet_shelved; [exact Hquiet0 | |].
    - intros path o H. destruct (Hq0 _ H) as (p & a & Heq). discriminate.
    - intros d en H. destruct (Hq0 _ H) as (p & a & Heq). discriminate. }
  destruct (existing disk (map (joinpath disk this_dir) media_types) s)
    as [[kept|e] s1]; simpl in Hcalls0, Hkept.
  2:{ exists evs0. split; [exact Hcalls0 | apply Hstop]. }
  simpl. fold base.
  destruct (for_pairs_shelved
              (zip kept (map (fun each => joinpath disk base (path_name disk each)) kept))
              s1) as (evs & Hcalls & Hshelved).
  exists (evs ++ evs0). split; [rewrite Hcalls, Hcalls0, app_assoc; reflexivity |].
  apply (shelved_mono
           (archive_pairs disk media_types base
            ++ zip kept (map (fun each => joinpath disk base (path_name disk each)) kept))).
  { intros pair H. apply elem_of_app in H as [H | H]; [exact H |].
    eapply zip_archive_pairs; [|exact H]. apply Hkept. reflexivity. }
  apply shelved_seq; [apply Hstop | exact Hshelved].
Qed.

(** X20. [move_files] never renames a file onto a path that it has not
    just tested and found absent: in the calls it makes, every [rename]
    comes right after an [exists] on its target that answered [False]. *)
Theorem move_files_guards_renames (media_types : list string) (save_path : string)
    (config_name : option string) (s : Shelf P Φ) :
  exists evs,
    calls (snd (move_files disk media_types (Some save_path) config_name s))
    = evs ++ calls s
    /\ guarded evs.
Proof.
  destruct (move_files_run media_types save_path config_name s)
    as (evs & Hcalls & Hg & _).
  exists evs. auto.
Qed.


(** X22. [move_files] removes every download, moved or not: on a run
    that returns, every entry found to be a regular file has been
    unlinked, so there are as many unlinks as regular files, while the
    renames may be fewer (an entry whose name is taken in the archive is
    unlinked without having been renamed); on a run that raises, the
    unlinks and the renames are at most as many as the regular files. *)
Theorem move_files_unlinks_every_file (media_types : list string) (save_path : string)
    (config_name : option string) (s : Shelf P Φ) :
  exists evs,
    calls (snd (move_files disk media_types (Some save_path) config_name s))
    = evs ++ calls s
    /\ fcount is_unlink evs <= fcount is_regular evs
    /\ fcount is_rename evs <= fcount is_regular evs
    /\ (fst (move_files disk media_types (Some save_path) config_name s) = Ok tt ->
        fcount is_unlink evs = fcount is_regular evs
        /\ forall path, FsIsFile path (Ok true) ∈ evs -> FsUnlink path (Ok tt) ∈ evs).
Proof.
  destruct (move_files_run media_types save_path config_name s)
    as (evs & Hcalls & _ & _ & _ & _ & _ & Hc & Hd & Hok).
  exists evs. auto.
Qed.

(** X23. Without [save_path] in the configuration [move_files] fails
    before it changes anything: [Path(None)] raises [TypeError] once the
    download directories have been tested, and the disk is as it was. *)
Theorem move_files_needs_save_path (media_types : list string)
    (config_name : option string) (s : Shelf P Φ) :
  is_ok (fst (move_files disk media_types None config_name s)) = false
  /\ disk_state (snd (move_files disk media_types None config_name s)) = disk_state s
  /\ ((forall media_type,
         media_type ∈ media_types ->
         forall φ, is_ok (path_exists disk
                            (joinpath disk (to_path disk (disk_this_dir disk)) media_type)
                            φ) = true) ->
      fst (move_files disk media_types None config_name s) = Raise TypeError).
Proof.
  unfold move_files, fbind, flift, base_save_path.
  set (download_path := map (joinpath disk (to_path disk (disk_this_dir disk)))
                            media_types).
  destruct (existing_spec download_path s) as (Hstate & _).
  assert (Hok : (forall path, path ∈ download_path ->
                   forall φ, is_ok (path_exists disk path φ) = true) ->
                forall s, is_ok (fst (existing disk download_path s)) = true).
  { clear. induction download_path as [|each rest IH]; intros Hall s; [reflexivity |].
    simpl existing. unfold fbind, query, fret. simpl.
    pose proof (Hall each ltac:(left) (disk_state s)) as Heach.
    destruct (path_exists disk each (disk_state s)) as [there|e]; [|discriminate].
    match goal with |- context [existing disk rest ?s1] =>
      pose proof (IH ltac:(intros p Hp; apply Hall; right; exact Hp) s1) as Hrest;
      destruct (existing disk rest s1) as [[kept|e] s2]
    end; [reflexivity | discriminate]. }
  specialize (fun H => Hok H s).
  destruct (existing disk download_path s) as [[kept|e] s1]; simpl in Hstate |- *.
  - split; [reflexivity |]. split; [exact Hstate |]. reflexivity.
  - split; [reflexivity |]. split; [exact Hstate |].
    intros Hall. exfalso.
    assert (H : is_ok (Raise e : result (list P)) = true); [|discriminate].
    apply Hok. intros path Hp φ.
    apply list_elem_of_fmap in Hp as (t & -> & Ht). apply Hall. exact Ht.
Qed.

End Archive.

(** A download whose name is taken in the archive is lost: with
    [a.jpg] both in the download directory and in the archive,
    [move_files] unlinks the download without renaming it, while [b.jpg],
    whose name is free, is moved. *)
Example move_files_drops_taken_name :
  move_files SimDisk.disk ["photo"] (Some "/data") (Some "chat")
    (Build_Shelf [("/app/photo", false); ("/app/photo/a.jpg", true);
                  ("/app/photo/b.jpg", true);
                  ("/data/chat/photo", false); ("/data/chat/photo/a.jpg", true)] [])
  = (Ok tt,
     Build_Shelf [("/app/photo", false); ("/data/chat/photo", false);
                  ("/data/chat/photo/a.jpg", true); ("/data/chat/photo/b.jpg", true)]
       [FsUnlink "/app/photo/b.jpg" (Ok tt);
        FsRename "/app/photo/b.jpg" "/data/chat/photo/b.jpg" (Ok tt);
        FsExists "/data/chat/photo/b.jpg" (Ok false);
        FsIsFile "/app/photo/b.jpg" (Ok true);
        FsUnlink "/app/photo/a.jpg" (Ok tt);
        FsExists "/data/chat/photo/a.jpg" (Ok true);
        FsIsFile "/app/photo/a.jpg" (Ok true);
        FsIterdir "/app/photo" (Ok ["/app/photo/a.jpg"; "/app/photo/b.jpg"]);
        FsExists "/data/chat/photo" (Ok true);
        FsExists "/app/photo" (Ok true)]).
Proof. vm_compute. reflexivity. Qed.
